(** * Verification of the D&D session coordinator (src/session.ts)

    A shallow embedding of the session orchestrator, the narration client,
    the effect-resolution engine and the combat turn tracker, followed by
    the properties stated about them.

    Modelling conventions.
    - A JavaScript string is a [string]: a sequence of code units below
      256 (plain text).  Case mapping and white space follow ECMAScript on
      that range.
    - A JavaScript number holding an integer is a [Z] (exact, as in the
      source below 2^53).  The one place where the source can produce NaN,
      the turn index after a modulo by zero, uses the type [number].
    - The health of an enemy is modelled twice.  [EffectResolver] computes
      on integers and reads the table of default healths as the table of
      its own entries.  [Resolver] computes the combat side on run-time
      values ([Js]): a number is the double for the integer read, an
      infinity or NaN, and a read of the table also finds what every
      object inherits.  The two agree on a narration whose numerals stay
      below 2^53 and that names no enemy after an inherited property
      ([resolvers_agree]).  The two claims about the health an enemy
      has after effect resolution, C2 and C7, are settled on [Resolver].
    - A [Map<string, Player>] is an association list in insertion order;
      an object reached through [find] is addressed by its position, so a
      mutation through the reference updates the shared entry.
    - Regular-expression literals keep the text they have in the source and
      are run by a backtracking matcher that follows the ECMAScript
      algorithm (greedy and lazy quantifiers, captures, flags i and g). *)

From Stdlib Require Import List String Ascii ZArith NArith Bool Arith Lia.
Import ListNotations.

Set Implicit Arguments.

Local Open Scope string_scope.

(* ================================================================== *)
(** ** JavaScript strings *)
(* ================================================================== *)

Module JsString.

Definition chars (s : string) : list ascii := list_ascii_of_string s.
Definition str (l : list ascii) : string := string_of_list_ascii l.

Definition code (c : ascii) : N := N_of_ascii c.

Definition between (lo hi n : N) : bool := ((lo <=? n) && (n <=? hi))%N.

(** WhiteSpace and LineTerminator code units below 256. *)
Definition isWhiteSpace (c : ascii) : bool :=
  let n := code c in (between 9 13 n || (n =? 32) || (n =? 160))%N.

Definition isDigit (c : ascii) : bool := between 48 57 (code c).

Definition isWordChar (c : ascii) : bool :=
  let n := code c in
  (between 97 122 n || between 65 90 n || between 48 57 n || (n =? 95))%N.

Definition lowerChar (c : ascii) : ascii :=
  let n := code c in
  if (between 65 90 n || (between 192 222 n && negb (n =? 215)))%N
  then ascii_of_N (n + 32) else c.

(** Upper case of a code unit; the source applies it to characters
    matched by [[A-Za-z\s]] only. *)
Definition upperChar (c : ascii) : ascii :=
  let n := code c in
  if between 97 122 n then ascii_of_N (n - 32) else c.

Definition toLowerCase (s : string) : string := str (map lowerChar (chars s)).
Definition toUpperCase (s : string) : string := str (map upperChar (chars s)).

Fixpoint dropWhile (p : ascii -> bool) (l : list ascii) : list ascii :=
  match l with
  | [] => []
  | c :: t => if p c then dropWhile p t else l
  end.

Definition trimChars (l : list ascii) : list ascii :=
  rev (dropWhile isWhiteSpace (rev (dropWhile isWhiteSpace l))).

Definition trim (s : string) : string := str (trimChars (chars s)).

Fixpoint splitChars (sep : ascii) (l cur : list ascii) : list (list ascii) :=
  match l with
  | [] => [rev cur]
  | c :: t =>
      if Ascii.eqb c sep then rev cur :: splitChars sep t []
      else splitChars sep t (c :: cur)
  end.

(** [s.split(' ')] *)
Definition split (s : string) (sep : ascii) : list string :=
  map str (splitChars sep (chars s) []).

(** [words.join(' ')] *)
Fixpoint join (sep : string) (l : list string) : string :=
  match l with
  | [] => ""
  | [w] => w
  | w :: t => w ++ sep ++ join sep t
  end.

Fixpoint isPrefix (p l : list ascii) : bool :=
  match p, l with
  | [], _ => true
  | a :: p', b :: l' => Ascii.eqb a b && isPrefix p' l'
  | _ :: _, [] => false
  end.

Fixpoint includesChars (l needle : list ascii) : bool :=
  isPrefix needle l ||
  match l with
  | [] => false
  | _ :: t => includesChars t needle
  end.

Definition startsWith (s p : string) : bool := isPrefix (chars p) (chars s).
Definition includes (s needle : string) : bool := includesChars (chars s) (chars needle).

(** [s.charAt(0)] and [s.slice(1)] *)
Definition charAt0 (s : string) : string :=
  match s with
  | EmptyString => ""
  | String c _ => String c EmptyString
  end.

Definition slice1 (s : string) : string :=
  match s with
  | EmptyString => ""
  | String _ t => t
  end.

Definition isEmpty (s : string) : bool :=
  match s with
  | EmptyString => true
  | String _ _ => false
  end.

Fixpoint digitsValue (acc : Z) (l : list ascii) : Z :=
  match l with
  | [] => acc
  | c :: t =>
      if isDigit c then digitsValue (10 * acc + Z.of_N (code c - 48)) t else acc
  end.

(** [parseInt(s, 10)] as the integer it reads: leading white space, an
    optional sign, then the longest run of decimal digits; [None] is NaN.
    The number the source goes on with is the double for this integer
    ([Js.parseInt]): the same below 2^53, rounded beyond, infinite from
    309 digits on. *)
Definition parseInt (s : string) : option Z :=
  let l := dropWhile isWhiteSpace (chars s) in
  let '(sign, body) :=
    match l with
    | c :: t =>
        if Ascii.eqb c "-" then ((-1)%Z, t)
        else if Ascii.eqb c "+" then (1%Z, t)
        else (1%Z, l)
    | [] => (1%Z, l)
    end in
  match body with
  | c :: _ => if isDigit c then Some (sign * digitsValue 0 body)%Z else None
  | [] => None
  end.

End JsString.

(* ================================================================== *)
(** ** JavaScript regular expressions *)
(* ================================================================== *)

Module RegExp.
Import JsString.

Inductive ClassAtom : Type :=
| CChar (c : ascii)
| CRange (lo hi : ascii)
| CDigit (neg : bool)
| CSpace (neg : bool)
| CWord (neg : bool).

Inductive Node : Type :=
| Empty
| Char (c : ascii)
| Dot
| CharClass (invert : bool) (atoms : list ClassAtom)
| Seq (a b : Node)
| Disj (a b : Node)
| Group (idx : nat) (body : Node)
| Quant (body : Node) (min : nat) (max : option nat) (greedy : bool)
| AssertStart
| AssertEnd
| WordBoundary (neg : bool).

(** *** Parsing a pattern's source text *)

Definition isChar (c : ascii) (lit : string) : bool :=
  match lit with
  | String d EmptyString => Ascii.eqb c d
  | _ => false
  end.

Definition escapeAtom (c : ascii) : ClassAtom :=
  if isChar c "d" then CDigit false
  else if isChar c "D" then CDigit true
  else if isChar c "s" then CSpace false
  else if isChar c "S" then CSpace true
  else if isChar c "w" then CWord false
  else if isChar c "W" then CWord true
  else CChar c.

(** The items of a bracket class, up to and including the closing
    bracket. *)
Fixpoint parseClassItems (fuel : nat) (s : list ascii)
  : option (list ClassAtom * list ascii) :=
  match fuel with
  | O => None
  | S f =>
      match s with
      | [] => None
      | c :: r =>
          if isChar c "]" then Some ([], r)
          else
            let first :=
              if isChar c "\" then
                match r with
                | e :: r' => Some (escapeAtom e, r')
                | [] => None
                end
              else Some (CChar c, r) in
            match first with
            | None => None
            | Some (CChar lo, d :: hi :: r') =>
                if isChar d "-" && negb (isChar hi "]") then
                  let '(hiAtom, r'') :=
                    if isChar hi "\" then
                      match r' with
                      | e :: t => (escapeAtom e, t)
                      | [] => (CChar hi, r')
                      end
                    else (CChar hi, r') in
                  match hiAtom with
                  | CChar h =>
                      match parseClassItems f r'' with
                      | Some (items, rest) => Some (CRange lo h :: items, rest)
                      | None => None
                      end
                  | _ => None
                  end
                else
                  match parseClassItems f (d :: hi :: r') with
                  | Some (items, rest) => Some (CChar lo :: items, rest)
                  | None => None
                  end
            | Some (a, r') =>
                match parseClassItems f r' with
                | Some (items, rest) => Some (a :: items, rest)
                | None => None
                end
            end
      end
  end.

Definition parseClass (s : list ascii) : option (Node * list ascii) :=
  let '(inv, body) :=
    match s with
    | c :: r => if isChar c "^" then (true, r) else (false, s)
    | [] => (false, s)
    end in
  match parseClassItems (S (List.length body)) body with
  | Some (items, rest) => Some (CharClass inv items, rest)
  | None => None
  end.

(** A quantifier suffix, if any: [?], [*], [+], each optionally lazy. *)
Definition parseQuantifier (a : Node) (s : list ascii) : Node * list ascii :=
  let lazyMark (r : list ascii) : bool * list ascii :=
    match r with
    | q :: r' => if isChar q "?" then (false, r') else (true, r)
    | [] => (true, r)
    end in
  match s with
  | c :: r =>
      if isChar c "?" then let '(g, r') := lazyMark r in (Quant a 0 (Some 1) g, r')
      else if isChar c "*" then let '(g, r') := lazyMark r in (Quant a 0 None g, r')
      else if isChar c "+" then let '(g, r') := lazyMark r in (Quant a 1 None g, r')
      else (a, s)
  | [] => (a, s)
  end.

(** Recursive descent over Disjunction / Alternative / Term.  [g] counts
    the capturing groups opened so far (groups are numbered by their
    opening parenthesis, from 1). *)
Fixpoint parseDisjunction (fuel : nat) (s : list ascii) (g : nat)
  : option (Node * list ascii * nat) :=
  match fuel with
  | O => None
  | S f =>
      match parseAlternative f s g with
      | Some (a, rest, g') =>
          match rest with
          | c :: rest' =>
              if isChar c "|" then
                match parseDisjunction f rest' g' with
                | Some (b, r2, g2) => Some (Disj a b, r2, g2)
                | None => None
                end
              else Some (a, rest, g')
          | [] => Some (a, rest, g')
          end
      | None => None
      end
  end

with parseAlternative (fuel : nat) (s : list ascii) (g : nat)
  : option (Node * list ascii * nat) :=
  match fuel with
  | O => None
  | S f =>
      match s with
      | [] => Some (Empty, s, g)
      | c :: _ =>
          if isChar c "|" || isChar c ")" then Some (Empty, s, g)
          else
            match parseTerm f s g with
            | Some (t, rest, g') =>
                match parseAlternative f rest g' with
                | Some (Empty, r2, g2) => Some (t, r2, g2)
                | Some (a, r2, g2) => Some (Seq t a, r2, g2)
                | None => None
                end
            | None => None
            end
      end
  end

with parseTerm (fuel : nat) (s : list ascii) (g : nat)
  : option (Node * list ascii * nat) :=
  match fuel with
  | O => None
  | S f =>
      match s with
      | [] => None
      | c :: r =>
          if isChar c "^" then Some (AssertStart, r, g)
          else if isChar c "$" then Some (AssertEnd, r, g)
          else if isChar c "(" then
            match r with
            | q :: k :: r' =>
                if isChar q "?" && isChar k ":" then
                  match parseDisjunction f r' g with
                  | Some (d, p :: r2, g') =>
                      if isChar p ")" then
                        let '(t, r3) := parseQuantifier d r2 in Some (t, r3, g')
                      else None
                  | _ => None
                  end
                else
                  match parseDisjunction f r (S g) with
                  | Some (d, p :: r2, g') =>
                      if isChar p ")" then
                        let '(t, r3) := parseQuantifier (Group (S g) d) r2 in
                        Some (t, r3, g')
                      else None
                  | _ => None
                  end
            | _ => None
            end
          else if isChar c "[" then
            match parseClass r with
            | Some (cls, r2) =>
                let '(t, r3) := parseQuantifier cls r2 in Some (t, r3, g)
            | None => None
            end
          else if isChar c "\" then
            match r with
            | e :: r2 =>
                if isChar e "b" then Some (WordBoundary false, r2, g)
                else if isChar e "B" then Some (WordBoundary true, r2, g)
                else
                  let atom :=
                    match escapeAtom e with
                    | CChar x => Char x
                    | a => CharClass false [a]
                    end in
                  let '(t, r3) := parseQuantifier atom r2 in Some (t, r3, g)
            | [] => None
            end
          else if isChar c "*" || isChar c "+" || isChar c "?" then None
          else
            let atom := if isChar c "." then Dot else Char c in
            let '(t, r3) := parseQuantifier atom r in Some (t, r3, g)
      end
  end.

Definition parse (source : string) : option Node :=
  let s := chars source in
  match parseDisjunction (4 * List.length s + 4) s 0 with
  | Some (n, [], _) => Some n
  | _ => None
  end.

(** *** Matching *)

Record MatchState : Type := mkState {
  endIndex : nat;
  rest : list ascii;            (* the input from [endIndex] on *)
  prev : option ascii;          (* the code unit before [endIndex] *)
  captures : list (nat * string)
}.

Definition setCapture (i : nat) (v : string) (caps : list (nat * string)) :=
  (i, v) :: filter (fun kv => negb (Nat.eqb (fst kv) i)) caps.

Definition clearCaptures (gs : list nat) (caps : list (nat * string)) :=
  filter (fun kv => negb (existsb (Nat.eqb (fst kv)) gs)) caps.

Fixpoint getCapture (i : nat) (caps : list (nat * string)) : option string :=
  match caps with
  | [] => None
  | (k, v) :: t => if Nat.eqb k i then Some v else getCapture i t
  end.

Fixpoint groupsOf (r : Node) : list nat :=
  match r with
  | Seq a b | Disj a b => groupsOf a ++ groupsOf b
  | Group i body => i :: groupsOf body
  | Quant body _ _ _ => groupsOf body
  | _ => []
  end.

(** Canonicalize (flag i, non-unicode): the upper-case mapping. *)
Definition canonicalize (ignoreCase : bool) (c : ascii) : ascii :=
  if ignoreCase then upperChar c else c.

Definition inRange (lo hi c : ascii) : bool := between (code lo) (code hi) (code c).

Definition atomMatches (ignoreCase : bool) (a : ClassAtom) (c : ascii) : bool :=
  match a with
  | CChar x => Ascii.eqb (canonicalize ignoreCase x) (canonicalize ignoreCase c)
  | CRange lo hi =>
      inRange lo hi c ||
      (ignoreCase && (inRange lo hi (lowerChar c) || inRange lo hi (upperChar c)))
  | CDigit neg => xorb neg (isDigit c)
  | CSpace neg => xorb neg (isWhiteSpace c)
  | CWord neg => xorb neg (isWordChar c)
  end.

Definition isLineTerminator (c : ascii) : bool :=
  let n := code c in ((n =? 10) || (n =? 13))%N.

Definition step (x : MatchState) (c : ascii) (t : list ascii) : MatchState :=
  mkState (S (endIndex x)) t (Some c) (captures x).

Definition wordAt (o : option ascii) : bool :=
  match o with
  | Some c => isWordChar c
  | None => false
  end.

Definition orElse (a : option MatchState) (b : unit -> option MatchState) :=
  match a with
  | Some z => Some z
  | None => b tt
  end.

Definition Continuation : Type := MatchState -> option MatchState.
Definition Matcher : Type := MatchState -> Continuation -> option MatchState.

Definition resetGroups (gs : list nat) (x : MatchState) : MatchState :=
  mkState (endIndex x) (rest x) (prev x) (clearCaptures gs (captures x)).

(** RepeatMatcher: [mb] is the matcher of the quantified atom and [gs]
    the capturing groups inside it, reset at every round.  A round that
    consumes nothing once [min] is reached is given up, so the rounds
    are bounded by [min] plus the length of the remaining input; [fuel]
    carries that bound, and a larger one changes nothing
    ([Adequacy.repeatMatcher_fuel]). *)
Fixpoint repeatMatcher (mb : Matcher) (gs : list nat) (greedy : bool)
  (c : Continuation) (fuel min : nat) (max : option nat) (x : MatchState)
  {struct fuel} : option MatchState :=
  match fuel with
  | O => None
  | S fuel' =>
      match max with
      | Some O => c x
      | _ =>
          let d : Continuation := fun y =>
            if Nat.eqb min 0 && Nat.eqb (endIndex y) (endIndex x) then None
            else repeatMatcher mb gs greedy c fuel' (Nat.pred min)
                               (option_map Nat.pred max) y in
          let xr := resetGroups gs x in
          if negb (Nat.eqb min 0) then mb xr d
          else if greedy then orElse (mb xr d) (fun _ => c x)
          else orElse (c x) (fun _ => mb xr d)
      end
  end.

(** The matcher of a node, in continuation-passing style as in the
    language definition: [m ic r x c] tries [r] at state [x] and hands
    every candidate end state to the continuation [c], backtracking on
    failure. *)
Fixpoint m (ic : bool) (r : Node) (x : MatchState) (c : Continuation)
  {struct r} : option MatchState :=
  match r with
  | Empty => c x
  | Char ch =>
      match rest x with
      | a :: t =>
          if Ascii.eqb (canonicalize ic ch) (canonicalize ic a)
          then c (step x a t) else None
      | [] => None
      end
  | Dot =>
      match rest x with
      | a :: t => if isLineTerminator a then None else c (step x a t)
      | [] => None
      end
  | CharClass inv atoms =>
      match rest x with
      | a :: t =>
          if xorb inv (existsb (fun at_ => atomMatches ic at_ a) atoms)
          then c (step x a t) else None
      | [] => None
      end
  | Seq a b => m ic a x (fun y => m ic b y c)
  | Disj a b => orElse (m ic a x c) (fun _ => m ic b x c)
  | Group i body =>
      m ic body x (fun y =>
        let text := str (firstn (endIndex y - endIndex x) (rest x)) in
        c (mkState (endIndex y) (rest y) (prev y) (setCapture i text (captures y))))
  | Quant body min max greedy =>
      repeatMatcher (m ic body) (groupsOf body) greedy c
                    (min + List.length (rest x) + 1) min max x
  | AssertStart => if Nat.eqb (endIndex x) 0 then c x else None
  | AssertEnd =>
      match rest x with
      | [] => c x
      | _ :: _ => None
      end
  | WordBoundary neg =>
      let a := wordAt (prev x) in
      let b := wordAt (hd_error (rest x)) in
      if xorb neg (xorb a b) then c x else None
  end.

(** A regular-expression object: the literal's source text and flags. *)
Record t : Type := mk {
  source : string;
  ignoreCase : bool;
  global : bool
}.

Definition literal (src flags : string) : t :=
  mk src (includes flags "i") (includes flags "g").

(** A pattern that does not parse matches nothing (every literal of the
    source parses, see [literals_parse]). *)
Definition node (re : t) : Node :=
  match parse (source re) with
  | Some n => n
  | None => CharClass false []
  end.

(** The match array: [index], the end of the match, [match[0]] and the
    captured groups ([None] is undefined). *)
Record Match : Type := mkMatch {
  index : nat;
  lastIndex : nat;
  whole : string;
  groups : list (nat * string)
}.

Definition group (mt : Match) (i : nat) : option string :=
  match i with
  | O => Some (whole mt)
  | _ => getCapture i (groups mt)
  end.

(** Try every start position from [i] on, leftmost first. *)
Fixpoint search (ic : bool) (n : Node) (i : nat) (before : option ascii)
  (s : list ascii) : option Match :=
  match m ic n (mkState i s before []) (fun y => Some y) with
  | Some y =>
      Some (mkMatch i (endIndex y) (str (firstn (endIndex y - i) s)) (captures y))
  | None =>
      match s with
      | [] => None
      | a :: t => search ic n (S i) (Some a) t
      end
  end.

Definition charBefore (input : list ascii) (i : nat) : option ascii :=
  match i with
  | O => None
  | S j => nth_error input j
  end.

(** RegExpBuiltinExec started at [from]. *)
Definition execFrom (re : t) (input : list ascii) (from : nat) : option Match :=
  if Nat.ltb (List.length input) from then None
  else search (ignoreCase re) (node re) from (charBefore input from) (skipn from input).

Definition exec (re : t) (s : string) : option Match := execFrom re (chars s) 0.

(** [re.test(s)] for a regular expression without the g flag. *)
Definition test (re : t) (s : string) : bool :=
  match exec re s with
  | Some _ => true
  | None => false
  end.

Fixpoint matchesFrom (fuel : nat) (re : t) (input : list ascii) (from : nat)
  : list Match :=
  match fuel with
  | O => []
  | S f =>
      match execFrom re input from with
      | None => []
      | Some mt =>
          let next := if Nat.eqb (lastIndex mt) (index mt)
                      then S (lastIndex mt) else lastIndex mt in
          mt :: matchesFrom f re input next
      end
  end.

(** [s.matchAll(re)] for a regular expression with the g flag: the
    successive matches, each search starting where the previous match
    ended (one further on after an empty match).  There are at most as
    many matches as start positions ([Adequacy.matchAll_fuel]). *)
Definition matchAll (s : string) (re : t) : list Match :=
  let input := chars s in matchesFrom (S (List.length input)) re input 0.

Fixpoint cut (input : list ascii) (pos : nat) (ms : list Match) : list ascii :=
  match ms with
  | [] => skipn pos input
  | mt :: rest =>
      firstn (index mt - pos) (skipn pos input) ++ cut input (lastIndex mt) rest
  end.

(** [s.replace(re, '')]: every match is removed with the g flag, the
    first one without. *)
Definition remove (s : string) (re : t) : string :=
  let input := chars s in
  let ms := if global re then matchesFrom (S (List.length input)) re input 0
            else match execFrom re input 0 with
                 | Some mt => [mt]
                 | None => []
                 end in
  str (cut input 0 ms).

End RegExp.

(* ================================================================== *)
(** ** Data model *)
(* ================================================================== *)

Module Player.
Record t : Type := mk {
  id : string;
  name : string;
  hp : Z;
  inventory : list string
}.

Definition setName (v : string) (p : t) : t := mk (id p) v (hp p) (inventory p).
Definition setHp (v : Z) (p : t) : t := mk (id p) (name p) v (inventory p).
Definition setInventory (v : list string) (p : t) : t := mk (id p) (name p) (hp p) v.
End Player.

Module Enemy.
Record t : Type := mk {
  name : string;
  hp : Z
}.

Definition setHp (v : Z) (e : t) : t := mk (name e) v.
End Enemy.

Record Message : Type := mkMessage {
  actor : string;
  content : string;
  ts : Z
}.

(** A number that may be NaN (the turn index). *)
Inductive number : Type :=
| Num (z : Z)
| NaN.

Record CombatState : Type := mkCombat {
  active : bool;
  turnOrder : list string;
  currentTurnIndex : number;
  enemies : list Enemy.t
}.

(** Objects held in an array or a map are shared: [find] yields a
    reference, modelled by the position of the object, and an assignment
    through the reference rewrites the object in place. *)
Section References.
Variable A : Type.

Fixpoint findIndex (p : A -> bool) (l : list A) : option nat :=
  match l with
  | [] => None
  | x :: t => if p x then Some 0 else option_map S (findIndex p t)
  end.

Fixpoint mutate (i : nat) (f : A -> A) (l : list A) {struct l} : list A :=
  match l, i with
  | [], _ => []
  | x :: t, O => f x :: t
  | x :: t, S j => x :: mutate j f t
  end.
End References.

(** [Map<string, Player>], in insertion order. *)
Module PlayerMap.
Definition t : Type := list (string * Player.t).

Definition empty : t := [].

Fixpoint get (m : t) (k : string) : option Player.t :=
  match m with
  | [] => None
  | (k', v) :: rest => if String.eqb k' k then Some v else get rest k
  end.

Definition has (m : t) (k : string) : bool :=
  match get m k with
  | Some _ => true
  | None => false
  end.

(** [set] keeps the position of a key that is present and appends a new
    key. *)
Fixpoint set (m : t) (k : string) (v : Player.t) : t :=
  match m with
  | [] => [(k, v)]
  | (k', v') :: rest =>
      if String.eqb k' k then (k', v) :: rest else (k', v') :: set rest k v
  end.

Definition values (m : t) : list Player.t := map snd m.
Definition keys (m : t) : list string := map fst m.
Definition size (m : t) : nat := List.length m.

(** [Array.from(players.values()).find(p)], as a reference. *)
Definition find (p : Player.t -> bool) (m : t) : option nat :=
  findIndex p (values m).

(** Assignment to a field of the player behind a reference. *)
Definition assign (i : nat) (f : Player.t -> Player.t) (m : t) : t :=
  mutate i (fun kv => (fst kv, f (snd kv))) m.

Definition deref (m : t) (i : nat) : option Player.t := nth_error (values m) i.
End PlayerMap.

Record SessionSnapshot : Type := mkSnapshot {
  snapPlayers : list (string * Player.t);
  snapMessages : list Message;
  snapCombat : CombatState;
  snapLastActivity : Z;
  snapSessionId : option string
}.

Record SessionContext : Type := mkContext {
  ctxPlayers : list Player.t;
  ctxMessages : list Message;
  ctxCombat : CombatState
}.

Record NarrationResult : Type := mkNarration {
  text : string;
  thinking : string;
  degraded : bool
}.

Record JoinPayload : Type := mkJoin {
  joinSessionId : string;
  joinPlayerId : string;
  joinName : string
}.

Record ActionPayload : Type := mkAction {
  actSessionId : string;
  actPlayerId : string;
  playerAction : string
}.

Definition SESSION_IDLE_TIMEOUT_MS : Z := (1000 * 60 * 30)%Z.

Definition FALLBACK_DM_TEXT : string :=
  "Sorry, the AI service is unavailable. Please try again later.".

Definition defaultCombatState : CombatState :=
  mkCombat false [] (Num 0%Z) [].

(* ================================================================== *)
(** ** EffectResolver *)
(* ================================================================== *)

Module EffectResolver.
Import JsString.

Definition re := RegExp.literal.

(** [match[i]] of a group that takes part in every match of its
    pattern. *)
Definition groupOf (mt : RegExp.Match) (i : nat) : string :=
  match RegExp.group mt i with
  | Some s => s
  | None => ""
  end.

(** [Number.isFinite(n) && n > 0] on the integer read: an amount of 309
    digits or more, whose double is infinite, counts as finite here. *)
Definition finitePositive (n : option Z) : bool :=
  match n with
  | Some z => (0 <? z)%Z
  | None => false
  end.

(** [p.name.toLowerCase() === name], where [name] may be undefined. *)
Definition sameName (name : option string) (p : Player.t) : bool :=
  match name with
  | Some n => String.eqb (toLowerCase (Player.name p)) n
  | None => false
  end.

(** *** detectCombatScenarios *)

Definition combatTriggers : list RegExp.t := [
  re "(?:attack|combat|fight|battle|engage)(?:s|ing)?" "i";
  re "(?:enemy|enemies|monster|monsters|creature|creatures|foe|foes)\s+(?:appear|emerges?|attack|charge)" "i";
  re "(?:roll|make)\s+(?:initiative|an?\s+initiative)" "i";
  re "initiative\s+(?:roll|order)" "i";
  re "(?:a|the)\s+(?:goblin|orc|skeleton|dragon|wolf|spider|bandit|guard)(?:s)?\s+(?:attack|charge|leap|strike)" "i"
].

Definition hasCombatTrigger (text : string) : bool :=
  existsb (fun pattern => RegExp.test pattern text) combatTriggers.

Definition enemyPatterns : list RegExp.t := [
  re "(?:a|the|\d+)\s+(goblin|orc|skeleton|dragon|wolf|spider|bandit|guard|troll|ogre|zombie|ghoul|wraith|lich|demon|devil|giant|minotaur|basilisk|manticore|harpy|medusa|cyclops|hydra|griffin|pegasus|unicorn|phoenix|roc|kraken|leviathan|behemoth|colossus)(?:s)?(?:\s+\((\d+)\s+HP\))?" "gi";
  re "(?:a|the|\d+)\s+([A-Za-z][A-Za-z\s]*?)\s+\((\d+)\s+HP\)" "gi";
  re "(?:a|the|\d+)\s+([A-Za-z][A-Za-z\s]*?)\s+(?:appears?|emerges?|materializes?|attacks?)" "gi"
].

Definition hpMap : list (string * Z) := [
  ("goblin", 7); ("orc", 15); ("skeleton", 13); ("zombie", 22);
  ("wolf", 11); ("spider", 4); ("bandit", 11); ("guard", 11);
  ("troll", 84); ("ogre", 59); ("dragon", 200); ("lich", 135);
  ("demon", 85); ("devil", 85); ("giant", 138); ("minotaur", 76);
  ("basilisk", 52); ("harpy", 38); ("cyclops", 138); ("hydra", 172)
]%Z.

Fixpoint lookup (table : list (string * Z)) (k : string) : option Z :=
  match table with
  | [] => None
  | (k', v) :: rest => if String.eqb k' k then Some v else lookup rest k
  end.

(** [hpMap[name] || 15].  The object literal is read as the table of its
    own entries, as its type [Record<string, number>] says; a name that
    every object inherits (such as [constructor]) is outside this model:
    [Resolver.getDefaultEnemyHp] reads the table as the source does. *)
Definition getDefaultEnemyHp (enemyName : string) : Z :=
  let name := toLowerCase enemyName in
  match lookup hpMap name with
  | Some v => if (v =? 0)%Z then 15%Z else v
  | None => 15%Z
  end.

Definition capitalize (word : string) : string :=
  (toUpperCase (charAt0 word) ++ slice1 word)%string.

(** The clean-up of a detected name: a leading article is dropped and
    every space-separated word is capitalised. *)
Definition cleanEnemyName (enemyName : string) : string :=
  let stripped := RegExp.remove enemyName (re "^(a|an|the)\s+" "i") in
  join " " (map capitalize (split (toLowerCase stripped) " ")).

(** Name and health read from one match of an enemy pattern. *)
Definition enemyOfMatch (mt : RegExp.Match) : Enemy.t :=
  let stated :=
    match RegExp.group mt 2 with
    | Some digits => if isEmpty digits then None else parseInt digits
    | None => None
    end in
  let enemyName := trim (groupOf mt 1) in
  let enemyHp :=
    match stated with
    | Some n => n
    | None => getDefaultEnemyHp enemyName
    end in
  Enemy.mk (cleanEnemyName enemyName) enemyHp.

(** One iteration of the inner loop: [enemies] and the set
    [foundEnemies] of lower-cased names seen so far. *)
Definition addEnemy (acc : list Enemy.t * list string) (mt : RegExp.Match)
  : list Enemy.t * list string :=
  let '(enemies, foundEnemies) := acc in
  let e := enemyOfMatch mt in
  let enemyKey := toLowerCase (Enemy.name e) in
  if negb (existsb (String.eqb enemyKey) foundEnemies)
     && Nat.ltb 1 (String.length (Enemy.name e))
  then ((enemies ++ [e])%list, (foundEnemies ++ [enemyKey])%list)
  else acc.

Definition scanEnemies (text : string) : list Enemy.t :=
  fst (fold_left
         (fun acc pattern => fold_left addEnemy (RegExp.matchAll text pattern) acc)
         enemyPatterns ([], [])).

Definition detectCombatScenarios (text : string) (players : PlayerMap.t)
  (combat : CombatState) : CombatState :=
  if active combat then combat
  else if negb (hasCombatTrigger text) then combat
  else
    let enemies := scanEnemies text in
    if Nat.ltb 0 (List.length enemies) then
      let playerNames := map Player.name (PlayerMap.values players) in
      mkCombat true (playerNames ++ map Enemy.name enemies)%list (Num 0%Z) enemies
    else combat.

(** *** checkCombatEnd *)

Definition alive (e : Enemy.t) : bool := (0 <? Enemy.hp e)%Z.

Definition checkCombatEnd (combat : CombatState) : CombatState :=
  if negb (active combat) then combat
  else
    let aliveEnemies := filter alive (enemies combat) in
    if Nat.eqb (List.length aliveEnemies) 0
    then mkCombat false [] (Num 0%Z) []
    else combat.

(** *** applyEnemyDamage *)

Definition enemyDamagePatterns : list RegExp.t := [
  re "deals\s+(\d+)\s+(?:points?\s+of\s+)?damage\s+to\s+(?:the\s+)?([A-Za-z][A-Za-z ']*)" "gi";
  re "(?:the\s+)?([A-Za-z][A-Za-z ']*?)\s+takes?\s+(\d+)\s+(?:points?\s+of\s+)?damage" "gi";
  re "(\d+)\s+(?:points?\s+of\s+)?damage\s+to\s+(?:the\s+)?([A-Za-z][A-Za-z ']*)" "gi";
  re "(?:the\s+)?([A-Za-z][A-Za-z ']*?)\s+suffers?\s+(\d+)\s+(?:points?\s+of\s+)?damage" "gi";
  re "strikes?\s+(?:the\s+)?([A-Za-z][A-Za-z ']*?)\s+for\s+(\d+)\s+damage" "gi"
].

(** The reference to the enemy a name resolves to: exact match, then the
    enemy's name containing the searched one, then the reverse. *)
Definition findEnemyByName (enemies : list Enemy.t) (searchName : string)
  : option nat :=
  let cleanSearchName :=
    trim (RegExp.remove (toLowerCase searchName) (re "^(the|a|an)\s+" "")) in
  match findIndex (fun e => String.eqb (toLowerCase (Enemy.name e)) cleanSearchName)
                  enemies with
  | Some i => Some i
  | None =>
      match findIndex (fun e => includes (toLowerCase (Enemy.name e)) cleanSearchName)
                      enemies with
      | Some i => Some i
      | None =>
          findIndex (fun e => includes cleanSearchName (toLowerCase (Enemy.name e)))
                    enemies
      end
  end.

Definition hurtEnemy (dmg : Z) (e : Enemy.t) : Enemy.t :=
  Enemy.setHp (Z.max 0 (Enemy.hp e - dmg)) e.

Definition enemyDamageStep (pattern : RegExp.t) (enemies : list Enemy.t)
  (mt : RegExp.Match) : list Enemy.t :=
  let '(enemyName, dmg) :=
    if startsWith (RegExp.source pattern) "(\d+)"
       || includes (RegExp.source pattern) "deals"
    then (option_map trim (RegExp.group mt 2), parseInt (groupOf mt 1))
    else (option_map trim (RegExp.group mt 1), parseInt (groupOf mt 2)) in
  match enemyName, dmg with
  | Some n, Some d =>
      if negb (isEmpty n) && (0 <? d)%Z then
        match findEnemyByName enemies n with
        | Some i => mutate i (hurtEnemy d) enemies
        | None => enemies
        end
      else enemies
  | _, _ => enemies
  end.

Definition applyEnemyDamage (text : string) (combat : CombatState) : CombatState :=
  if negb (active combat) || Nat.eqb (List.length (enemies combat)) 0 then combat
  else
    let enemies' :=
      fold_left
        (fun es pattern =>
           fold_left (enemyDamageStep pattern) (RegExp.matchAll text pattern) es)
        enemyDamagePatterns (enemies combat) in
    mkCombat (active combat) (turnOrder combat) (currentTurnIndex combat) enemies'.

(** *** applyPlayerDamage *)

Definition playerDamagePatterns : list RegExp.t := [
  re "([A-Za-z][A-Za-z ']*?)\s+takes?\s+(\d+)\s+(?:points?\s+of\s+)?damage" "gi";
  re "(\d+)\s+(?:points?\s+of\s+)?damage\s+to\s+([A-Za-z][A-Za-z ']*)" "gi";
  re "([A-Za-z][A-Za-z ']*?)\s+suffers?\s+(\d+)\s+(?:points?\s+of\s+)?damage" "gi";
  re "([A-Za-z][A-Za-z ']*?)\s+loses?\s+(\d+)\s+(?:hit\s+points?|hp)" "gi"
].

(** The lower-cased name and the amount of a match; patterns whose
    source starts with the number have the groups the other way round. *)
Definition nameAndAmount (pattern : RegExp.t) (mt : RegExp.Match)
  : option string * option Z :=
  if startsWith (RegExp.source pattern) "(\d+)"
  then (option_map (fun s => toLowerCase (trim s)) (RegExp.group mt 2),
        parseInt (groupOf mt 1))
  else (option_map (fun s => toLowerCase (trim s)) (RegExp.group mt 1),
        parseInt (groupOf mt 2)).

Definition hurtPlayer (dmg : Z) (p : Player.t) : Player.t :=
  Player.setHp (Z.max 0 (Player.hp p - dmg)) p.

Definition playerDamageStep (pattern : RegExp.t) (players : PlayerMap.t)
  (mt : RegExp.Match) : PlayerMap.t :=
  let '(name, dmg) := nameAndAmount pattern mt in
  match PlayerMap.find (sameName name) players, dmg with
  | Some player, Some d =>
      if (0 <? d)%Z then PlayerMap.assign player (hurtPlayer d) players
      else players
  | _, _ => players
  end.

Definition applyPlayerDamage (text : string) (players : PlayerMap.t) : PlayerMap.t :=
  fold_left
    (fun ps pattern =>
       fold_left (playerDamageStep pattern) (RegExp.matchAll text pattern) ps)
    playerDamagePatterns players.

(** *** applyPlayerHealing *)

Definition healingPatterns : list RegExp.t := [
  re "([A-Za-z][A-Za-z ']*?)\s+heals?\s+(\d+)\s+(?:hit\s+points?|hp)" "gi";
  re "([A-Za-z][A-Za-z ']*?)\s+recovers?\s+(\d+)\s+(?:points?\s+of\s+)?(?:damage|health|hp)" "gi";
  re "([A-Za-z][A-Za-z ']*?)\s+gains?\s+(\d+)\s+(?:hit\s+points?|hp|health)" "gi";
  re "(\d+)\s+(?:hit\s+points?|hp|health)\s+(?:restored|healed)\s+to\s+([A-Za-z][A-Za-z ']*)" "gi"
].

Definition maxHp : Z := 20%Z.

Definition healPlayer (heal : Z) (p : Player.t) : Player.t :=
  Player.setHp (Z.min maxHp (Player.hp p + heal)) p.

Definition healingStep (pattern : RegExp.t) (players : PlayerMap.t)
  (mt : RegExp.Match) : PlayerMap.t :=
  let '(name, heal) := nameAndAmount pattern mt in
  match PlayerMap.find (sameName name) players, heal with
  | Some player, Some h =>
      if (0 <? h)%Z then PlayerMap.assign player (healPlayer h) players
      else players
  | _, _ => players
  end.

Definition applyPlayerHealing (text : string) (players : PlayerMap.t) : PlayerMap.t :=
  fold_left
    (fun ps pattern =>
       fold_left (healingStep pattern) (RegExp.matchAll text pattern) ps)
    healingPatterns players.

(** *** applyInventoryChanges *)

Definition gainItemPatterns : list RegExp.t := [
  re "([A-Za-z][A-Za-z ']*?)\s+(?:finds?|discovers?|picks?\s+up|obtains?)\s+(?:a|an|the)\s+([A-Za-z][A-Za-z '\-]*)" "gi";
  re "([A-Za-z][A-Za-z ']*?)\s+(?:receives?|gets?|gains?)\s+(?:a|an|the)\s+([A-Za-z][A-Za-z '\-]*)" "gi";
  re "(?:give|hand)\s+([A-Za-z][A-Za-z ']*?)\s+(?:a|an|the)\s+([A-Za-z][A-Za-z '\-]*)" "gi";
  re "([A-Za-z][A-Za-z ']*?)\s+(?:loots?|takes?)\s+(?:a|an|the)\s+([A-Za-z][A-Za-z '\-]*)" "gi"
].

Definition loseItemPatterns : list RegExp.t := [
  re "([A-Za-z][A-Za-z ']*?)\s+(?:uses?|consumes?|drinks?)\s+(?:a|an|the|their)\s+([A-Za-z][A-Za-z '\-]*)" "gi";
  re "([A-Za-z][A-Za-z ']*?)\s+(?:drops?|loses?|discards?)\s+(?:a|an|the|their)\s+([A-Za-z][A-Za-z '\-]*)" "gi"
].

Definition notAnItem : RegExp.t :=
  re "\b(room|door|way|path|area|place|time|chance)\b" "i".

Definition nonItemChars : RegExp.t := re "[^a-z\s\-]" "g".

Definition pushItem (item : string) (p : Player.t) : Player.t :=
  Player.setInventory (Player.inventory p ++ [item])%list p.

(** [inventory.splice(itemIndex, 1)] *)
Definition spliceItem (itemIndex : nat) (p : Player.t) : Player.t :=
  Player.setInventory
    (firstn itemIndex (Player.inventory p) ++ skipn (S itemIndex) (Player.inventory p))%list
    p.

Definition gainStep (players : PlayerMap.t) (mt : RegExp.Match) : PlayerMap.t :=
  let playerName := option_map (fun s => toLowerCase (trim s)) (RegExp.group mt 1) in
  match option_map trim (RegExp.group mt 2) with
  | None => players
  | Some itemName =>
      if isEmpty itemName || Nat.ltb (String.length itemName) 2
         || RegExp.test notAnItem itemName
      then players
      else
        match PlayerMap.find (sameName playerName) players with
        | Some player =>
            let item := trim (RegExp.remove (toLowerCase itemName) nonItemChars) in
            match PlayerMap.deref players player with
            | Some p =>
                if existsb (String.eqb item) (Player.inventory p) then players
                else PlayerMap.assign player (pushItem item) players
            | None => players
            end
        | None => players
        end
  end.

Definition loseStep (players : PlayerMap.t) (mt : RegExp.Match) : PlayerMap.t :=
  let playerName := option_map (fun s => toLowerCase (trim s)) (RegExp.group mt 1) in
  match option_map (fun s => toLowerCase (trim s)) (RegExp.group mt 2), playerName with
  | Some itemName, Some pn =>
      if isEmpty itemName || isEmpty pn then players
      else
        let item := trim (RegExp.remove itemName nonItemChars) in
        match PlayerMap.find (sameName playerName) players with
        | Some player =>
            match PlayerMap.deref players player with
            | Some p =>
                match findIndex (fun it => includes it item) (Player.inventory p) with
                | Some itemIndex => PlayerMap.assign player (spliceItem itemIndex) players
                | None => players
                end
            | None => players
            end
        | None => players
        end
  | _, _ => players
  end.

Definition applyInventoryChanges (text : string) (players : PlayerMap.t)
  : PlayerMap.t :=
  let gained :=
    fold_left
      (fun ps pattern => fold_left gainStep (RegExp.matchAll text pattern) ps)
      gainItemPatterns players in
  fold_left
    (fun ps pattern => fold_left loseStep (RegExp.matchAll text pattern) ps)
    loseItemPatterns gained.

(** *** apply *)

Definition apply (dmText : string) (players : PlayerMap.t) (combat : CombatState)
  : PlayerMap.t * CombatState :=
  let combat1 := detectCombatScenarios dmText players combat in
  let combat2 := applyEnemyDamage dmText combat1 in
  let players1 := applyPlayerDamage dmText players in
  let players2 := applyPlayerHealing dmText players1 in
  let players3 := applyInventoryChanges dmText players2 in
  (players3, checkCombatEnd combat2).

End EffectResolver.

(* ================================================================== *)
(** ** The coordinator and its collaborators *)
(* ================================================================== *)

(** What a rejected backend call throws: an [Error] object, or any other
    value given by its [String(...)] form. *)
Inductive JsError : Type :=
| ErrorObject (name message : string)
| Thrown (asString : string).

Inductive AiOutcome : Type :=
| Resolved (response : option string)
| Rejected (error : JsError).

(** The arguments the prompt of a backend call is built from. *)
Record AiRequest : Type := mkRequest {
  reqContext : SessionContext;
  reqPlayer : Player.t;
  reqAction : string
}.

(** The outside world as seen from one coordinator: the successive
    readings of [Date.now()] and the outcome of each call of the narration
    backend. *)
Record Env : Type := mkEnv {
  clock : nat -> Z;
  backend : nat -> AiRequest -> AiOutcome
}.

Inductive RegistryCall : Type :=
| RegistryAdd (sessionId : string)
| RegistryRemove (sessionId : string).

Record World : Type := mkWorld {
  stored : option SessionSnapshot;     (* storage key "session" *)
  registryCalls : list RegistryCall;   (* requests sent to the registry *)
  aiCalls : nat;                       (* backend invocations so far *)
  clockReads : nat;                    (* readings of Date.now() so far *)
  sleeps : list Z                      (* delays waited by backoff *)
}.

Record Coordinator : Type := mkCoordinator {
  players : PlayerMap.t;
  messages : list Message;
  combat : CombatState;
  lastActivity : Z;
  sessionId : option string
}.

Record System : Type := mkSystem {
  this : Coordinator;
  world : World
}.

Inductive Request : Type :=
| PostJoin (body : option JoinPayload)      (* None: the body fails the guard *)
| GetState
| PostAction (body : option ActionPayload)
| Other.

Inductive Response : Type :=
| Status400 (error : string)
| Status404
| JoinResponse (players : list Player.t) (messages : list Message)
| StateResponse (players : list Player.t) (messages : list Message)
    (combat : CombatState)
| ActionResponse (result : string) (thinking : option string)
    (degraded : option bool) (reset : bool)
    (statePlayers : list Player.t) (stateCombat : CombatState).

Record DungeonMasterOptions : Type := mkOptions {
  optMaxAttempts : option Z;
  optBackoffMs : option Z
}.

(** A small state monad for the methods that touch the coordinator and
    its collaborators. *)
Definition M (A : Type) : Type := System -> A * System.

Definition ret {A : Type} (a : A) : M A := fun s => (a, s).

Definition bind {A B : Type} (c : M A) (f : A -> M B) : M B :=
  fun s => let (a, s') := c s in f a s'.

Declare Scope monad_scope.
Delimit Scope monad_scope with monad.
Notation "x <- c ;; k" := (bind c (fun x => k))
  (at level 61, c at next level, right associativity) : monad_scope.
Notation "c ;; k" := (bind c (fun _ => k))
  (at level 61, right associativity) : monad_scope.
Local Open Scope monad_scope.

Definition getThis : M Coordinator := fun s => (this s, s).

Definition modify (f : Coordinator -> Coordinator) : M unit :=
  fun s => (tt, mkSystem (f (this s)) (world s)).

Definition orDefault {A : Type} (o : option A) (d : A) : A :=
  match o with
  | Some a => a
  | None => d
  end.

Definition setPlayers (v : PlayerMap.t) (c : Coordinator) : Coordinator :=
  mkCoordinator v (messages c) (combat c) (lastActivity c) (sessionId c).
Definition setMessages (v : list Message) (c : Coordinator) : Coordinator :=
  mkCoordinator (players c) v (combat c) (lastActivity c) (sessionId c).
Definition setCombat (v : CombatState) (c : Coordinator) : Coordinator :=
  mkCoordinator (players c) (messages c) v (lastActivity c) (sessionId c).
Definition setLastActivity (v : Z) (c : Coordinator) : Coordinator :=
  mkCoordinator (players c) (messages c) (combat c) v (sessionId c).
Definition setSessionId (v : option string) (c : Coordinator) : Coordinator :=
  mkCoordinator (players c) (messages c) (combat c) (lastActivity c) v.

Section Session.

Variable env : Env.

(** *** Collaborators *)

Definition Date_now : M Z :=
  fun s =>
    let w := world s in
    (clock env (clockReads w),
     mkSystem (this s)
       (mkWorld (stored w) (registryCalls w) (aiCalls w) (S (clockReads w)) (sleeps w))).

Definition ai_run (request : AiRequest) : M AiOutcome :=
  fun s =>
    let w := world s in
    (backend env (aiCalls w) request,
     mkSystem (this s)
       (mkWorld (stored w) (registryCalls w) (S (aiCalls w)) (clockReads w) (sleeps w))).

Definition setTimeout (delay : Z) : M unit :=
  fun s =>
    let w := world s in
    (tt, mkSystem (this s)
           (mkWorld (stored w) (registryCalls w) (aiCalls w) (clockReads w)
                    (sleeps w ++ [delay]))).

(** StorageManager.saveSession *)
Definition saveSession (data : SessionSnapshot) : M unit :=
  fun s =>
    let w := world s in
    (tt, mkSystem (this s)
           (mkWorld (Some data) (registryCalls w) (aiCalls w) (clockReads w) (sleeps w))).

(** RegistryClient.safeCall: the request is sent and its failure, if
    any, is swallowed. *)
Definition safeCall (call : RegistryCall) : M unit :=
  fun s =>
    let w := world s in
    (tt, mkSystem (this s)
           (mkWorld (stored w) (registryCalls w ++ [call]) (aiCalls w) (clockReads w)
                    (sleeps w))).

Definition registry_add (sessionId : string) : M unit := safeCall (RegistryAdd sessionId).
Definition registry_remove (sessionId : string) : M unit :=
  safeCall (RegistryRemove sessionId).

(** *** DungeonMasterService *)

Record DungeonMasterService : Type := mkService {
  maxAttempts : Z;
  backoffMs : Z
}.

(** The constructor, for options that are whole numbers ([Math.max]
    would hand on NaN, and a fraction as it is). *)
Definition newDungeonMasterService (options : DungeonMasterOptions)
  : DungeonMasterService :=
  mkService (Z.max 1 (orDefault (optMaxAttempts options) 2%Z))
            (Z.max 0 (orDefault (optBackoffMs options) 250%Z)).

Definition isRetryableError (error : JsError) : bool :=
  let message :=
    match error with
    | ErrorObject name message => (name ++ ": " ++ message)%string
    | Thrown s => s
    end in
  RegExp.test (RegExp.literal "timeout|timed out|network|503|504" "i") message.

Definition backoff (dm : DungeonMasterService) (attempt : Z) : M unit :=
  let delay := (backoffMs dm * (attempt + 1))%Z in
  if (delay <=? 0)%Z then ret tt else setTimeout delay.

Definition extractThinking (rawText : string) : string * string :=
  let found := RegExp.exec (RegExp.literal "<thinking>([\s\S]*?)<\/thinking>" "i") rawText in
  let thinking :=
    match found with
    | Some mt => JsString.trim (EffectResolver.groupOf mt 1)
    | None => ""
    end in
  let text :=
    JsString.trim
      (RegExp.remove rawText (RegExp.literal "<thinking>[\s\S]*?<\/thinking>" "gi")) in
  (text, thinking).

Definition fallback : NarrationResult := mkNarration FALLBACK_DM_TEXT "" true.

(** The retry loop of [narrate], entered with [attempt]; [fuel] bounds
    the iterations left ([narrate_fuel]: the loop ends before the bound).
    The log lines of an attempt, and the two clock reads that only time
    it for them, are left out. *)
Fixpoint narrateFrom (dm : DungeonMasterService) (request : AiRequest)
  (fuel : nat) (attempt : Z) : M NarrationResult :=
  match fuel with
  | O => ret fallback
  | S fuel' =>
      if (attempt <? maxAttempts dm)%Z then
        outcome <- ai_run request ;;
        match outcome with
        | Resolved response =>
            let '(text, thinking) :=
              extractThinking (orDefault response "The DM is silent.") in
            ret (mkNarration text thinking false)
        | Rejected error =>
            let retryable := isRetryableError error in
            if negb retryable || (attempt =? maxAttempts dm - 1)%Z
            then ret fallback
            else backoff dm attempt ;; narrateFrom dm request fuel' (attempt + 1)%Z
        end
      else ret fallback
  end.

Definition narrate (dm : DungeonMasterService) (context : SessionContext)
  (player : Player.t) (playerAction : string) : M NarrationResult :=
  narrateFrom dm (mkRequest context player playerAction)
              (Z.to_nat (maxAttempts dm)) 0%Z.

(** *** SessionCoordinator *)

Definition dm : DungeonMasterService := newDungeonMasterService (mkOptions None None).

Definition getPlayers (c : Coordinator) : list Player.t := PlayerMap.values (players c).

(** [messages.slice(-50)] *)
Definition getRecentMessages (c : Coordinator) : list Message :=
  skipn (List.length (messages c) - 50) (messages c).

Definition touch : M unit :=
  now <- Date_now ;; modify (setLastActivity now).

Definition persist : M unit :=
  c <- getThis ;;
  saveSession (mkSnapshot (players c) (messages c) (combat c) (lastActivity c)
                          (sessionId c)).

Definition resetState : M unit :=
  modify (setPlayers PlayerMap.empty) ;;
  modify (setMessages []) ;;
  modify (setCombat defaultCombatState) ;;
  touch.

Definition pushMessage (actor content : string) : M unit :=
  now <- Date_now ;;
  modify (fun c => setMessages (messages c ++ [mkMessage actor content now]) c).

Definition isEndCommand (action : string) : bool :=
  RegExp.test (RegExp.literal "^(end|finish|close|stop)\s*(game|session)?$" "i")
              (JsString.trim action).

Definition startCombat (enemies : list Enemy.t) (turnOrder : list string) : M unit :=
  modify (setCombat (mkCombat true turnOrder (Num 0%Z) enemies)).

(** [(index + 1) % length] *)
Definition advance (index : number) (length : nat) : number :=
  match index, length with
  | Num z, S _ => Num (Z.rem (z + 1) (Z.of_nat length))
  | _, _ => NaN
  end.

Definition nextTurnOf (cb : CombatState) : CombatState :=
  if negb (active cb) then cb
  else mkCombat (active cb) (turnOrder cb)
                (advance (currentTurnIndex cb) (List.length (turnOrder cb)))
                (enemies cb).

Definition nextTurn : M unit := modify (fun c => setCombat (nextTurnOf (combat c)) c).

(** [turnOrder[index]]: undefined out of range or at NaN. *)
Definition at_ (l : list string) (index : number) : option string :=
  match index with
  | Num z => if (z <? 0)%Z then None else nth_error l (Z.to_nat z)
  | NaN => None
  end.

Definition getCurrentTurn (c : Coordinator) : option string :=
  if negb (active (combat c)) || Nat.eqb (List.length (turnOrder (combat c))) 0
  then None
  else
    match at_ (turnOrder (combat c)) (currentTurnIndex (combat c)) with
    | Some who => if JsString.isEmpty who then None else Some who
    | None => None
    end.

Definition isPlayerTurn (c : Coordinator) (playerId : string) : bool :=
  match PlayerMap.get (players c) playerId with
  | None => false
  | Some player =>
      match getCurrentTurn c with
      | Some who => String.eqb who (Player.name player)
      | None => false
      end
  end.

Definition starterInventory : list string :=
  ["basic sword"; "leather armor"; "health potion"].

(** [existing.name = name] for the player stored under [playerId]. *)
Definition rename (playerId name : string) (m : PlayerMap.t) : PlayerMap.t :=
  match findIndex (fun kv => String.eqb (fst kv) playerId) m with
  | Some i => PlayerMap.assign i (Player.setName name) m
  | None => m
  end.

Definition handleJoin (body : option JoinPayload) : M Response :=
  match body with
  | None => ret (Status400 "Invalid join payload")
  | Some payload =>
      let sessionId' := joinSessionId payload in
      let playerId := joinPlayerId payload in
      let name := joinName payload in
      modify (fun c => setSessionId (Some (orDefault (sessionId c) sessionId')) c) ;;
      c <- getThis ;;
      let wasEmpty := Nat.eqb (PlayerMap.size (players c)) 0 in
      match PlayerMap.get (players c) playerId with
      | None =>
          modify (fun c =>
            setPlayers (PlayerMap.set (players c) playerId
                          (Player.mk playerId name 20%Z starterInventory)) c) ;;
          pushMessage "DM" (name ++ " enters the campaign with basic equipment.")%string
      | Some existing =>
          if negb (String.eqb (Player.name existing) name) then
            pushMessage "DM"
              (Player.name existing ++ " is now known as " ++ name ++ ".")%string ;;
            modify (fun c => setPlayers (rename playerId name (players c)) c)
          else ret tt
      end ;;
      touch ;;
      persist ;;
      (if wasEmpty then registry_add sessionId' else ret tt) ;;
      c <- getThis ;;
      ret (JoinResponse (getPlayers c) (getRecentMessages c))
  end.

Definition handleState : M Response :=
  touch ;;
  persist ;;
  c <- getThis ;;
  ret (StateResponse (getPlayers c) (getRecentMessages c) (combat c)).

(** [this.effects.apply(dmText, this.players, this.combat)]: the resolver
    mutates the coordinator's own map and combat state. *)
Definition resolveEffects (dmText : string) : M unit :=
  modify (fun c =>
    let '(players', combat') :=
      EffectResolver.apply dmText (players c) (combat c) in
    setCombat combat' (setPlayers players' c)).

(** The part of [handleAction] that follows the narration call. *)
Definition settleAction (player : Player.t) (playerAction : string)
  (narration : NarrationResult) : M Response :=
  (if negb (degraded narration) then
     resolveEffects (text narration) ;;
     c <- getThis ;;
     if active (combat c) && isPlayerTurn c (Player.id player)
     then nextTurn else ret tt
   else ret tt) ;;
  pushMessage (Player.name player) playerAction ;;
  pushMessage "DM" (text narration) ;;
  touch ;;
  persist ;;
  c <- getThis ;;
  ret (ActionResponse (text narration) (Some (thinking narration))
         (Some (degraded narration)) false (getPlayers c) (combat c)).

Definition handleAction (body : option ActionPayload) : M Response :=
  match body with
  | None => ret (Status400 "Invalid action payload")
  | Some payload =>
      let sessionId' := actSessionId payload in
      let playerId := actPlayerId payload in
      let playerAction := playerAction payload in
      modify (fun c => setSessionId (Some (orDefault (sessionId c) sessionId')) c) ;;
      c <- getThis ;;
      match PlayerMap.get (players c) playerId with
      | None => ret (Status400 "Player not joined.")
      | Some player =>
          if isEndCommand playerAction then
            let dmText := "The game has ended. Thank you for playing!" in
            pushMessage (Player.name player) playerAction ;;
            pushMessage "DM" dmText ;;
            registry_remove sessionId' ;;
            resetState ;;
            persist ;;
            c <- getThis ;;
            ret (ActionResponse dmText None None true [] (combat c))
          else
            let context :=
              mkContext (getPlayers c) (getRecentMessages c) (combat c) in
            narration <- narrate dm context player playerAction ;;
            settleAction player playerAction narration
      end
  end.

Definition cleanupIfIdle : M unit :=
  c <- getThis ;;
  match sessionId c with
  | None => ret tt
  | Some sid =>
      if JsString.isEmpty sid then ret tt
      else if Nat.eqb (PlayerMap.size (players c)) 0 then ret tt
      else
        now <- Date_now ;;
        let idle := (now - lastActivity c)%Z in
        if (idle <? SESSION_IDLE_TIMEOUT_MS)%Z then ret tt
        else registry_remove sid ;; resetState ;; persist
  end.

Definition fetch (request : Request) : M Response :=
  cleanupIfIdle ;;
  match request with
  | PostJoin body => handleJoin body
  | GetState => handleState
  | PostAction body => handleAction body
  | Other => ret Status404
  end.

End Session.

(** A coordinator that has never stored a snapshot. *)
Definition freshCoordinator (startedAt : Z) : Coordinator :=
  mkCoordinator PlayerMap.empty [] defaultCombatState startedAt None.

Definition freshWorld : World := mkWorld None [] 0 0 [].

(** The constructor: the latest snapshot, if any, is replayed. *)
Definition hydrate (startedAt : Z) (w : World) : System :=
  match stored w with
  | Some snap =>
      mkSystem (mkCoordinator (snapPlayers snap) (snapMessages snap) (snapCombat snap)
                              (snapLastActivity snap) (snapSessionId snap)) w
  | None => mkSystem (freshCoordinator startedAt) w
  end.

(* ================================================================== *)
(** ** Predicates used in the statements *)
(* ================================================================== *)

(** Every code unit, for checks by enumeration. *)
Definition allChars : list ascii := map ascii_of_nat (seq 0 256).

Definition isDigits (l : list ascii) : bool := forallb JsString.isDigit l.

Module Captures.
Import RegExp.

(** A single-character node accepts nothing but decimal digits. *)
Definition leafDigits (accepts : ascii -> bool) : bool :=
  forallb (fun a => implb (accepts a) (JsString.isDigit a)) allChars.

(** Whatever [r] consumes is made of decimal digits. *)
Fixpoint digitsOnly (ic : bool) (r : Node) : bool :=
  match r with
  | Empty | AssertStart | AssertEnd | WordBoundary _ => true
  | Char ch =>
      leafDigits (fun a => Ascii.eqb (canonicalize ic ch) (canonicalize ic a))
  | Dot => leafDigits (fun a => negb (isLineTerminator a))
  | CharClass inv atoms =>
      leafDigits (fun a => xorb inv (existsb (fun at_ => atomMatches ic at_ a) atoms))
  | Seq a b | Disj a b => digitsOnly ic a && digitsOnly ic b
  | Group _ body => digitsOnly ic body
  | Quant body _ _ _ => digitsOnly ic body
  end.

(** Every capturing group numbered [g] in [r] consumes digits only. *)
Fixpoint digitGroup (ic : bool) (g : nat) (r : Node) : bool :=
  match r with
  | Seq a b | Disj a b => digitGroup ic g a && digitGroup ic g b
  | Group i body =>
      (if Nat.eqb i g then digitsOnly ic body else true) && digitGroup ic g body
  | Quant body _ _ _ => digitGroup ic g body
  | _ => true
  end.

Definition okCaps (g : nat) (caps : list (nat * string)) : Prop :=
  forall v, In (g, v) caps -> isDigits (JsString.chars v) = true.

(** [y] is reached from [x] by consuming [consumed]. *)
Definition advances (x y : MatchState) (consumed : list ascii) : Prop :=
  rest x = (consumed ++ rest y)%list /\
  endIndex y = endIndex x + List.length consumed.

(** What a matcher guarantees about the state it hands on. *)
Definition matcherOk (g : nat) (digitsBody : bool) (mb : Matcher) : Prop :=
  forall x c z,
    okCaps g (captures x) ->
    mb x c = Some z ->
    exists y consumed,
      c y = Some z /\ okCaps g (captures y) /\ advances x y consumed /\
      (digitsBody = true -> isDigits consumed = true).

(** [y] lies ahead of [x] in the same input. *)
Definition ahead (x y : MatchState) : Prop := exists consumed, advances x y consumed.

(** A matcher looks at its continuation only on states ahead. *)
Definition local (mb : Matcher) : Prop :=
  forall x c1 c2, (forall y, ahead x y -> c1 y = c2 y) -> mb x c1 = mb x c2.
End Captures.

(** The regular-expression literals of the source. *)
Definition parses (re : RegExp.t) : bool :=
  match RegExp.parse (RegExp.source re) with
  | Some _ => true
  | None => false
  end.

Definition literals : list RegExp.t :=
  (EffectResolver.combatTriggers ++ EffectResolver.enemyPatterns
   ++ EffectResolver.enemyDamagePatterns ++ EffectResolver.playerDamagePatterns
   ++ EffectResolver.healingPatterns ++ EffectResolver.gainItemPatterns
   ++ EffectResolver.loseItemPatterns
   ++ [EffectResolver.notAnItem; EffectResolver.nonItemChars;
       RegExp.literal "^(a|an|the)\s+" "i";
       RegExp.literal "^(the|a|an)\s+" "";
       RegExp.literal "timeout|timed out|network|503|504" "i";
       RegExp.literal "<thinking>([\s\S]*?)<\/thinking>" "i";
       RegExp.literal "<thinking>[\s\S]*?<\/thinking>" "gi";
       RegExp.literal "^(end|finish|close|stop)\s*(game|session)?$" "i"])%list.

(** Health bounds. *)
Definition playerHealthy (p : Player.t) : Prop := (0 <= Player.hp p <= 20)%Z.
Definition playersHealthy (m : PlayerMap.t) : Prop :=
  Forall (fun kv => playerHealthy (snd kv)) m.

(** The combat-state invariant of the data model. *)
Definition combatInvariant (cb : CombatState) : Prop :=
  active cb = false ->
  turnOrder cb = [] /\ enemies cb = [] /\ currentTurnIndex cb = Num 0.

(** While combat is active the turn index points into the turn order. *)
Definition turnInRange (cb : CombatState) : Prop :=
  active cb = true ->
  turnOrder cb <> [] /\
  exists z, currentTurnIndex cb = Num z /\ (0 <= z < Z.of_nat (List.length (turnOrder cb)))%Z.

(** [I] holds of the combat state in memory and [J] of the one in the
    stored snapshot, if any. *)
Definition holds (I J : CombatState -> Prop) (s : System) : Prop :=
  I (combat (this s)) /\
  forall snap, stored (world s) = Some snap -> J (snapCombat snap).

(** The operations of a coordinator, as units of state change. *)
Inductive Operation : Type :=
| OpFetch (request : Request)
| OpJoin (body : option JoinPayload)
| OpAct (body : option ActionPayload)
| OpQuery
| OpEffects (dmText : string)
| OpStartCombat (enemies : list Enemy.t) (turnOrder : list string)
| OpCombatEnd
| OpNextTurn
| OpReset
| OpCleanup.

Definition onCombat (f : CombatState -> CombatState) : M unit :=
  modify (fun c => setCombat (f (combat c)) c).

Definition run (env : Env) (op : Operation) (s : System) : System :=
  match op with
  | OpFetch request => snd (fetch env request s)
  | OpJoin body => snd (handleJoin env body s)
  | OpAct body => snd (handleAction env body s)
  | OpQuery => snd (handleState env s)
  | OpEffects dmText => snd (resolveEffects dmText s)
  | OpStartCombat enemies turnOrder => snd (startCombat enemies turnOrder s)
  | OpCombatEnd => snd (onCombat EffectResolver.checkCombatEnd s)
  | OpNextTurn => snd (nextTurn s)
  | OpReset => snd (resetState env s)
  | OpCleanup => snd (cleanupIfIdle env s)
  end.

(** The states a coordinator goes through: it starts empty, serves join,
    act and query requests, and may be restarted from its last snapshot. *)
Inductive reachable (env : Env) : System -> Prop :=
| reach_start : forall startedAt, reachable env (hydrate startedAt freshWorld)
| reach_fetch : forall s request,
    reachable env s -> reachable env (snd (fetch env request s))
| reach_restart : forall s startedAt,
    reachable env s -> reachable env (hydrate startedAt (world s)).


(** An enemy after damage: the same name, health no higher than before
    (and never raised above zero). *)
Definition worn (e e' : Enemy.t) : Prop :=
  Enemy.name e' = Enemy.name e /\ (Enemy.hp e' <= Z.max 0 (Enemy.hp e))%Z.


(** The degraded flag of an action response. *)
Definition isDegraded (r : Response) : bool :=
  match r with
  | ActionResponse _ _ (Some true) _ _ _ => true
  | _ => false
  end.



(* ================================================================== *)
(** ** Scenarios *)
(* ================================================================== *)

(** Concrete sessions, narrations and backends on which the statements
    below are exercised. *)
Module Scenario.
Definition thiaText : string :=
  "Thia takes 5 damage. The hero deals 7 damage to Goblin.".

Definition thia (id : string) (inventory : list string) : Player.t :=
  Player.mk id "Thia" 20 inventory.

Definition goblinFight (order : list string) (index : number) : CombatState :=
  mkCombat true order index [Enemy.mk "Goblin" 12].

Definition clockBy (ms : Z) : nat -> Z := fun n => (Z.of_nat n * ms)%Z.

Definition party : PlayerMap.t := [("p1", thia "p1" ["health potion"])].

Definition orcFight : CombatState :=
  mkCombat true ["Thia"; "Orc"] (Num 0) [Enemy.mk "Orc" 15].

Definition envOffline : Env :=
  mkEnv (clockBy 1000) (fun _ _ => Rejected (ErrorObject "Error" "offline")).

Definition envTimeout : Env :=
  mkEnv (clockBy 1000)
        (fun _ _ => Rejected (ErrorObject "InferenceUpstreamError" "504 Gateway Time-out")).

Definition envGoblin : Env :=
  mkEnv (clockBy 1000) (fun _ _ => Resolved (Some "A goblin attacks!")).

(** A session in the middle of a fight. *)
Definition midFight : System :=
  mkSystem (mkCoordinator party [] orcFight 0 (Some "s1")) freshWorld.

Definition cannedDamage : NarrationResult :=
  mkNarration "Thia takes 5 damage. The knight deals 9 damage to the orc." "" true.

Definition attack : ActionPayload := mkAction "s1" "p1" "I attack the orc".
Definition endGame : ActionPayload := mkAction "s1" "p1" "  End Game ".
Definition stranger : ActionPayload := mkAction "s1" "p9" "I attack the orc".

Definition ambush : string := "A Goblin (9 HP) appears! Roll initiative.".
Definition shortFight : string :=
  "A goblin attacks! Thia deals 7 damage to the goblin.".
Definition fallen : CombatState :=
  mkCombat true ["Thia"; "Orc"] (Num 1) [Enemy.mk "Orc" 0].

(** A session with one player and no fight yet. *)
Definition lobby : System :=
  mkSystem (mkCoordinator party [] defaultCombatState 0 (Some "s1")) freshWorld.

Definition look : ActionPayload := mkAction "s1" "p1" "I look around".

(** A player who joined under an empty name, then acted. *)
Definition nameless : System :=
  snd (fetch envGoblin (PostAction (Some look))
         (snd (fetch envGoblin (PostJoin (Some (mkJoin "s1" "p1" "")))
                 (hydrate 0 freshWorld)))).
End Scenario.

(* ================================================================== *)
(** ** Narration: the retry loop *)
(* ================================================================== *)

(** The delay [backoff] waits after the failed attempt number [attempt]
    (counted from 0), if any. *)
Definition delayAfter (svc : DungeonMasterService) (attempt : nat) : list Z :=
  let delay := (backoffMs svc * (Z.of_nat attempt + 1))%Z in
  if (delay <=? 0)%Z then [] else [delay].

(** The delays waited when the attempts [from], ..., [from + count - 1]
    have failed and been retried. *)
Definition delaysFrom (svc : DungeonMasterService) (from count : nat) : list Z :=
  flat_map (delayAfter svc) (seq from count).

(** The backend rejects the calls number [from], ..., [from + count - 1]
    of [request] with retryable errors. *)
Definition transientFailures (env : Env) (request : AiRequest) (from count : nat) : Prop :=
  forall i, i < count ->
    exists error,
      backend env (from + i) request = Rejected error /\ isRetryableError error = true.

(** What [narrate] makes of a backend response. *)
Definition narrationOf (response : option string) : NarrationResult :=
  mkNarration (fst (extractThinking (orDefault response "The DM is silent.")))
              (snd (extractThinking (orDefault response "The DM is silent.")))
              false.

(* ================================================================== *)
(** ** What a pattern cannot match without *)
(* ================================================================== *)

Module Consumes.
Import RegExp.

(** A single-character node accepts nothing but characters satisfying
    [P]. *)
Definition leafOnly (P accepts : ascii -> bool) : bool :=
  forallb (fun a => implb (accepts a) (P a)) allChars.

(** Every match of [r] consumes at least one character satisfying [P]. *)
Fixpoint needs (ic : bool) (P : ascii -> bool) (r : Node) : bool :=
  match r with
  | Char ch => leafOnly P (fun a => Ascii.eqb (canonicalize ic ch) (canonicalize ic a))
  | Dot => leafOnly P (fun a => negb (isLineTerminator a))
  | CharClass inv atoms =>
      leafOnly P (fun a => xorb inv (existsb (fun at_ => atomMatches ic at_ a) atoms))
  | Seq a b => needs ic P a || needs ic P b
  | Disj a b => needs ic P a && needs ic P b
  | Group _ body => needs ic P body
  | Quant body min max _ =>
      negb (Nat.eqb min 0)
      && match max with
         | Some k => Nat.leb min k
         | None => true
         end
      && needs ic P body
  | Empty | AssertStart | AssertEnd | WordBoundary _ => false
  end.

(** What a matcher guarantees about the characters it consumes. *)
Definition matcherNeeds (P : ascii -> bool) (b : bool) (mb : Matcher) : Prop :=
  forall x c z,
    mb x c = Some z ->
    exists y consumed,
      c y = Some z /\ Captures.advances x y consumed /\
      (b = true -> existsb P consumed = true).

(** The pattern cannot match without a character satisfying [P]. *)
Definition requires (P : ascii -> bool) (re : RegExp.t) : bool :=
  needs (ignoreCase re) P (node re).
End Consumes.

(** No character of [text] satisfies [P]. *)
Definition without (P : ascii -> bool) (text : string) : bool :=
  forallb (fun a => negb (P a)) (JsString.chars text).

Definition isLetter (c : ascii) : bool :=
  let n := JsString.code c in (JsString.between 97 122 n || JsString.between 65 90 n)%N.

Definition isMarkup (c : ascii) : bool := Ascii.eqb c "<".

(* ================================================================== *)
(** ** Players and enemies across effect resolution *)
(* ================================================================== *)

(** Two entries of a player map for the same player: same key, id and
    name. *)
Definition samePlayer (kv kv' : string * Player.t) : Prop :=
  fst kv' = fst kv /\
  Player.id (snd kv') = Player.id (snd kv) /\
  Player.name (snd kv') = Player.name (snd kv).

(** A player after damage: health no higher than before (and never
    raised above zero), the rest untouched. *)
Definition hurt (kv kv' : string * Player.t) : Prop :=
  samePlayer kv kv' /\
  Player.inventory (snd kv') = Player.inventory (snd kv) /\
  (Player.hp (snd kv') <= Z.max 0 (Player.hp (snd kv)))%Z.

(** A player after healing: health no lower than before (and never
    lowered below the cap), the rest untouched. *)
Definition healed (kv kv' : string * Player.t) : Prop :=
  samePlayer kv kv' /\
  Player.inventory (snd kv') = Player.inventory (snd kv) /\
  (Z.min EffectResolver.maxHp (Player.hp (snd kv)) <= Player.hp (snd kv'))%Z.

(** A player after inventory changes: same health. *)
Definition reequipped (kv kv' : string * Player.t) : Prop :=
  samePlayer kv kv' /\ Player.hp (snd kv') = Player.hp (snd kv).

(** No inventory lists an item twice. *)
Definition tidy (m : PlayerMap.t) : Prop :=
  Forall (fun kv => NoDup (Player.inventory (snd kv))) m.

Definition healthOf (m : PlayerMap.t) : list Z := map (fun kv => Player.hp (snd kv)) m.

(** The key under which the detection loop remembers an enemy. *)
Definition enemyKey (e : Enemy.t) : string := JsString.toLowerCase (Enemy.name e).
(** The invariant of the detection loop. *)
Definition scanned (acc : list Enemy.t * list string) : Prop :=
  snd acc = map enemyKey (fst acc) /\
  NoDup (snd acc) /\
  Forall (fun e => 1 < String.length (Enemy.name e)) (fst acc).

(** While a fight is on, some enemy is alive and the turn order ends
    with the names of the enemies. *)
Definition engaged (cb : CombatState) : Prop :=
  active cb = true ->
  filter EffectResolver.alive (enemies cb) <> [] /\
  exists names, turnOrder cb = (names ++ map Enemy.name (enemies cb))%list.

(* ================================================================== *)
(** ** Snapshots and answers *)
(* ================================================================== *)

(** The snapshot [persist] writes for a coordinator. *)
Definition snapshotOf (c : Coordinator) : SessionSnapshot :=
  mkSnapshot (players c) (messages c) (combat c) (lastActivity c) (sessionId c).

(** The request was served by a handler that ran to its end. *)
Definition answered (r : Response) : bool :=
  match r with
  | JoinResponse _ _ | StateResponse _ _ _ | ActionResponse _ _ _ _ _ _ => true
  | Status400 _ | Status404 => false
  end.

(* ================================================================== *)
(** ** Request bodies, the Worker and the session registry *)
(* ================================================================== *)

(** A parsed JSON value, as [request.json()] yields it. *)
#[warnings="-register-all"]
Inductive Json : Type :=
| JNull
| JBool (b : bool)
| JNumber (z : Z)
| JString (s : string)
| JArray (items : list Json)
| JObject (fields : list (string * Json)).

(** An HTTP request as the Worker and the Durable Objects look at it:
    the path and the query of its URL, its method and its body run
    through [request.json()] ([None]: the body is not JSON, and the call
    throws). *)
Record HttpRequest : Type := mkHttp {
  pathname : string;
  method : string;
  query : list (string * string);
  json : option Json
}.

(** [s.endsWith(suffix)] *)
Definition endsWith (s suffix : string) : bool :=
  JsString.isPrefix (rev (JsString.chars suffix)) (rev (JsString.chars s)).

(** *** api-validation.ts *)
Module ApiValidation.

(** The own property [k] of an object read by [JSON.parse], which keeps
    the last of repeated keys. *)
Fixpoint property (fields : list (string * Json)) (k : string) : option Json :=
  match fields with
  | [] => None
  | (k', v) :: rest =>
      match property rest k with
      | Some w => Some w
      | None => if String.eqb k' k then Some v else None
      end
  end.

(** [body.k] for a body that passed [typeof body === "object"]; an array
    has no such property. *)
Definition get (body : Json) (k : string) : option Json :=
  match body with
  | JObject fields => property fields k
  | _ => None
  end.

(** [typeof body === "object" && body !== null] *)
Definition isObject (body : Json) : bool :=
  match body with
  | JObject _ | JArray _ => true
  | _ => false
  end.

(** [typeof v === "string"] *)
Definition isString (v : option Json) : bool :=
  match v with
  | Some (JString _) => true
  | _ => false
  end.

Definition isActionPayload (body : Json) : bool :=
  isObject body
  && isString (get body "sessionId")
  && isString (get body "playerId")
  && isString (get body "playerAction").

Definition isJoinPayload (body : Json) : bool :=
  isObject body
  && isString (get body "sessionId")
  && isString (get body "playerId")
  && isString (get body "name").

End ApiValidation.

(** The string held by a property that passed the guard. *)
Definition stringOf (v : option Json) : string :=
  match v with
  | Some (JString s) => s
  | _ => ""
  end.

(** [const { sessionId, playerId, name } = payload] *)
Definition joinPayloadOf (body : Json) : JoinPayload :=
  mkJoin (stringOf (ApiValidation.get body "sessionId"))
         (stringOf (ApiValidation.get body "playerId"))
         (stringOf (ApiValidation.get body "name")).

Definition actionPayloadOf (body : Json) : ActionPayload :=
  mkAction (stringOf (ApiValidation.get body "sessionId"))
           (stringOf (ApiValidation.get body "playerId"))
           (stringOf (ApiValidation.get body "playerAction")).

(** [JSON.stringify({ sessionId, playerId, name })], read back. *)
Definition encodeJoin (p : JoinPayload) : Json :=
  JObject [("sessionId", JString (joinSessionId p));
           ("playerId", JString (joinPlayerId p));
           ("name", JString (joinName p))].

Definition encodeAction (p : ActionPayload) : Json :=
  JObject [("sessionId", JString (actSessionId p));
           ("playerId", JString (actPlayerId p));
           ("playerAction", JString (playerAction p))].

(** SessionCoordinator.parseBody *)
Definition parseBody (request : HttpRequest) (guard : Json -> bool) : option Json :=
  match json request with
  | Some body => if guard body then Some body else None
  | None => None
  end.

(** The routing of SessionCoordinator.fetch, with the body parsed by the
    handler the request is routed to. *)
Definition requestOf (request : HttpRequest) : Request :=
  if endsWith (pathname request) "/join" && String.eqb (method request) "POST"
  then PostJoin (option_map joinPayloadOf (parseBody request ApiValidation.isJoinPayload))
  else if endsWith (pathname request) "/state" then GetState
  else if endsWith (pathname request) "/action" && String.eqb (method request) "POST"
  then PostAction
         (option_map actionPayloadOf (parseBody request ApiValidation.isActionPayload))
  else Other.

(** *** The Worker (index.ts) *)
Module Worker.

(** A response of the Worker: one it builds itself, or the response of a
    binding, passed on as it is. *)
Inductive Response (R : Type) : Type :=
| Own (status : Z) (body : string) (allow : option string)
| Relayed (response : R).

Arguments Own {R} status body allow.
Arguments Relayed {R} response.

(** [stub.fetch(input, init)]: the response, or [None] when the call
    throws.  What a binding answers is opaque to the Worker. *)
Definition Stub (R : Type) : Type := HttpRequest -> option R.

(** The bindings the Worker uses: the two Durable Object namespaces, a
    stub for every name ([get(idFromName(name))], which makes no call),
    and the static assets. *)
Record Env (R : Type) : Type := mkEnv {
  SESSION_COORDINATOR : string -> Stub R;
  SESSION_REGISTRY : string -> Stub R;
  ASSETS : Stub R
}.

Definition METHOD_NOT_ALLOWED {R : Type} (methods : list string) : Response R :=
  Own 405 "Method Not Allowed" (Some (JsString.join ", " methods)).

Definition BAD_REQUEST {R : Type} (message : string) : Response R :=
  Own 400 message None.

Definition serviceUnavailable {R : Type} : Response R :=
  Own 502 "Session service unavailable" None.

(** [url.searchParams.get(k)] *)
Fixpoint searchParam (query : list (string * string)) (k : string) : option string :=
  match query with
  | [] => None
  | (k', v) :: rest => if String.eqb k' k then Some v else searchParam rest k
  end.

Definition readJson {R : Type} (request : HttpRequest) (guard : Json -> bool)
  : Json + Response R :=
  match json request with
  | Some body =>
      if guard body then inl body else inr (BAD_REQUEST "Invalid request payload")
  | None => inr (BAD_REQUEST "Invalid JSON body")
  end.

Definition getCoordinator {R : Type} (env : Env R) (sessionId : string) : Stub R :=
  SESSION_COORDINATOR env sessionId.

Definition getRegistry {R : Type} (env : Env R) : Stub R :=
  SESSION_REGISTRY env "global".

(** A request to [http://internal/<path>]. *)
Definition internal (path method : string) (body : option Json) : HttpRequest :=
  mkHttp ("/" ++ path) method [] body.

(** The call to a Durable Object, a failure turned into a 502. *)
Definition safeFetch {R : Type} (stub : Stub R) (input : HttpRequest) : Response R :=
  match stub input with
  | Some response => Relayed response
  | None => serviceUnavailable
  end.

(** The handler: its response, or [None] when it throws (the call to the
    static assets is the one that is not wrapped). *)
Definition fetch {R : Type} (env : Env R) (request : HttpRequest)
  : option (Response R) :=
  if String.eqb (pathname request) "/api/session/state" then
    if negb (String.eqb (method request) "GET") then Some (METHOD_NOT_ALLOWED ["GET"])
    else
      match searchParam (query request) "sessionId" with
      | None => Some (Own 400 "Missing sessionId" None)
      | Some sessionId =>
          if JsString.isEmpty sessionId then Some (Own 400 "Missing sessionId" None)
          else
            let session := getCoordinator env sessionId in
            Some (safeFetch session (internal "state" "GET" None))
      end
  else if String.eqb (pathname request) "/api/session/action" then
    if negb (String.eqb (method request) "POST") then Some (METHOD_NOT_ALLOWED ["POST"])
    else
      match readJson request ApiValidation.isActionPayload with
      | inr error => Some error
      | inl body =>
          let p := actionPayloadOf body in
          let session := getCoordinator env (actSessionId p) in
          Some (safeFetch session (internal "action" "POST" (Some (encodeAction p))))
      end
  else if String.eqb (pathname request) "/api/session/join" then
    if negb (String.eqb (method request) "POST") then Some (METHOD_NOT_ALLOWED ["POST"])
    else
      match readJson request ApiValidation.isJoinPayload with
      | inr error => Some error
      | inl body =>
          let p := joinPayloadOf body in
          let session := getCoordinator env (joinSessionId p) in
          Some (safeFetch session (internal "join" "POST" (Some (encodeJoin p))))
      end
  else if String.eqb (pathname request) "/api/sessions" then
    if negb (String.eqb (method request) "GET") then Some (METHOD_NOT_ALLOWED ["GET"])
    else
      let registry := getRegistry env in
      Some (safeFetch registry (internal "list" "GET" None))
  else if String.eqb (pathname request) "/api/sessions/clear" then
    if negb (String.eqb (method request) "POST") then Some (METHOD_NOT_ALLOWED ["POST"])
    else
      let registry := getRegistry env in
      Some (safeFetch registry (internal "clear" "POST" None))
  else option_map Relayed (ASSETS env request).

End Worker.

(** *** SessionRegistry and StorageManager *)
Module SessionRegistry.

(** A [Set<string>], in insertion order. *)
Definition has (sessions : list string) (sessionId : string) : bool :=
  existsb (String.eqb sessionId) sessions.

Definition add (sessions : list string) (sessionId : string) : list string :=
  if has sessions sessionId then sessions else (sessions ++ [sessionId])%list.

Definition delete (sessions : list string) (sessionId : string) : list string :=
  filter (fun known => negb (String.eqb known sessionId)) sessions.

(** [new Set(array)] *)
Definition fromArray (array : list string) : list string := fold_left add array [].

(** The registry object: its set and its storage key "sessions". *)
Record t : Type := mk {
  sessions : list string;
  storage : option (list string)
}.

(** StorageManager.loadSessions *)
Definition loadSessions (storage : option (list string)) : list string :=
  match storage with
  | Some array => fromArray array
  | None => []
  end.

(** The constructor. *)
Definition start (storage : option (list string)) : t :=
  mk (loadSessions storage) storage.

(** StorageManager.saveSessions, through [persist]. *)
Definition persist (sessions : list string) : t := mk sessions (Some sessions).

Inductive Reply : Type :=
| Listing (sessions : list string)
| Ok
| NotFound.

(** [const { sessionId } = await request.json()].  [None]: the call
    throws, or the body holds no string under [sessionId]; the source
    declares the value a string and would put whatever it finds in the
    set, which is outside the model. *)
Definition sessionIdOf (request : HttpRequest) : option string :=
  match json request with
  | Some body =>
      match ApiValidation.get body "sessionId" with
      | Some (JString sessionId) => Some sessionId
      | _ => None
      end
  | None => None
  end.

(** SessionRegistry.fetch; [None] when the body of an add or remove
    request cannot be read as above. *)
Definition fetch (request : HttpRequest) (registry : t) : option (Reply * t) :=
  if endsWith (pathname request) "/list" then
    Some (Listing (sessions registry), registry)
  else if endsWith (pathname request) "/add" && String.eqb (method request) "POST" then
    match sessionIdOf request with
    | Some sessionId => Some (Ok, persist (add (sessions registry) sessionId))
    | None => None
    end
  else if endsWith (pathname request) "/remove" && String.eqb (method request) "POST" then
    match sessionIdOf request with
    | Some sessionId => Some (Ok, persist (delete (sessions registry) sessionId))
    | None => None
    end
  else if endsWith (pathname request) "/clear" && String.eqb (method request) "POST" then
    Some (Ok, persist [])
  else Some (NotFound, registry).

End SessionRegistry.

(** RegistryClient.safeCall: the request a registry call is sent as. *)
Definition registryRequest (call : RegistryCall) : HttpRequest :=
  match call with
  | RegistryAdd sessionId =>
      Worker.internal "add" "POST" (Some (JObject [("sessionId", JString sessionId)]))
  | RegistryRemove sessionId =>
      Worker.internal "remove" "POST" (Some (JObject [("sessionId", JString sessionId)]))
  end.

(** The registry after the calls of a coordinator have reached it. *)
Definition deliver (calls : list RegistryCall) (registry : SessionRegistry.t)
  : SessionRegistry.t :=
  fold_left
    (fun g call =>
       match SessionRegistry.fetch (registryRequest call) g with
       | Some (_, g') => g'
       | None => g
       end)
    calls registry.

(* ================================================================== *)
(** ** Further scenarios *)
(* ================================================================== *)

(** Further sessions, narrations and backends. *)
Module Cases.

(** A backend that times out twice, then answers. *)
Definition envFlaky : Env :=
  mkEnv (Scenario.clockBy 1000)
        (fun n _ =>
           if Nat.ltb n 2
           then Rejected (ErrorObject "InferenceUpstreamError" "504 Gateway Time-out")
           else Resolved (Some "<thinking>d20: 17</thinking>The door gives way.")).

Definition patient : DungeonMasterService :=
  newDungeonMasterService (mkOptions (Some 3%Z) (Some 100%Z)).

Definition idleContext : SessionContext := mkContext [] [] defaultCombatState.

(** A clock that starts half an hour after the epoch. *)
Definition envLater : Env :=
  mkEnv (fun n => (SESSION_IDLE_TIMEOUT_MS + Z.of_nat n)%Z)
        (fun _ _ => Resolved (Some "A goblin attacks!")).

Definition found : string := "Thia finds a rusty key. Thia drinks the health potion.".
Definition vague : string := "Thia takes heavy damage and heals a little!".
Definition ciphers : string := "12 + 3 = 15 ... (7 !)".
Definition plain : string := "  The door creaks open.  ".

Definition renamed : JoinPayload := mkJoin "s1" "p1" "Thia the Bold".
Definition newcomer : JoinPayload := mkJoin "s2" "p2" "Bram".

Definition lobbyList : SessionRegistry.t := SessionRegistry.start (Some ["s0"; "s0"; "s9"]).

(** Bindings whose coordinators are offline, as in the repository's test
    of the 502. *)
Definition offline : Worker.Env string :=
  Worker.mkEnv (fun _ _ => None)
               (fun _ _ => Some "{}")
               (fun _ => Some "D&D AI").
End Cases.

(* ================================================================== *)
(** ** The resolver on run-time values *)
(* ================================================================== *)

(** The values the health of an enemy runs through.  A health read from
    the text or computed from it is a JavaScript number, a double: an
    integer that a double holds, an infinity or NaN.  A default health
    is read from an object literal, and what an object does not hold
    itself it inherits from [Object.prototype]. *)
Module Js.

Inductive number : Type :=
| Finite (z : Z)
| Infinity
| MinusInfinity
| NotANumber.

(** A non-negative integer rounded to 53 significant bits: to the
    nearest such integer, and to the even one of two nearest. *)
Definition nearest (m : Z) : Z :=
  let excess := (Z.log2 m + 1 - 53)%Z in
  if (excess <=? 0)%Z then m
  else
    let q := Z.shiftr m excess in
    let r := Z.land m (Z.ones excess) in
    let half := Z.shiftl 1 (excess - 1) in
    let up := ((half <? r) || ((r =? half) && Z.odd q))%Z in
    Z.shiftl (if up then q + 1 else q)%Z excess.

(** The double for a mathematical integer: the nearest one, an infinity
    from 2^1024 on. *)
Definition ofInteger (z : Z) : number :=
  let v := nearest (Z.abs z) in
  if (2 ^ 1024 <=? v)%Z then (if (z <? 0)%Z then MinusInfinity else Infinity)
  else Finite (Z.sgn z * v).

(** [parseInt(s, 10)] as a number: the double for the integer that
    [JsString.parseInt] reads, NaN where it reads none.  (Past the 20th
    significant digit the language lets an implementation approximate;
    the nearest double is taken here.) *)
Definition parseInt (s : string) : number :=
  match JsString.parseInt s with
  | Some z => ofInteger z
  | None => NotANumber
  end.

Definition isNaN (n : number) : bool :=
  match n with
  | NotANumber => true
  | _ => false
  end.

(** [Number.isFinite(n)] *)
Definition isFinite (n : number) : bool :=
  match n with
  | Finite _ => true
  | _ => false
  end.

(** [n > 0] *)
Definition positive (n : number) : bool :=
  match n with
  | Finite z => (0 <? z)%Z
  | Infinity => true
  | MinusInfinity | NotANumber => false
  end.

(** [a - b]: the exact difference, rounded. *)
Definition sub (a b : number) : number :=
  match a, b with
  | NotANumber, _ | _, NotANumber => NotANumber
  | Finite x, Finite y => ofInteger (x - y)
  | Finite _, Infinity => MinusInfinity
  | Finite _, MinusInfinity => Infinity
  | Infinity, Infinity => NotANumber
  | Infinity, _ => Infinity
  | MinusInfinity, MinusInfinity => NotANumber
  | MinusInfinity, _ => MinusInfinity
  end.

(** [Math.max(0, n)] *)
Definition max0 (n : number) : number :=
  match n with
  | Finite z => Finite (Z.max 0 z)
  | Infinity => Infinity
  | MinusInfinity => Finite 0
  | NotANumber => NotANumber
  end.

(** What a property of the health table, or the health of an enemy,
    can be: a number, or the function or object that every object
    inherits under [key]. *)
Inductive value : Type :=
| Number (n : number)
| Inherited (key : string).

(** The properties of [Object.prototype]. *)
Definition objectPrototype : list string :=
  ["constructor"; "hasOwnProperty"; "isPrototypeOf"; "propertyIsEnumerable";
   "toLocaleString"; "toString"; "valueOf"; "__proto__";
   "__defineGetter__"; "__defineSetter__"; "__lookupGetter__"; "__lookupSetter__"].

(** [table[k]] for an object literal with the entries [table]: its own
    entry, else what it inherits, else undefined. *)
Definition get (table : list (string * Z)) (k : string) : option value :=
  match EffectResolver.lookup table k with
  | Some v => Some (Number (Finite v))
  | None =>
      if existsb (String.eqb k) objectPrototype then Some (Inherited k) else None
  end.

(** [a || b] *)
Definition or (a : option value) (b : value) : value :=
  match a with
  | Some (Number (Finite z)) => if (z =? 0)%Z then b else Number (Finite z)
  | Some (Number NotANumber) => b
  | Some v => v
  | None => b
  end.

(** The number a value converts to where the code computes with it: a
    function or a plain object gives NaN. *)
Definition toNumber (v : value) : number :=
  match v with
  | Number n => n
  | Inherited _ => NotANumber
  end.

End Js.

(** The combat side of [EffectResolver] on these values: the steps of
    [apply] that read or write the combat state. *)
Module Resolver.
Import JsString.

Record Enemy : Type := mkEnemy {
  name : string;
  hp : Js.value
}.

Record CombatState : Type := mkCombat {
  active : bool;
  turnOrder : list string;
  currentTurnIndex : number;
  enemies : list Enemy
}.

Definition defaultCombatState : CombatState := mkCombat false [] (Num 0%Z) [].

(** [hpMap[name] || 15] *)
Definition getDefaultEnemyHp (enemyName : string) : Js.value :=
  let name := toLowerCase enemyName in
  Js.or (Js.get EffectResolver.hpMap name) (Js.Number (Js.Finite 15)).

(** Name and health read from one match of an enemy pattern; the
    default is looked up under the name as matched, before the name is
    cleaned. *)
Definition enemyOfMatch (mt : RegExp.Match) : Enemy :=
  let match2 := EffectResolver.groupOf mt 2 in
  let enemyName := trim (EffectResolver.groupOf mt 1) in
  let enemyHp :=
    if negb (isEmpty match2) && negb (Js.isNaN (Js.parseInt match2))
    then Js.Number (Js.parseInt match2)
    else getDefaultEnemyHp enemyName in
  mkEnemy (EffectResolver.cleanEnemyName enemyName) enemyHp.

Definition addEnemy (acc : list Enemy * list string) (mt : RegExp.Match)
  : list Enemy * list string :=
  let '(enemies, foundEnemies) := acc in
  let e := enemyOfMatch mt in
  let enemyKey := toLowerCase (name e) in
  if negb (existsb (String.eqb enemyKey) foundEnemies)
     && Nat.ltb 1 (String.length (name e))
  then ((enemies ++ [e])%list, (foundEnemies ++ [enemyKey])%list)
  else acc.

Definition scanEnemies (text : string) : list Enemy :=
  fst (fold_left
         (fun acc pattern => fold_left addEnemy (RegExp.matchAll text pattern) acc)
         EffectResolver.enemyPatterns ([], [])).

Definition detectCombatScenarios (text : string) (players : PlayerMap.t)
  (combat : CombatState) : CombatState :=
  if active combat then combat
  else if negb (EffectResolver.hasCombatTrigger text) then combat
  else
    let enemies := scanEnemies text in
    if Nat.ltb 0 (List.length enemies) then
      let playerNames := map Player.name (PlayerMap.values players) in
      mkCombat true (playerNames ++ map name enemies)%list (Num 0%Z) enemies
    else combat.

(** [e.hp > 0] *)
Definition alive (e : Enemy) : bool := Js.positive (Js.toNumber (hp e)).

Definition checkCombatEnd (combat : CombatState) : CombatState :=
  if negb (active combat) then combat
  else
    let aliveEnemies := filter alive (enemies combat) in
    if Nat.eqb (List.length aliveEnemies) 0
    then mkCombat false [] (Num 0%Z) []
    else combat.

Definition findEnemyByName (enemies : list Enemy) (searchName : string)
  : option nat :=
  let cleanSearchName :=
    trim (RegExp.remove (toLowerCase searchName)
                        (EffectResolver.re "^(the|a|an)\s+" "")) in
  match findIndex (fun e => String.eqb (toLowerCase (name e)) cleanSearchName)
                  enemies with
  | Some i => Some i
  | None =>
      match findIndex (fun e => includes (toLowerCase (name e)) cleanSearchName)
                      enemies with
      | Some i => Some i
      | None =>
          findIndex (fun e => includes cleanSearchName (toLowerCase (name e)))
                    enemies
      end
  end.

(** [enemy.hp = Math.max(0, enemy.hp - dmg)] *)
Definition hurtEnemy (dmg : Js.number) (e : Enemy) : Enemy :=
  mkEnemy (name e) (Js.Number (Js.max0 (Js.sub (Js.toNumber (hp e)) dmg))).

Definition enemyDamageStep (pattern : RegExp.t) (enemies : list Enemy)
  (mt : RegExp.Match) : list Enemy :=
  let '(enemyName, dmg) :=
    if startsWith (RegExp.source pattern) "(\d+)"
       || includes (RegExp.source pattern) "deals"
    then (option_map trim (RegExp.group mt 2),
          Js.parseInt (EffectResolver.groupOf mt 1))
    else (option_map trim (RegExp.group mt 1),
          Js.parseInt (EffectResolver.groupOf mt 2)) in
  match enemyName with
  | Some n =>
      if negb (isEmpty n) && Js.isFinite dmg && Js.positive dmg then
        match findEnemyByName enemies n with
        | Some i => mutate i (hurtEnemy dmg) enemies
        | None => enemies
        end
      else enemies
  | None => enemies
  end.

Definition applyEnemyDamage (text : string) (combat : CombatState) : CombatState :=
  if negb (active combat) || Nat.eqb (List.length (enemies combat)) 0 then combat
  else
    let enemies' :=
      fold_left
        (fun es pattern =>
           fold_left (enemyDamageStep pattern) (RegExp.matchAll text pattern) es)
        EffectResolver.enemyDamagePatterns (enemies combat) in
    mkCombat (active combat) (turnOrder combat) (currentTurnIndex combat) enemies'.

(** What [apply] does to the combat state: detection, enemy damage and,
    last, the combat-end check.  Its passes over the players in between
    (damage, healing, inventory) neither read nor write the combat
    state. *)
Definition apply (dmText : string) (players : PlayerMap.t) (combat : CombatState)
  : CombatState :=
  let combat1 := detectCombatScenarios dmText players combat in
  let combat2 := applyEnemyDamage dmText combat1 in
  checkCombatEnd combat2.

End Resolver.

(* ================================================================== *)
(** ** Enemy mentions and the health rule *)
(* ================================================================== *)


(** The name as it stands in the text. *)
Definition mentioned (m : RegExp.Match) : string :=
  JsString.trim (EffectResolver.groupOf m 1).












(** Narrations and fights for the resolver on run-time values. *)
Module Encounters.

Definition constructorText : string := "A goblin appears and a constructor attacks!".
Definition constructorHit : string := "The constructor takes 3 damage.".

(** A stated health of 10^309. *)
Definition boundless : string :=
  "A goblin (1" ++ String.concat "" (repeat "0" 309) ++ " HP) attacks!".


End Encounters.

(* ================================================================== *)
(** ** The two resolvers side by side *)
(* ================================================================== *)

(** An enemy and a combat state of the resolver on integers, as
    run-time values. *)
Definition enemyValue (e : Enemy.t) : Resolver.Enemy :=
  Resolver.mkEnemy (Enemy.name e) (Js.Number (Js.Finite (Enemy.hp e))).

Definition combatValue (cb : CombatState) : Resolver.CombatState :=
  Resolver.mkCombat (active cb) (turnOrder cb) (currentTurnIndex cb)
                    (map enemyValue (enemies cb)).

(** The numeral, if it is one, is below 2^53: a double holds it. *)
Definition smallNumeral (digits : string) : bool :=
  match JsString.parseInt digits with
  | Some n => (Z.abs n <? 2 ^ 53)%Z
  | None => true
  end.

(** A mention with a small numeral, under a name that no object
    inherits. *)
Definition tameMention (m : RegExp.Match) : bool :=
  smallNumeral (EffectResolver.groupOf m 2)
  && negb (existsb (String.eqb (JsString.toLowerCase (mentioned m))) Js.objectPrototype).

Definition tameDamage (m : RegExp.Match) : bool :=
  smallNumeral (EffectResolver.groupOf m 1) && smallNumeral (EffectResolver.groupOf m 2).

(** A narration is tame when all that the enemy patterns and the enemy
    damage patterns find in it is. *)
Definition tame (text : string) : bool :=
  forallb (fun pattern => forallb tameMention (RegExp.matchAll text pattern))
          EffectResolver.enemyPatterns
  && forallb (fun pattern => forallb tameDamage (RegExp.matchAll text pattern))
             EffectResolver.enemyDamagePatterns.

(** A health that a double holds. *)
Definition exact (e : Enemy.t) : Prop := (Enemy.hp e < 2 ^ 53)%Z.
(** The enemies found, side by side. *)
Definition sameFound (acc : list Enemy.t * list string)
           (acc' : list Resolver.Enemy * list string) : Prop :=
  acc' = (map enemyValue (fst acc), snd acc) /\ Forall exact (fst acc).

(** The enemies of a fight, side by side. *)
Definition sameEnemies (es : list Enemy.t) (es' : list Resolver.Enemy) : Prop :=
  es' = map enemyValue es /\ Forall exact es.

(* ================================================================== *)
(** ** Proof tools *)
(* ================================================================== *)

(** One case split on the scrutinee of the first [match] of the goal. *)
Ltac case_step :=
  match goal with
  | |- context [match ?x with _ => _ end] => destruct x eqn:?
  end.

(** Runs the monadic plumbing of a coordinator method. *)
Ltac run_monad :=
  unfold resolveEffects, startCombat, bind, ret, modify, getThis, pushMessage, touch,
    persist, resetState, registry_add, registry_remove, safeCall, saveSession, Date_now,
    nextTurn, onCombat;
  cbn [fst snd this world players messages combat lastActivity sessionId
       setPlayers setMessages setCombat setLastActivity setSessionId
       stored registryCalls aiCalls clockReads sleeps].

Local Open Scope monad_scope.

(* ================================================================== *)
(** ** Lists and folds *)
(* ================================================================== *)

Section Folds.
Variables (A B : Type).

Lemma fold_left_invariant (P : A -> Prop) (f : A -> B -> A) (l : list B) (a : A) :
  (forall x b, P x -> P (f x b)) -> P a -> P (fold_left f l a).
Proof.
  intros Hstep. revert a.
  induction l as [| b l IH]; intros a Ha; simpl; auto.
Qed.

Lemma mutate_Forall (P : A -> Prop) (f : A -> A) (i : nat) (l : list A) :
  (forall x, P x -> P (f x)) -> Forall P l -> Forall P (mutate i f l).
Proof.
  intros Hf. revert i.
  induction l as [| x l IH]; intros i Hl; simpl.
  - constructor.
  - inversion Hl; subst. destruct i; constructor; auto.
Qed.

Lemma mutate_map (g : A -> B) (f : A -> A) (i : nat) (l : list A) :
  (forall x, g (f x) = g x) -> map g (mutate i f l) = map g l.
Proof.
  intros Hf. revert i.
  induction l as [| x l IH]; intros i; simpl; auto.
  destruct i; simpl; [rewrite Hf | rewrite IH]; reflexivity.
Qed.

Lemma mutate_length (f : A -> A) (i : nat) (l : list A) :
  List.length (mutate i f l) = List.length l.
Proof.
  revert i. induction l as [| x l IH]; intros i; simpl; auto.
  destruct i; simpl; auto.
Qed.
End Folds.

(** The loops of the resolver: for every pattern, for every match. *)
Lemma nested_fold_invariant (A B C : Type) (P : A -> Prop) (f : C -> A -> B -> A)
      (ms : C -> list B) (ps : list C) (a : A) :
  (forall p x b, P x -> P (f p x b)) ->
  P a ->
  P (fold_left (fun acc p => fold_left (f p) (ms p) acc) ps a).
Proof.
  intros Hstep Ha.
  apply (fold_left_invariant P); auto.
  intros x p Hx. apply (fold_left_invariant P); auto.
Qed.

(* ================================================================== *)
(** ** The patterns of the source *)
(* ================================================================== *)

Lemma literals_parse : forallb parses literals = true.
Proof. vm_compute. reflexivity. Qed.

(** The end-of-session command: the four verbs, alone or followed by
    "game" or "session", in any case and with white space around; nothing
    else. *)
Lemma isEndCommand_examples :
  forallb isEndCommand
    ["end"; "finish"; "close"; "stop"; "end game"; "END GAME"; "Finish Session";
     "  close   session  "; "stopgame"; "Stop
game"] = true /\
  forallb (fun action => negb (isEndCommand action))
    [""; "ending"; "end the game"; "end games"; "please stop"; "endgame now";
     "game"; "I attack the goblin"] = true.
Proof. split; vm_compute; reflexivity. Qed.

Lemma isRetryableError_examples :
  forallb isRetryableError
    [ErrorObject "Error" "504 Gateway Time-out";
     ErrorObject "InferenceUpstreamError" "504 Gateway Time-out";
     ErrorObject "TimeoutError" "request took too long";
     ErrorObject "Error" "Network connection lost";
     Thrown "operation timed out"; Thrown "HTTP 503"] = true /\
  forallb (fun error => negb (isRetryableError error))
    [ErrorObject "Error" "offline"; ErrorObject "TypeError" "bad prompt";
     Thrown "500 internal"; Thrown ""] = true.
Proof. split; vm_compute; reflexivity. Qed.

Lemma extractThinking_examples :
  extractThinking "<thinking>roll d20: 17</thinking>
The goblin falls. <THINKING>again</thinking>"
    = ("The goblin falls.", "roll d20: 17") /\
  extractThinking "  No tags here.  " = ("No tags here.", "").
Proof. split; vm_compute; reflexivity. Qed.

(* ================================================================== *)
(** ** What a capturing group of digits captures *)
(* ================================================================== *)

Module CapturesFacts.
Import RegExp Captures.

Lemma in_allChars (a : ascii) : In a allChars.
Proof.
  unfold allChars. rewrite <- (ascii_nat_embedding a).
  apply in_map, in_seq. pose proof (nat_ascii_bounded a). lia.
Qed.

Lemma leafDigits_sound (accepts : ascii -> bool) (a : ascii) :
  leafDigits accepts = true -> accepts a = true -> JsString.isDigit a = true.
Proof.
  unfold leafDigits. rewrite forallb_forall. intros H Ha.
  specialize (H a (in_allChars a)). rewrite Ha in H. exact H.
Qed.

Lemma isDigits_app (l1 l2 : list ascii) :
  isDigits l1 = true -> isDigits l2 = true -> isDigits (l1 ++ l2) = true.
Proof.
  unfold isDigits. rewrite forallb_app. intros -> ->. reflexivity.
Qed.

Lemma advances_refl (x : MatchState) : advances x x [].
Proof. split; simpl; auto. Qed.

Lemma advances_trans (x y z : MatchState) (l1 l2 : list ascii) :
  advances x y l1 -> advances y z l2 -> advances x z (l1 ++ l2).
Proof.
  intros [H1 H2] [H3 H4]. split.
  - rewrite H1, H3, app_assoc. reflexivity.
  - rewrite H4, H2, length_app. lia.
Qed.

Lemma advances_step (x : MatchState) (a : ascii) (t : list ascii) :
  rest x = a :: t -> advances x (step x a t) [a].
Proof. intros H. split; simpl; auto. lia. Qed.

Lemma okCaps_clear (g : nat) (gs : list nat) (caps : list (nat * string)) :
  okCaps g caps -> okCaps g (clearCaptures gs caps).
Proof.
  intros H v Hin. apply H. unfold clearCaptures in Hin.
  apply filter_In in Hin. tauto.
Qed.

Lemma okCaps_set (g i : nat) (v : string) (caps : list (nat * string)) :
  okCaps g caps ->
  (i = g -> isDigits (JsString.chars v) = true) ->
  okCaps g (setCapture i v caps).
Proof.
  intros H Hv w Hin. unfold setCapture in Hin. destruct Hin as [Heq | Hin].
  - inversion Heq; subst. auto.
  - apply filter_In in Hin. apply H. tauto.
Qed.

Lemma chars_str (l : list ascii) : JsString.chars (JsString.str l) = l.
Proof. apply list_ascii_of_string_of_list_ascii. Qed.

Section Repeat.
Variables (g : nat) (digitsBody : bool) (mb : Matcher).
Variables (gs : list nat) (greedy : bool) (c : Continuation).
Hypothesis mb_ok : matcherOk g digitsBody mb.

Lemma repeatMatcher_ok (fuel : nat) :
  forall (min : nat) (max : option nat) (x z : MatchState),
    okCaps g (captures x) ->
    repeatMatcher mb gs greedy c fuel min max x = Some z ->
    exists y consumed,
      c y = Some z /\ okCaps g (captures y) /\ advances x y consumed /\
      (digitsBody = true -> isDigits consumed = true).
Proof.
  induction fuel as [| fuel IH]; intros min max x z Hcaps Hrun;
    [discriminate |].
  assert (Hstop : c x = Some z ->
            exists y consumed,
              c y = Some z /\ okCaps g (captures y) /\ advances x y consumed /\
              (digitsBody = true -> isDigits consumed = true)).
  { intros Hc. exists x, []. repeat split; auto; simpl; lia. }
  assert (Hround :
            mb (resetGroups gs x)
               (fun y =>
                  if Nat.eqb min 0 && Nat.eqb (endIndex y) (endIndex x) then None
                  else repeatMatcher mb gs greedy c fuel (Nat.pred min)
                                     (option_map Nat.pred max) y) = Some z ->
            exists y consumed,
              c y = Some z /\ okCaps g (captures y) /\ advances x y consumed /\
              (digitsBody = true -> isDigits consumed = true)).
  { intros Hm. apply mb_ok in Hm; [| apply okCaps_clear; exact Hcaps].
    destruct Hm as (y1 & l1 & Hd & Hc1 & Hadv1 & Hdig1).
    destruct (Nat.eqb min 0 && Nat.eqb (endIndex y1) (endIndex x));
      [discriminate |].
    apply IH in Hd; auto.
    destruct Hd as (y2 & l2 & Hc & Hc2 & Hadv2 & Hdig2).
    exists y2, (l1 ++ l2)%list. repeat split; auto.
    - destruct Hadv1 as [E1 _], Hadv2 as [E2 _]. simpl in E1.
      rewrite E1, E2, app_assoc. reflexivity.
    - destruct Hadv1 as [_ E1], Hadv2 as [_ E2]. simpl in E1.
      rewrite E2, E1, length_app. lia.
    - intros Hb. apply isDigits_app; auto. }
  simpl in Hrun.
  destruct max as [[| k] |]; auto.
  - destruct (Nat.eqb min 0); simpl in Hrun; auto.
    destruct greedy; unfold orElse in Hrun.
    + match type of Hrun with
      | match ?e with _ => _ end = _ => destruct e eqn:E
      end; [inversion Hrun; subst; auto | auto].
    + destruct (c x) eqn:E; [inversion Hrun; subst; auto | auto].
  - destruct (Nat.eqb min 0); simpl in Hrun; auto.
    destruct greedy; unfold orElse in Hrun.
    + match type of Hrun with
      | match ?e with _ => _ end = _ => destruct e eqn:E
      end; [inversion Hrun; subst; auto | auto].
    + destruct (c x) eqn:E; [inversion Hrun; subst; auto | auto].
Qed.
End Repeat.

Lemma m_ok (ic : bool) (g : nat) (r : Node) :
  digitGroup ic g r = true -> matcherOk g (digitsOnly ic r) (m ic r).
Proof.
  induction r as [| ch | | inv atoms | a IHa b IHb | a IHa b IHb | i body IH
                  | body IH min max greedy | | | neg];
    intros Hg x c z Hcaps Hrun; simpl in Hrun, Hg.
  - exists x, []. repeat split; auto; simpl; lia.
  - destruct (rest x) as [| a t] eqn:Hrest; [discriminate |].
    destruct (Ascii.eqb (canonicalize ic ch) (canonicalize ic a)) eqn:Hacc;
      [| discriminate].
    exists (step x a t), [a]. repeat split; auto; simpl; try lia.
    intros Hd. rewrite (leafDigits_sound _ a Hd Hacc). reflexivity.
  - destruct (rest x) as [| a t] eqn:Hrest; [discriminate |].
    destruct (isLineTerminator a) eqn:Hacc; [discriminate |].
    exists (step x a t), [a]. repeat split; auto; simpl; try lia.
    intros Hd. rewrite (leafDigits_sound _ a Hd); auto. rewrite Hacc. reflexivity.
  - destruct (rest x) as [| a t] eqn:Hrest; [discriminate |].
    destruct (xorb inv (existsb (fun at_ => atomMatches ic at_ a) atoms)) eqn:Hacc;
      [| discriminate].
    exists (step x a t), [a]. repeat split; auto; simpl; try lia.
    intros Hd. rewrite (leafDigits_sound _ a Hd Hacc). reflexivity.
  - apply andb_true_iff in Hg. destruct Hg as [Hga Hgb].
    apply (IHa Hga) in Hrun; auto.
    destruct Hrun as (y1 & l1 & Hb & Hc1 & Hadv1 & Hd1).
    apply (IHb Hgb) in Hb; auto.
    destruct Hb as (y2 & l2 & Hc & Hc2 & Hadv2 & Hd2).
    exists y2, (l1 ++ l2)%list. repeat split; auto.
    + apply (advances_trans Hadv1 Hadv2).
    + apply (advances_trans Hadv1 Hadv2).
    + intros Hd. apply andb_true_iff in Hd. destruct Hd.
      apply isDigits_app; auto.
  - apply andb_true_iff in Hg. destruct Hg as [Hga Hgb].
    unfold orElse in Hrun.
    destruct (m ic a x c) eqn:Ea.
    + inversion Hrun; subst.
      apply (IHa Hga) in Ea; auto.
      destruct Ea as (y & l & Hc & Hcy & Hadv & Hd).
      exists y, l. repeat split; auto; try apply Hadv.
      intros Hb. apply andb_true_iff in Hb. tauto.
    + apply (IHb Hgb) in Hrun; auto.
      destruct Hrun as (y & l & Hc & Hcy & Hadv & Hd).
      exists y, l. repeat split; auto; try apply Hadv.
      intros Hb. apply andb_true_iff in Hb. tauto.
  - apply andb_true_iff in Hg. destruct Hg as [Hgi Hgb].
    apply (IH Hgb) in Hrun; auto.
    destruct Hrun as (y & l & Hc & Hcy & Hadv & Hd).
    assert (Htext : firstn (endIndex y - endIndex x) (rest x) = l).
    { destruct Hadv as [E1 E2]. rewrite E1, E2.
      replace (endIndex x + List.length l - endIndex x) with (List.length l + 0) by lia.
      rewrite firstn_app_2. simpl. apply app_nil_r. }
    rewrite Htext in Hc.
    eexists _, l. split; [exact Hc |]. simpl. repeat split; try apply Hadv; auto.
    apply okCaps_set; auto.
    intros Heq. rewrite chars_str. apply Hd. subst i.
    rewrite Nat.eqb_refl in Hgi. exact Hgi.
  - eapply repeatMatcher_ok; eauto.
  - destruct (Nat.eqb (endIndex x) 0); [| discriminate].
    exists x, []. repeat split; auto; simpl; lia.
  - destruct (rest x); [| discriminate].
    exists x, []. repeat split; auto; simpl; lia.
  - destruct (xorb neg (xorb (wordAt (prev x)) (wordAt (hd_error (rest x)))));
      [| discriminate].
    exists x, []. repeat split; auto; simpl; lia.
Qed.







End CapturesFacts.

Lemma fold_left_invariant_in (A B : Type) (P : A -> Prop) (f : A -> B -> A)
      (l : list B) (a : A) :
  (forall x b, In b l -> P x -> P (f x b)) -> P a -> P (fold_left f l a).
Proof.
  revert a. induction l as [| b l IH]; intros a Hstep Ha; simpl; auto.
  apply IH.
  - intros x b' Hin. apply Hstep. right. exact Hin.
  - apply Hstep; auto. left. reflexivity.
Qed.

Lemma mutate_Forall2 (A : Type) (R : A -> A -> Prop) (f : A -> A) (i : nat)
      (l0 l : list A) :
  (forall x y, R x y -> R x (f y)) -> Forall2 R l0 l -> Forall2 R l0 (mutate i f l).
Proof.
  intros Hf H. revert i.
  induction H as [| x y l0 l Hxy Hl IH]; intros i; simpl.
  - constructor.
  - destruct i; constructor; auto.
Qed.


(* ================================================================== *)
(** ** The bounds of the loops are never reached *)
(* ================================================================== *)

Module Adequacy.
Import RegExp Captures.

Lemma ahead_refl (x : MatchState) : ahead x x.
Proof. exists []. split; simpl; auto. Qed.

Lemma ahead_trans (x y z : MatchState) : ahead x y -> ahead y z -> ahead x z.
Proof.
  intros [l1 H1] [l2 H2]. exists (l1 ++ l2)%list.
  eapply CapturesFacts.advances_trans; eauto.
Qed.

Lemma ahead_step (x : MatchState) (a : ascii) (t : list ascii) :
  rest x = a :: t -> ahead x (step x a t).
Proof. intros H. exists [a]. split; simpl; auto. lia. Qed.

Lemma ahead_length (x y : MatchState) :
  ahead x y ->
  List.length (rest y) <= List.length (rest x) /\
  (endIndex y <> endIndex x -> List.length (rest y) < List.length (rest x)).
Proof.
  intros [l [H1 H2]]. rewrite H1, length_app. split; [lia |].
  intros Hne. destruct l; simpl in *; lia.
Qed.

Section Repeat.
Variables (mb : Matcher) (gs : list nat) (greedy : bool).
Hypothesis mb_local : local mb.

Lemma ahead_reset (x y : MatchState) : ahead (resetGroups gs x) y -> ahead x y.
Proof. intros [l H]. exists l. exact H. Qed.

Lemma repeatMatcher_local (fuel : nat) :
  forall min max x c1 c2,
    (forall y, ahead x y -> c1 y = c2 y) ->
    repeatMatcher mb gs greedy c1 fuel min max x
      = repeatMatcher mb gs greedy c2 fuel min max x.
Proof.
  induction fuel as [| fuel IH]; intros min max x c1 c2 Hc; simpl; auto.
  assert (Hx : c1 x = c2 x) by (apply Hc, ahead_refl).
  assert (Hround :
            mb (resetGroups gs x)
               (fun y =>
                  if Nat.eqb min 0 && Nat.eqb (endIndex y) (endIndex x) then None
                  else repeatMatcher mb gs greedy c1 fuel (Nat.pred min)
                                     (option_map Nat.pred max) y)
            = mb (resetGroups gs x)
                 (fun y =>
                    if Nat.eqb min 0 && Nat.eqb (endIndex y) (endIndex x) then None
                    else repeatMatcher mb gs greedy c2 fuel (Nat.pred min)
                                       (option_map Nat.pred max) y)).
  { apply mb_local. intros y Hy.
    destruct (Nat.eqb min 0 && Nat.eqb (endIndex y) (endIndex x)); auto.
    apply IH. intros z Hz. apply Hc.
    eapply ahead_trans; [apply ahead_reset; exact Hy | exact Hz]. }
  destruct max as [[| k] |]; auto;
    rewrite Hround, Hx; reflexivity.
Qed.

(** Once the fuel exceeds [min] plus the length of the remaining input,
    more fuel changes nothing. *)
Lemma repeatMatcher_fuel (c : Continuation) (fuel1 : nat) :
  forall fuel2 min max x,
    min + List.length (rest x) < fuel1 ->
    min + List.length (rest x) < fuel2 ->
    repeatMatcher mb gs greedy c fuel1 min max x
      = repeatMatcher mb gs greedy c fuel2 min max x.
Proof.
  induction fuel1 as [| fuel1 IH]; intros fuel2 min max x H1 H2; [lia |].
  destruct fuel2 as [| fuel2]; [lia |]. simpl.
  assert (Hround :
            mb (resetGroups gs x)
               (fun y =>
                  if Nat.eqb min 0 && Nat.eqb (endIndex y) (endIndex x) then None
                  else repeatMatcher mb gs greedy c fuel1 (Nat.pred min)
                                     (option_map Nat.pred max) y)
            = mb (resetGroups gs x)
                 (fun y =>
                    if Nat.eqb min 0 && Nat.eqb (endIndex y) (endIndex x) then None
                    else repeatMatcher mb gs greedy c fuel2 (Nat.pred min)
                                       (option_map Nat.pred max) y)).
  { apply mb_local. intros y Hy.
    destruct (Nat.eqb min 0) eqn:Emin; simpl.
    - destruct (Nat.eqb (endIndex y) (endIndex x)) eqn:Eend; auto.
      apply Nat.eqb_eq in Emin. apply Nat.eqb_neq in Eend. subst min.
      destruct (ahead_length (ahead_reset Hy)) as [_ Hlt].
      specialize (Hlt Eend). apply IH; simpl; lia.
    - apply Nat.eqb_neq in Emin.
      destruct (ahead_length (ahead_reset Hy)) as [Hle _].
      apply IH; lia. }
  destruct max as [[| k] |]; auto; rewrite Hround; reflexivity.
Qed.
End Repeat.

Lemma m_local (ic : bool) (r : Node) : local (m ic r).
Proof.
  induction r as [| ch | | inv atoms | a IHa b IHb | a IHa b IHb | i body IH
                  | body IH min max greedy | | | neg];
    intros x c1 c2 Hc; simpl.
  - apply Hc, ahead_refl.
  - destruct (rest x) as [| a t] eqn:E; auto.
    destruct (Ascii.eqb _ _); auto. apply Hc, ahead_step, E.
  - destruct (rest x) as [| a t] eqn:E; auto.
    destruct (isLineTerminator a); auto. apply Hc, ahead_step, E.
  - destruct (rest x) as [| a t] eqn:E; auto.
    destruct (xorb _ _); auto. apply Hc, ahead_step, E.
  - apply IHa. intros y Hy. apply IHb. intros z Hz. apply Hc.
    eapply ahead_trans; eauto.
  - rewrite (IHa x c1 c2 Hc), (IHb x c1 c2 Hc). reflexivity.
  - apply IH. intros y Hy. apply Hc. destruct Hy as [l Hl]. exists l. exact Hl.
  - apply repeatMatcher_local; auto.
  - destruct (Nat.eqb (endIndex x) 0); auto. apply Hc, ahead_refl.
  - destruct (rest x); auto. apply Hc, ahead_refl.
  - destruct (xorb _ _); auto. apply Hc, ahead_refl.
Qed.

(** The bound a quantifier is run with is enough: any larger one gives
    the same result. *)
Lemma quantifier_fuel (ic : bool) (body : Node) (min : nat) (max : option nat)
      (greedy : bool) (x : MatchState) (c : Continuation) (more : nat) :
  m ic (Quant body min max greedy) x c
    = repeatMatcher (m ic body) (groupsOf body) greedy c
                    (min + List.length (rest x) + 1 + more) min max x.
Proof.
  simpl. apply repeatMatcher_fuel; [apply m_local | lia | lia].
Qed.

(** A group number that does not occur puts no condition on a pattern. *)
Lemma digitGroup_fresh (ic : bool) (g : nat) (r : Node) :
  ~ In g (groupsOf r) -> digitGroup ic g r = true.
Proof.
  induction r as [| ch | | inv atoms | a IHa b IHb | a IHa b IHb | i body IH
                  | body IH min max greedy | | | neg];
    simpl; intros Hin; auto.
  - rewrite IHa, IHb; auto; intros H; apply Hin, in_or_app; auto.
  - rewrite IHa, IHb; auto; intros H; apply Hin, in_or_app; auto.
  - rewrite IH by tauto.
    destruct (Nat.eqb i g) eqn:E; auto.
    apply Nat.eqb_eq in E. tauto.
Qed.

Lemma fresh_group (r : Node) : ~ In (S (list_max (groupsOf r))) (groupsOf r).
Proof.
  intros Hin.
  pose proof (proj1 (list_max_le (groupsOf r) (list_max (groupsOf r))) (Nat.le_refl _))
    as Hall.
  rewrite Forall_forall in Hall. specialize (Hall _ Hin). lia.
Qed.

(** A successful match from a state without captures ends ahead of where
    it started. *)
Lemma m_ahead (ic : bool) (n : Node) (x z : MatchState) :
  captures x = [] -> m ic n x (fun y => Some y) = Some z -> ahead x z.
Proof.
  intros Hcaps Hrun.
  pose proof (@digitGroup_fresh ic _ n (fresh_group n)) as Hg.
  destruct (@CapturesFacts.m_ok ic _ n Hg x (fun y => Some y) z)
    as (y & l & Hy & _ & Hadv & _).
  - rewrite Hcaps. intros v [].
  - exact Hrun.
  - inversion Hy; subst. exists l. exact Hadv.
Qed.

Lemma search_bounds (ic : bool) (n : Node) (s : list ascii) :
  forall (i : nat) (before : option ascii) (mt : Match),
    search ic n i before s = Some mt ->
    i <= index mt /\ index mt <= lastIndex mt /\ lastIndex mt <= i + List.length s.
Proof.
  induction s as [| a t IH]; intros i before mt Hs; simpl in Hs.
  - destruct (m ic n (mkState i [] before []) (fun y => Some y)) as [y |] eqn:E;
      [| discriminate].
    inversion Hs; subst; simpl.
    apply m_ahead in E; [| reflexivity].
    destruct E as (l & E1 & E2). simpl in *.
    destruct l; simpl in *; [lia | discriminate].
  - destruct (m ic n (mkState i (a :: t) before []) (fun y => Some y)) as [y |] eqn:E.
    + inversion Hs; subst; simpl.
      apply m_ahead in E; [| reflexivity].
      destruct E as (l & E1 & E2). simpl in *.
      assert (Hlen : List.length l <= S (List.length t)).
      { change (S (List.length t)) with (List.length (a :: t)).
        rewrite E1, length_app. lia. }
      lia.
    + apply IH in Hs. simpl. lia.
Qed.

Lemma execFrom_bounds (re : RegExp.t) (input : list ascii) (from : nat) (mt : Match) :
  execFrom re input from = Some mt ->
  from <= index mt /\ index mt <= lastIndex mt /\ lastIndex mt <= List.length input.
Proof.
  unfold execFrom. destruct (Nat.ltb (List.length input) from) eqn:E; [discriminate |].
  apply Nat.ltb_ge in E. intros Hs. apply search_bounds in Hs.
  rewrite length_skipn in Hs. lia.
Qed.

(** [matchAll] never runs out of rounds: any larger bound gives the same
    list of matches. *)
Lemma matchesFrom_fuel (re : RegExp.t) (input : list ascii) (fuel : nat) :
  forall (more from : nat),
    List.length input + 1 - from <= fuel ->
    matchesFrom (fuel + more) re input from = matchesFrom fuel re input from.
Proof.
  induction fuel as [| fuel IH]; intros more from Hfuel.
  - destruct more; simpl; auto.
    unfold execFrom.
    replace (Nat.ltb (List.length input) from) with true; auto.
    symmetry. apply Nat.ltb_lt. lia.
  - simpl. destruct (execFrom re input from) as [mt |] eqn:E; auto.
    apply execFrom_bounds in E. f_equal. apply IH.
    destruct (Nat.eqb (lastIndex mt) (index mt)) eqn:Ee.
    + apply Nat.eqb_eq in Ee. lia.
    + apply Nat.eqb_neq in Ee. lia.
Qed.

Lemma matchAll_fuel (text : string) (re : RegExp.t) (more : nat) :
  matchAll text re
    = matchesFrom (S (List.length (JsString.chars text)) + more) re
                  (JsString.chars text) 0.
Proof. unfold matchAll. symmetry. apply matchesFrom_fuel. lia. Qed.

End Adequacy.

(** The retry loop of [narrate] never runs out of rounds either. *)
Lemma narrateFrom_fuel (env : Env) (svc : DungeonMasterService) (request : AiRequest)
      (fuel : nat) :
  forall (more : nat) (attempt : Z) (s : System),
    (maxAttempts svc - attempt <= Z.of_nat fuel)%Z ->
    narrateFrom env svc request (fuel + more) attempt s
      = narrateFrom env svc request fuel attempt s.
Proof.
  induction fuel as [| fuel IH]; intros more attempt s Hfuel.
  - destruct more; simpl; auto.
    replace (attempt <? maxAttempts svc)%Z with false; auto.
    symmetry. apply Z.ltb_ge. lia.
  - simpl. destruct (attempt <? maxAttempts svc)%Z; auto.
    unfold bind at 1 3. unfold ai_run.
    destruct (backend env (aiCalls (world s)) request) as [response | error]; auto.
    destruct (negb (isRetryableError error) || (attempt =? maxAttempts svc - 1)%Z); auto.
    unfold bind. destruct (backoff svc attempt _) as [[] s1].
    apply IH. lia.
Qed.

Lemma narrate_fuel (env : Env) (svc : DungeonMasterService) (context : SessionContext)
      (player : Player.t) (action : string) (s : System) (more : nat) :
  narrate env svc context player action s
    = narrateFrom env svc (mkRequest context player action)
                  (Z.to_nat (maxAttempts svc) + more) 0%Z s.
Proof. unfold narrate. symmetry. apply narrateFrom_fuel. lia. Qed.

(* ================================================================== *)
(** ** Effect resolution: health bounds *)
(* ================================================================== *)

Module EffectFacts.
Import EffectResolver.

Lemma assign_healthy (i : nat) (f : Player.t -> Player.t) (m : PlayerMap.t) :
  (forall p, playerHealthy p -> playerHealthy (f p)) ->
  playersHealthy m -> playersHealthy (PlayerMap.assign i f m).
Proof.
  intros Hf. unfold playersHealthy, PlayerMap.assign.
  apply mutate_Forall. intros [k p]; simpl. apply Hf.
Qed.

Lemma hurtPlayer_healthy (d : Z) (p : Player.t) :
  (0 < d)%Z -> playerHealthy p -> playerHealthy (hurtPlayer d p).
Proof. unfold playerHealthy, hurtPlayer; simpl. lia. Qed.

Lemma healPlayer_healthy (h : Z) (p : Player.t) :
  (0 < h)%Z -> playerHealthy p -> playerHealthy (healPlayer h p).
Proof. unfold playerHealthy, healPlayer, maxHp; simpl. lia. Qed.

Lemma playerDamageStep_healthy (pattern : RegExp.t) (m : PlayerMap.t)
      (mt : RegExp.Match) :
  playersHealthy m -> playersHealthy (playerDamageStep pattern m mt).
Proof.
  intros H. unfold playerDamageStep.
  destruct (nameAndAmount pattern mt) as [name dmg].
  destruct (PlayerMap.find (sameName name) m); auto.
  destruct dmg as [d |]; auto.
  destruct (0 <? d)%Z eqn:Hd; auto.
  apply assign_healthy; auto.
  intros p. apply hurtPlayer_healthy. apply Z.ltb_lt. exact Hd.
Qed.

Lemma healingStep_healthy (pattern : RegExp.t) (m : PlayerMap.t)
      (mt : RegExp.Match) :
  playersHealthy m -> playersHealthy (healingStep pattern m mt).
Proof.
  intros H. unfold healingStep.
  destruct (nameAndAmount pattern mt) as [name heal].
  destruct (PlayerMap.find (sameName name) m); auto.
  destruct heal as [h |]; auto.
  destruct (0 <? h)%Z eqn:Hh; auto.
  apply assign_healthy; auto.
  intros p. apply healPlayer_healthy. apply Z.ltb_lt. exact Hh.
Qed.

Lemma gainStep_healthy (m : PlayerMap.t) (mt : RegExp.Match) :
  playersHealthy m -> playersHealthy (gainStep m mt).
Proof.
  intros H. unfold gainStep.
  destruct (option_map JsString.trim (RegExp.group mt 2)); auto.
  match goal with |- context [if ?b then _ else _] => destruct b end; auto.
  destruct (PlayerMap.find _ m); auto.
  destruct (PlayerMap.deref m n); auto.
  destruct (existsb _ _); auto.
  apply assign_healthy; auto.
Qed.

Lemma loseStep_healthy (m : PlayerMap.t) (mt : RegExp.Match) :
  playersHealthy m -> playersHealthy (loseStep m mt).
Proof.
  intros H. unfold loseStep.
  destruct (option_map _ (RegExp.group mt 2)); auto.
  destruct (option_map _ (RegExp.group mt 1)) eqn:E; auto.
  match goal with |- context [if ?b then _ else _] => destruct b end; auto.
  destruct (PlayerMap.find _ m); auto.
  destruct (PlayerMap.deref m n); auto.
  destruct (findIndex _ _); auto.
  apply assign_healthy; auto.
Qed.

Lemma applyPlayerDamage_healthy (text : string) (m : PlayerMap.t) :
  playersHealthy m -> playersHealthy (applyPlayerDamage text m).
Proof.
  intros H. unfold applyPlayerDamage.
  apply (nested_fold_invariant playersHealthy playerDamageStep
           (fun pattern => RegExp.matchAll text pattern)); auto.
  intros; apply playerDamageStep_healthy; auto.
Qed.

Lemma applyPlayerHealing_healthy (text : string) (m : PlayerMap.t) :
  playersHealthy m -> playersHealthy (applyPlayerHealing text m).
Proof.
  intros H. unfold applyPlayerHealing.
  apply (nested_fold_invariant playersHealthy healingStep
           (fun pattern => RegExp.matchAll text pattern)); auto.
  intros; apply healingStep_healthy; auto.
Qed.

Lemma applyInventoryChanges_healthy (text : string) (m : PlayerMap.t) :
  playersHealthy m -> playersHealthy (applyInventoryChanges text m).
Proof.
  intros H. unfold applyInventoryChanges.
  apply (nested_fold_invariant playersHealthy (fun _ : RegExp.t => loseStep)
           (fun pattern => RegExp.matchAll text pattern)).
  - intros; apply loseStep_healthy; auto.
  - apply (nested_fold_invariant playersHealthy (fun _ : RegExp.t => gainStep)
             (fun pattern => RegExp.matchAll text pattern)); auto.
    intros; apply gainStep_healthy; auto.
Qed.



End EffectFacts.


(* ================================================================== *)
(** ** Effect resolution: combat state *)
(* ================================================================== *)

Module CombatFacts.
Import EffectResolver.

Lemma worn_refl (es : list Enemy.t) : Forall2 worn es es.
Proof. induction es; constructor; auto. split; auto. lia. Qed.

Lemma worn_hurt (d : Z) (e e' : Enemy.t) :
  (0 < d)%Z -> worn e e' -> worn e (hurtEnemy d e').
Proof.
  unfold worn, hurtEnemy, Enemy.setHp. cbn [Enemy.name Enemy.hp].
  intros Hd [Hn Hh]. split; auto. lia.
Qed.

Lemma enemyDamageStep_worn (es0 : list Enemy.t) (pattern : RegExp.t)
      (es : list Enemy.t) (mt : RegExp.Match) :
  Forall2 worn es0 es -> Forall2 worn es0 (enemyDamageStep pattern es mt).
Proof.
  intros H. unfold enemyDamageStep.
  repeat case_step; auto.
  all: match goal with
       | Hd : (_ && (0 <? _)%Z) = true |- _ =>
           apply andb_true_iff in Hd; destruct Hd as [_ Hd]; apply Z.ltb_lt in Hd
       end.
  all: apply mutate_Forall2; auto; intros; apply worn_hurt; auto.
Qed.

(** The enemy-damage step changes nothing but the health of enemies. *)
Lemma applyEnemyDamage_frame (text : string) (cb : CombatState) :
  active (applyEnemyDamage text cb) = active cb /\
  turnOrder (applyEnemyDamage text cb) = turnOrder cb /\
  currentTurnIndex (applyEnemyDamage text cb) = currentTurnIndex cb /\
  Forall2 worn (enemies cb) (enemies (applyEnemyDamage text cb)).
Proof.
  unfold applyEnemyDamage.
  destruct (negb (active cb) || Nat.eqb (List.length (enemies cb)) 0).
  - repeat split; auto. apply worn_refl.
  - cbn [active turnOrder currentTurnIndex enemies]. repeat split; auto.
    apply (nested_fold_invariant (Forall2 worn (enemies cb)) enemyDamageStep
             (fun pattern => RegExp.matchAll text pattern)).
    + intros; apply enemyDamageStep_worn; auto.
    + apply worn_refl.
Qed.

Lemma applyEnemyDamage_inactive (text : string) (cb : CombatState) :
  active cb = false -> applyEnemyDamage text cb = cb.
Proof. intros H. unfold applyEnemyDamage. rewrite H. reflexivity. Qed.

Lemma worn_names (es es' : list Enemy.t) :
  Forall2 worn es es' -> map Enemy.name es' = map Enemy.name es.
Proof.
  induction 1 as [| e e' es es' [Hn _] _ IH]; simpl; auto.
  rewrite Hn, IH. reflexivity.
Qed.

(** What combat detection does, case by case. *)
Lemma detectCombatScenarios_cases (text : string) (ps : PlayerMap.t)
      (cb : CombatState) :
  detectCombatScenarios text ps cb = cb \/
  (active cb = false /\ hasCombatTrigger text = true /\ scanEnemies text <> [] /\
   detectCombatScenarios text ps cb =
     mkCombat true
              (map Player.name (PlayerMap.values ps) ++ map Enemy.name (scanEnemies text))
              (Num 0) (scanEnemies text)).
Proof.
  unfold detectCombatScenarios.
  destruct (active cb); auto.
  destruct (hasCombatTrigger text); auto. simpl.
  destruct (scanEnemies text) as [| e es]; auto.
  right. repeat split; auto. discriminate.
Qed.

Lemma checkCombatEnd_cases (cb : CombatState) :
  (checkCombatEnd cb = cb /\ (active cb = true -> filter alive (enemies cb) <> [])) \/
  (active cb = true /\ filter alive (enemies cb) = [] /\
   checkCombatEnd cb = defaultCombatState).
Proof.
  unfold checkCombatEnd.
  destruct (active cb); simpl.
  - destruct (filter alive (enemies cb)) eqn:E; simpl; auto.
    left. split; auto. discriminate.
  - left. split; auto. discriminate.
Qed.

Lemma default_invariant : combatInvariant defaultCombatState.
Proof. intros _. repeat split. Qed.

Lemma start_invariant (enemies : list Enemy.t) (order : list string) :
  combatInvariant (mkCombat true order (Num 0) enemies).
Proof. intros H. discriminate. Qed.

Lemma default_inRange : turnInRange defaultCombatState.
Proof. intros H. discriminate. Qed.

Lemma detect_invariant (text : string) (ps : PlayerMap.t) (cb : CombatState) :
  combatInvariant cb -> combatInvariant (detectCombatScenarios text ps cb).
Proof.
  intros H. destruct (detectCombatScenarios_cases text ps cb) as [E | (_ & _ & _ & E)];
    rewrite E; auto.
  intros Hf. discriminate.
Qed.

Lemma detect_inRange (text : string) (ps : PlayerMap.t) (cb : CombatState) :
  turnInRange cb -> turnInRange (detectCombatScenarios text ps cb).
Proof.
  intros H. destruct (detectCombatScenarios_cases text ps cb) as [E | (_ & _ & Hne & E)];
    rewrite E; auto.
  intros _. cbn [turnOrder currentTurnIndex].
  destruct (scanEnemies text) as [| e es]; [congruence |].
  split.
  - intros Happ. apply app_eq_nil in Happ. destruct Happ; discriminate.
  - exists 0%Z. split; auto. rewrite length_app. simpl. lia.
Qed.

Lemma damage_invariant (text : string) (cb : CombatState) :
  combatInvariant cb -> combatInvariant (applyEnemyDamage text cb).
Proof.
  intros H Hf.
  destruct (applyEnemyDamage_frame text cb) as (Ha & _).
  rewrite Hf in Ha. rewrite applyEnemyDamage_inactive; auto.
Qed.

Lemma damage_inRange (text : string) (cb : CombatState) :
  turnInRange cb -> turnInRange (applyEnemyDamage text cb).
Proof.
  intros H.
  destruct (applyEnemyDamage_frame text cb) as (Ha & Ht & Hi & _).
  unfold turnInRange. rewrite Ha, Ht, Hi. exact H.
Qed.

Lemma end_invariant (cb : CombatState) :
  combatInvariant cb -> combatInvariant (checkCombatEnd cb).
Proof.
  intros H. destruct (checkCombatEnd_cases cb) as [[E _] | (_ & _ & E)]; rewrite E; auto.
  apply default_invariant.
Qed.

Lemma end_inRange (cb : CombatState) :
  turnInRange cb -> turnInRange (checkCombatEnd cb).
Proof.
  intros H. destruct (checkCombatEnd_cases cb) as [[E _] | (_ & _ & E)]; rewrite E; auto.
  apply default_inRange.
Qed.

Lemma apply_invariant (text : string) (ps : PlayerMap.t) (cb : CombatState) :
  combatInvariant cb -> combatInvariant (snd (apply text ps cb)).
Proof.
  intros H. unfold apply. cbn [snd].
  apply end_invariant, damage_invariant, detect_invariant, H.
Qed.

Lemma apply_inRange (text : string) (ps : PlayerMap.t) (cb : CombatState) :
  turnInRange cb -> turnInRange (snd (apply text ps cb)).
Proof.
  intros H. unfold apply. cbn [snd].
  apply end_inRange, damage_inRange, detect_inRange, H.
Qed.

Lemma nextTurnOf_invariant (cb : CombatState) :
  combatInvariant cb -> combatInvariant (nextTurnOf cb).
Proof.
  intros H. unfold nextTurnOf. destruct (active cb) eqn:E; simpl; auto.
  intros Hf. discriminate.
Qed.

Lemma nextTurnOf_inRange (cb : CombatState) :
  turnInRange cb -> turnInRange (nextTurnOf cb).
Proof.
  intros H. unfold nextTurnOf. destruct (active cb) eqn:E; simpl; auto.
  destruct (H E) as (Hne & z & Hz & Hr).
  intros _. cbn [turnOrder currentTurnIndex]. split; auto.
  rewrite Hz. destruct (turnOrder cb) as [| who rest]; [congruence |].
  cbn [advance List.length].
  eexists. split; [reflexivity |].
  pose proof (Z.rem_bound_pos (z + 1) (Z.of_nat (S (List.length rest)))).
  lia.
Qed.

(** The passes over the players taken together: health stays within
    0..20. *)
Lemma apply_players_healthy (text : string) (ps : PlayerMap.t) (cb : CombatState) :
  playersHealthy ps -> playersHealthy (fst (apply text ps cb)).
Proof.
  intros Hp. unfold apply. cbn [fst].
  apply EffectFacts.applyInventoryChanges_healthy,
        EffectFacts.applyPlayerHealing_healthy,
        EffectFacts.applyPlayerDamage_healthy, Hp.
Qed.

End CombatFacts.


Section CoordinatorFacts.
Variable env : Env.

Lemma narrateFrom_frame (svc : DungeonMasterService) (request : AiRequest)
      (fuel : nat) :
  forall (attempt : Z) (s s' : System) (r : NarrationResult),
    narrateFrom env svc request fuel attempt s = (r, s') ->
    this s' = this s /\
    stored (world s') = stored (world s) /\
    registryCalls (world s') = registryCalls (world s).
Proof.
  induction fuel as [| fuel IH]; intros attempt s s' r Hrun; cbn [narrateFrom] in Hrun.
  - inversion Hrun; subst. auto.
  - destruct (attempt <? maxAttempts svc)%Z; [| inversion Hrun; subst; auto].
    unfold bind, ai_run in Hrun.
    destruct (backend env (aiCalls (world s)) request) as [response | error].
    + destruct (extractThinking _) as [text thinking].
      inversion Hrun; subst. auto.
    + destruct (negb (isRetryableError error) || (attempt =? maxAttempts svc - 1)%Z);
        [inversion Hrun; subst; auto |].
      unfold backoff, setTimeout, ret in Hrun.
      destruct (backoffMs svc * (attempt + 1) <=? 0)%Z;
        apply IH in Hrun; cbn in Hrun; exact Hrun.
Qed.

Lemma narrate_frame (svc : DungeonMasterService) (context : SessionContext)
      (player : Player.t) (action : string) (s s' : System) (r : NarrationResult) :
  narrate env svc context player action s = (r, s') ->
  this s' = this s /\
  stored (world s') = stored (world s) /\
  registryCalls (world s') = registryCalls (world s).
Proof. apply narrateFrom_frame. Qed.

(** The idle clean-up either leaves the coordinator as it is or empties
    its player map. *)
Lemma cleanupIfIdle_cases (s : System) :
  this (snd (cleanupIfIdle env s)) = this s \/
  players (this (snd (cleanupIfIdle env s))) = PlayerMap.empty.
Proof.
  unfold cleanupIfIdle. run_monad.
  destruct (sessionId (this s)) as [sid |]; [| left; reflexivity].
  destruct (JsString.isEmpty sid); [left; reflexivity |].
  destruct (Nat.eqb (PlayerMap.size (players (this s))) 0); [left; reflexivity |].
  run_monad.
  destruct (_ <? SESSION_IDLE_TIMEOUT_MS)%Z; run_monad; [left | right]; reflexivity.
Qed.

(** *** An invariant of the combat state, in memory and in storage *)

Section Preservation.
Variables I J : CombatState -> Prop.
Hypothesis I_J : forall cb, I cb -> J cb.
Hypothesis I_default : I defaultCombatState.
Hypothesis I_apply :
  forall text ps cb, I cb -> I (snd (EffectResolver.apply text ps cb)).
Hypothesis I_end : forall cb, I cb -> I (EffectResolver.checkCombatEnd cb).
Hypothesis I_start : forall enemies order, I (mkCombat true order (Num 0) enemies).
Hypothesis I_next : forall cb, I cb -> I (nextTurnOf cb).

Lemma settleAction_holds (player : Player.t) (action : string)
      (narration : NarrationResult) (s : System) :
  holds I J s -> holds I J (snd (settleAction env player action narration s)).
Proof.
  intros [Hc Hs]. unfold settleAction.
  destruct (degraded narration); cbn [negb]; run_monad.
  - split; auto. intros snap E. inversion E; subst. apply I_J, Hc.
  - pose proof (I_apply (text narration) (players (this s)) Hc) as Ha.
    destruct (EffectResolver.apply (text narration) (players (this s))
                                   (combat (this s))) as [ps' cb'].
    cbn [snd] in Ha. run_monad.
    match goal with
    | |- context [if ?b then _ else _] => destruct b
    end; run_monad.
    + split; [apply I_next; exact Ha |].
      intros snap E. inversion E; subst. cbn [snapCombat].
      apply I_J, I_next; exact Ha.
    + split; [exact Ha |]. intros snap E. inversion E; subst. apply I_J, Ha.
Qed.

Lemma handleAction_holds (body : option ActionPayload) (s : System) :
  holds I J s -> holds I J (snd (handleAction env body s)).
Proof.
  intros [Hc Hs]. unfold handleAction.
  destruct body as [payload |]; [| split; auto].
  run_monad.
  destruct (PlayerMap.get (players (this s)) (actPlayerId payload)) as [player |];
    [| split; auto].
  destruct (isEndCommand (playerAction payload)).
  - run_monad. split; auto. intros snap E. inversion E; subst.
    apply I_J, I_default.
  - match goal with
    | |- context [narrate env ?d ?c ?p ?a ?s0] =>
        destruct (narrate env d c p a s0) as [narration s1] eqn:En
    end.
    apply narrate_frame in En. destruct En as (Ht & Hst & _).
    apply settleAction_holds. split.
    + rewrite Ht. exact Hc.
    + intros snap E. rewrite Hst in E. auto.
Qed.

Lemma handleJoin_holds (body : option JoinPayload) (s : System) :
  holds I J s -> holds I J (snd (handleJoin env body s)).
Proof.
  intros [Hc Hs]. unfold handleJoin.
  destruct body as [payload |]; [| split; auto].
  run_monad.
  destruct (PlayerMap.get (players (this s)) (joinPlayerId payload)) as [existing |].
  - destruct (negb (String.eqb (Player.name existing) (joinName payload)));
      run_monad;
      destruct (Nat.eqb (PlayerMap.size (players (this s))) 0); run_monad;
      (split; [exact Hc | intros snap E; inversion E; subst; apply I_J, Hc]).
  - run_monad.
    destruct (Nat.eqb (PlayerMap.size (players (this s))) 0); run_monad;
      (split; [exact Hc | intros snap E; inversion E; subst; apply I_J, Hc]).
Qed.

Lemma handleState_holds (s : System) :
  holds I J s -> holds I J (snd (handleState env s)).
Proof.
  intros [Hc Hs]. unfold handleState. run_monad.
  split; [exact Hc | intros snap E; inversion E; subst; apply I_J, Hc].
Qed.

Lemma resetState_holds (s : System) :
  holds I J s -> holds I J (snd (resetState env s)).
Proof. intros [Hc Hs]. run_monad. split; auto. Qed.

Lemma cleanupIfIdle_holds (s : System) :
  holds I J s -> holds I J (snd (cleanupIfIdle env s)).
Proof.
  intros [Hc Hs]. unfold cleanupIfIdle. run_monad.
  destruct (sessionId (this s)) as [sid |]; [| split; auto].
  destruct (JsString.isEmpty sid); [split; auto |].
  destruct (Nat.eqb (PlayerMap.size (players (this s))) 0); [split; auto |].
  run_monad.
  destruct (_ <? SESSION_IDLE_TIMEOUT_MS)%Z; run_monad; [split; auto |].
  split; auto. intros snap E. inversion E; subst. apply I_J, I_default.
Qed.

Lemma fetch_holds (request : Request) (s : System) :
  holds I J s -> holds I J (snd (fetch env request s)).
Proof.
  intros H. unfold fetch. unfold bind at 1.
  pose proof (cleanupIfIdle_holds H) as Hc.
  destruct (cleanupIfIdle env s) as [[] s1]. cbn [snd] in Hc.
  destruct request.
  - apply handleJoin_holds, Hc.
  - apply handleState_holds, Hc.
  - apply handleAction_holds, Hc.
  - exact Hc.
Qed.

Lemma hydrate_holds (startedAt : Z) (w : World) :
  (forall cb, J cb -> I cb) ->
  (forall snap, stored w = Some snap -> J (snapCombat snap)) ->
  holds I J (hydrate startedAt w).
Proof.
  intros HJ Hs. unfold hydrate.
  destruct (stored w) as [snap |] eqn:E; split; cbn; auto.
  - rewrite E. exact Hs.
  - rewrite E. exact Hs.
Qed.

Lemma run_holds (op : Operation) (s : System) :
  holds I J s -> holds I J (run env op s).
Proof.
  intros H. destruct op; cbn [run].
  - apply fetch_holds, H.
  - apply handleJoin_holds, H.
  - apply handleAction_holds, H.
  - apply handleState_holds, H.
  - destruct H as [Hc Hs]. run_monad.
    pose proof (I_apply dmText (players (this s)) Hc) as Ha.
    destruct (EffectResolver.apply dmText (players (this s)) (combat (this s)))
      as [ps' cb'].
    cbn [snd] in Ha. run_monad. split; auto.
  - destruct H as [Hc Hs]. run_monad. split; [apply I_start | exact Hs].
  - destruct H as [Hc Hs]. run_monad. split; [apply I_end; exact Hc | exact Hs].
  - destruct H as [Hc Hs]. run_monad. split; [apply I_next; exact Hc | exact Hs].
  - apply resetState_holds, H.
  - apply cleanupIfIdle_holds, H.
Qed.

Lemma reachable_holds (s : System) :
  (forall cb, J cb -> I cb) -> reachable env s -> holds I J s.
Proof.
  intros HJ. induction 1 as [startedAt | s request _ IH | s startedAt _ IH].
  - apply hydrate_holds; auto. cbn. discriminate.
  - apply fetch_holds, IH.
  - apply hydrate_holds; auto. apply IH.
Qed.
End Preservation.

End CoordinatorFacts.


(* ================================================================== *)
(** ** Facts about joins and combat detection *)
(* ================================================================== *)

Unset Implicit Arguments.

Module PlayerMapFacts.
Import PlayerMap.

Lemma get_set_same (m : t) (k : string) (v : Player.t) : get (set m k v) k = Some v.
Proof.
  induction m as [| [k' v'] rest IH]; simpl.
  - rewrite String.eqb_refl. reflexivity.
  - destruct (String.eqb k' k) eqn:E; simpl; rewrite E; auto.
Qed.

Lemma set_new (m : t) (k : string) (v : Player.t) :
  get m k = None -> set m k v = (m ++ [(k, v)])%list.
Proof.
  induction m as [| [k' v'] rest IH]; simpl; auto.
  destruct (String.eqb k' k); [discriminate |].
  intros H. rewrite IH; auto.
Qed.

Lemma get_rename (m : t) (k name : string) :
  get (rename k name m) k = option_map (Player.setName name) (get m k).
Proof.
  unfold rename.
  induction m as [| [k' v'] rest IH]; simpl; auto.
  destruct (String.eqb k' k) eqn:E; simpl.
  - rewrite E. reflexivity.
  - destruct (findIndex (fun kv => String.eqb (fst kv) k) rest) as [i |]; simpl in *;
      rewrite E; exact IH.
Qed.

Lemma keys_rename (m : t) (k name : string) : keys (rename k name m) = keys m.
Proof.
  unfold rename. destruct (findIndex _ m); auto.
  unfold keys, assign. apply mutate_map. reflexivity.
Qed.

Lemma get_in_keys (m : t) (k : string) (v : Player.t) :
  get m k = Some v -> In k (keys m).
Proof.
  induction m as [| [k' v'] rest IH]; simpl; [discriminate |].
  destruct (String.eqb k' k) eqn:E; auto.
  apply String.eqb_eq in E. auto.
Qed.

Lemma get_none_count (m : t) (k : string) :
  get m k = None -> count_occ string_dec (keys m) k = 0.
Proof.
  induction m as [| [k' v'] rest IH]; simpl; auto.
  destruct (String.eqb k' k) eqn:E; [discriminate |].
  apply String.eqb_neq in E. destruct (string_dec k' k); [contradiction | auto].
Qed.

Lemma get_nonempty (m : t) (k : string) (v : Player.t) :
  get m k = Some v -> Nat.eqb (size m) 0 = false.
Proof. destruct m; simpl; [discriminate | reflexivity]. Qed.
End PlayerMapFacts.

Section JoinFacts.
Variable env : Env.

(** What the first of two identical joins leaves behind. *)
Lemma handleJoin_registers (payload : JoinPayload) (s : System) :
  exists p,
    PlayerMap.get (players (this (snd (handleJoin env (Some payload) s))))
                  (joinPlayerId payload) = Some p /\
    Player.name p = joinName payload.
Proof.
  unfold handleJoin. run_monad.
  destruct (PlayerMap.get (players (this s)) (joinPlayerId payload)) as [existing |] eqn:E.
  - destruct (String.eqb (Player.name existing) (joinName payload)) eqn:En;
      cbn [negb]; run_monad.
    + destruct (Nat.eqb (PlayerMap.size (players (this s))) 0); run_monad;
        exists existing; split; auto; apply String.eqb_eq, En.
    + destruct (Nat.eqb (PlayerMap.size (players (this s))) 0); run_monad;
        rewrite PlayerMapFacts.get_rename, E; eexists; split; reflexivity.
  - run_monad.
    destruct (Nat.eqb (PlayerMap.size (players (this s))) 0); run_monad;
      rewrite PlayerMapFacts.get_set_same; eexists; split; reflexivity.
Qed.

Lemma handleJoin_response (payload : JoinPayload) (s : System) :
  fst (handleJoin env (Some payload) s)
    = JoinResponse (getPlayers (this (snd (handleJoin env (Some payload) s))))
                   (getRecentMessages (this (snd (handleJoin env (Some payload) s)))).
Proof.
  unfold handleJoin. run_monad.
  destruct (PlayerMap.get (players (this s)) (joinPlayerId payload)) as [existing |].
  - destruct (negb (String.eqb (Player.name existing) (joinName payload)));
      run_monad;
      destruct (Nat.eqb (PlayerMap.size (players (this s))) 0); reflexivity.
  - run_monad.
    destruct (Nat.eqb (PlayerMap.size (players (this s))) 0); reflexivity.
Qed.

(** A join under an id that is present with the same name. *)
Lemma handleJoin_again (payload : JoinPayload) (s : System) (p : Player.t) :
  PlayerMap.get (players (this s)) (joinPlayerId payload) = Some p ->
  Player.name p = joinName payload ->
  players (this (snd (handleJoin env (Some payload) s))) = players (this s) /\
  messages (this (snd (handleJoin env (Some payload) s))) = messages (this s) /\
  registryCalls (world (snd (handleJoin env (Some payload) s)))
    = registryCalls (world s).
Proof.
  intros Hget Hname. unfold handleJoin. run_monad. rewrite Hget.
  rewrite Hname, String.eqb_refl. cbn [negb]. run_monad.
  rewrite (PlayerMapFacts.get_nonempty _ _ _ Hget). run_monad. auto.
Qed.
End JoinFacts.

(** *** The resolver on run-time values *)

Set Implicit Arguments.

Module JsFacts.
Import Js.

Lemma nearest_small (m : Z) : (0 <= m < 2 ^ 53)%Z -> nearest m = m.
Proof.
  intros [H0 H1]. unfold nearest. cbv zeta.
  assert (Hlog : (Z.log2 m < 53)%Z).
  { destruct (Z.eq_dec m 0) as [-> |Hne]; [reflexivity |].
    apply Z.log2_lt_pow2; lia. }
  destruct (Z.leb_spec (Z.log2 m + 1 - 53) 0); [reflexivity | lia].
Qed.

Lemma nearest_nonneg (m : Z) : (0 <= m)%Z -> (0 <= nearest m)%Z.
Proof.
  intros H. unfold nearest. cbv zeta.
  destruct (Z.leb_spec (Z.log2 m + 1 - 53) 0); [exact H |].
  apply Z.shiftl_nonneg.
  assert (0 <= Z.shiftr m (Z.log2 m + 1 - 53))%Z by (apply Z.shiftr_nonneg; exact H).
  destruct (_ || _); lia.
Qed.

Lemma ofInteger_exact (z : Z) : (- 2 ^ 53 < z < 2 ^ 53)%Z -> ofInteger z = Finite z.
Proof.
  intros H. unfold ofInteger. cbv zeta.
  rewrite nearest_small by lia.
  assert (Hbig : (2 ^ 53 < 2 ^ 1024)%Z) by (apply Z.pow_lt_mono_r; lia).
  destruct (Z.leb_spec (2 ^ 1024) (Z.abs z)); [lia |].
  f_equal. destruct z; simpl; lia.
Qed.

Lemma max0_ofInteger_nonpos (z : Z) : (z <= 0)%Z -> max0 (ofInteger z) = Finite 0.
Proof.
  intros H. unfold ofInteger. cbv zeta.
  pose proof (nearest_nonneg (Z.abs_nonneg z)) as Hv.
  destruct (2 ^ 1024 <=? nearest (Z.abs z))%Z eqn:E.
  - destruct (Z.ltb_spec z 0); [reflexivity |].
    assert (z = 0%Z) by lia. subst z. vm_compute in E. discriminate.
  - cbn [max0]. f_equal.
    assert (Hs : (Z.sgn z <= 0)%Z) by (apply Z.sgn_nonpos; exact H).
    assert (Z.sgn z * nearest (Z.abs z) <= 0)%Z by nia. lia.
Qed.

(** Damage to a health that a double holds exactly. *)
Lemma max0_sub (h d : Z) :
  (h < 2 ^ 53)%Z -> (0 < d)%Z ->
  max0 (sub (Finite h) (Finite d)) = Finite (Z.max 0 (h - d)).
Proof.
  intros Hh Hd. cbn [sub].
  destruct (Z.le_gt_cases (h - d) 0) as [Hle|Hgt].
  - rewrite max0_ofInteger_nonpos by exact Hle. f_equal. lia.
  - rewrite ofInteger_exact by lia. reflexivity.
Qed.

End JsFacts.

Module ResolverFacts.
Import Resolver.




















End ResolverFacts.

(** *** The two resolvers agree on tame narrations *)

Module AgreementFacts.

Lemma nested_fold_rel (A A' B C : Type) (R : A -> A' -> Prop)
      (f : C -> A -> B -> A) (f' : C -> A' -> B -> A') (ms : C -> list B)
      (ok : B -> bool) (ps : list C) :
  (forall p b x x', R x x' -> ok b = true -> R (f p x b) (f' p x' b)) ->
  forallb (fun p => forallb ok (ms p)) ps = true ->
  forall a a', R a a' ->
  R (fold_left (fun acc p => fold_left (f p) (ms p) acc) ps a)
    (fold_left (fun acc p => fold_left (f' p) (ms p) acc) ps a').
Proof.
  intros Hstep. induction ps as [| p ps IH]; intros Hok a a' Ha; simpl; [exact Ha |].
  simpl in Hok. apply andb_true_iff in Hok. destruct Hok as [Hp Hps].
  apply IH; [exact Hps |].
  clear IH Hps. revert a a' Ha.
  induction (ms p) as [| b l IHl]; intros a a' Ha; simpl; [exact Ha |].
  simpl in Hp. apply andb_true_iff in Hp. destruct Hp as [Hb Hl].
  apply IHl; [exact Hl |]. apply Hstep; assumption.
Qed.

Lemma hpMap_small (k : string) (v : Z) :
  EffectResolver.lookup EffectResolver.hpMap k = Some v -> (v < 2 ^ 53)%Z.
Proof.
  assert (H : Forall (fun kv => (snd kv < 2 ^ 53)%Z) EffectResolver.hpMap)
    by (repeat constructor).
  induction H as [| [k' v'] t Hv Ht IH]; simpl; [discriminate |].
  destruct (String.eqb k' k); auto.
  intros E; inversion E; subst. exact Hv.
Qed.

Lemma getDefaultEnemyHp_agrees (name : string) :
  existsb (String.eqb (JsString.toLowerCase name)) Js.objectPrototype = false ->
  Resolver.getDefaultEnemyHp name
  = Js.Number (Js.Finite (EffectResolver.getDefaultEnemyHp name)) /\
  (EffectResolver.getDefaultEnemyHp name < 2 ^ 53)%Z.
Proof.
  intros Hown.
  unfold Resolver.getDefaultEnemyHp, EffectResolver.getDefaultEnemyHp, Js.get. cbv zeta.
  destruct (EffectResolver.lookup EffectResolver.hpMap (JsString.toLowerCase name))
    as [v |] eqn:E.
  - apply hpMap_small in E. cbn [Js.or].
    destruct (v =? 0)%Z; split; try reflexivity; exact E.
  - rewrite Hown. split; reflexivity.
Qed.

Lemma parseInt_small (digits : string) (n : Z) :
  smallNumeral digits = true -> JsString.parseInt digits = Some n ->
  Js.parseInt digits = Js.Finite n /\ (n < 2 ^ 53)%Z.
Proof.
  unfold smallNumeral, Js.parseInt. intros Hs E. rewrite E in *.
  apply Z.ltb_lt in Hs. split; [apply JsFacts.ofInteger_exact |]; lia.
Qed.

Lemma parseInt_none (digits : string) :
  JsString.parseInt digits = None -> Js.parseInt digits = Js.NotANumber.
Proof. unfold Js.parseInt. intros ->. reflexivity. Qed.

Lemma enemyOfMatch_agrees (m : RegExp.Match) :
  tameMention m = true ->
  Resolver.enemyOfMatch m = enemyValue (EffectResolver.enemyOfMatch m) /\
  exact (EffectResolver.enemyOfMatch m).
Proof.
  unfold tameMention, mentioned. intros H. apply andb_true_iff in H.
  destruct H as [Hs Ho]. apply negb_true_iff in Ho.
  destruct (getDefaultEnemyHp_agrees _ Ho) as [Hd Hb].
  unfold Resolver.enemyOfMatch, EffectResolver.enemyOfMatch, enemyValue, exact.
  cbv zeta. cbn [Enemy.name Enemy.hp].
  assert (Hg : EffectResolver.groupOf m 2
               = match RegExp.group m 2 with Some s => s | None => "" end)
    by reflexivity.
  rewrite Hg in *. clear Hg.
  destruct (RegExp.group m 2) as [digits |].
  - destruct (JsString.isEmpty digits) eqn:Ee; cbn [negb andb].
    + rewrite Hd. split; [reflexivity | exact Hb].
    + destruct (JsString.parseInt digits) as [n |] eqn:Ep.
      * destruct (parseInt_small _ Hs Ep) as [-> Hn]. cbn [Js.isNaN negb].
        split; [reflexivity | exact Hn].
      * rewrite (parseInt_none _ Ep). cbn [Js.isNaN negb].
        rewrite Hd. split; [reflexivity | exact Hb].
  - cbn [JsString.isEmpty negb andb]. rewrite Hd. split; [reflexivity | exact Hb].
Qed.

Lemma addEnemy_agrees (acc : list Enemy.t * list string)
      (acc' : list Resolver.Enemy * list string) (m : RegExp.Match) :
  sameFound acc acc' -> tameMention m = true ->
  sameFound (EffectResolver.addEnemy acc m) (Resolver.addEnemy acc' m).
Proof.
  intros [-> Hex] Ht. destruct acc as [es keys]. cbn [fst snd] in *.
  destruct (enemyOfMatch_agrees m Ht) as [He Hb].
  unfold Resolver.addEnemy, EffectResolver.addEnemy. cbv beta iota zeta.
  rewrite He. cbn [Resolver.name enemyValue].
  destruct (negb _ && _).
  - split; cbn [fst snd].
    + rewrite map_app. reflexivity.
    + apply Forall_app. split; [exact Hex | repeat constructor; exact Hb].
  - split; [reflexivity | exact Hex].
Qed.

Lemma scanEnemies_agrees (text : string) :
  forallb (fun pattern => forallb tameMention (RegExp.matchAll text pattern))
          EffectResolver.enemyPatterns = true ->
  Resolver.scanEnemies text = map enemyValue (EffectResolver.scanEnemies text) /\
  Forall exact (EffectResolver.scanEnemies text).
Proof.
  intros Ht. unfold Resolver.scanEnemies, EffectResolver.scanEnemies.
  pose proof (@nested_fold_rel _ _ _ _ sameFound
                (fun _ => EffectResolver.addEnemy) (fun _ => Resolver.addEnemy)
                (fun pattern => RegExp.matchAll text pattern) tameMention
                EffectResolver.enemyPatterns
                (fun p b x x' Hx Hb => @addEnemy_agrees x x' b Hx Hb) Ht
                ([], []) ([], [])) as H.
  destruct H as [H1 H2]; [split; [reflexivity | constructor] |].
  rewrite H1. split; [reflexivity | exact H2].
Qed.

Lemma findIndex_map (A B : Type) (f : A -> B) (p : B -> bool) (l : list A) :
  findIndex p (map f l) = findIndex (fun x => p (f x)) l.
Proof.
  induction l as [| x l IH]; simpl; [reflexivity |].
  destruct (p (f x)); [reflexivity |]. rewrite IH. reflexivity.
Qed.

Lemma findEnemyByName_agrees (es : list Enemy.t) (n : string) :
  Resolver.findEnemyByName (map enemyValue es) n = EffectResolver.findEnemyByName es n.
Proof.
  unfold Resolver.findEnemyByName, EffectResolver.findEnemyByName. cbv zeta.
  rewrite !findIndex_map. reflexivity.
Qed.

Lemma hurtEnemy_agrees (d : Z) (e : Enemy.t) :
  (0 < d)%Z -> exact e ->
  Resolver.hurtEnemy (Js.Finite d) (enemyValue e) = enemyValue (EffectResolver.hurtEnemy d e) /\
  exact (EffectResolver.hurtEnemy d e).
Proof.
  unfold exact. intros Hd He.
  unfold Resolver.hurtEnemy, EffectResolver.hurtEnemy, Enemy.setHp, enemyValue.
  cbn [Resolver.name Resolver.hp Js.toNumber Enemy.name Enemy.hp].
  rewrite JsFacts.max0_sub by assumption. split; [reflexivity | lia].
Qed.

Lemma mutate_agrees (d : Z) (i : nat) (es : list Enemy.t) :
  (0 < d)%Z -> Forall exact es ->
  mutate i (Resolver.hurtEnemy (Js.Finite d)) (map enemyValue es)
  = map enemyValue (mutate i (EffectResolver.hurtEnemy d) es) /\
  Forall exact (mutate i (EffectResolver.hurtEnemy d) es).
Proof.
  intros Hd. revert i. induction es as [| e es IH]; intros i H; simpl.
  - split; [reflexivity | constructor].
  - inversion H; subst. destruct i as [| i]; simpl.
    + destruct (@hurtEnemy_agrees d e Hd) as [-> Hb]; [assumption |].
      split; [reflexivity | constructor; assumption].
    + destruct (IH i) as [-> Hb]; [assumption |].
      split; [reflexivity | constructor; assumption].
Qed.

Lemma amount_agrees (digits : string) :
  smallNumeral digits = true ->
  match JsString.parseInt digits with
  | Some d =>
      Js.parseInt digits = Js.Finite d
  | None => Js.parseInt digits = Js.NotANumber
  end.
Proof.
  intros Hs. destruct (JsString.parseInt digits) as [d |] eqn:E.
  - exact (proj1 (parseInt_small _ Hs E)).
  - exact (parseInt_none _ E).
Qed.

Lemma enemyDamageStep_agrees (pattern : RegExp.t) (m : RegExp.Match)
      (es : list Enemy.t) (es' : list Resolver.Enemy) :
  sameEnemies es es' -> tameDamage m = true ->
  sameEnemies (EffectResolver.enemyDamageStep pattern es m)
              (Resolver.enemyDamageStep pattern es' m).
Proof.
  intros [-> Hex] Ht. unfold tameDamage in Ht. apply andb_true_iff in Ht.
  destruct Ht as [H1 H2].
  pose proof (amount_agrees _ H1) as A1. pose proof (amount_agrees _ H2) as A2.
  unfold Resolver.enemyDamageStep, EffectResolver.enemyDamageStep.
  destruct (_ || _).
  - destruct (option_map JsString.trim (RegExp.group m 2)) as [n |];
      [| split; [reflexivity | exact Hex]].
    destruct (JsString.parseInt (EffectResolver.groupOf m 1)) as [d |].
    + rewrite A1. cbn [Js.isFinite Js.positive]. rewrite andb_true_r.
      destruct (negb (JsString.isEmpty n) && (0 <? d)%Z) eqn:Eg;
        [| split; [reflexivity | exact Hex]].
      apply andb_true_iff in Eg. destruct Eg as [_ Hd]. apply Z.ltb_lt in Hd.
      rewrite findEnemyByName_agrees.
      destruct (EffectResolver.findEnemyByName es n) as [i |];
        [| split; [reflexivity | exact Hex]].
      apply mutate_agrees; assumption.
    + rewrite A1. cbn [Js.isFinite]. rewrite andb_false_r. cbn [andb].
      split; [reflexivity | exact Hex].
  - destruct (option_map JsString.trim (RegExp.group m 1)) as [n |];
      [| split; [reflexivity | exact Hex]].
    destruct (JsString.parseInt (EffectResolver.groupOf m 2)) as [d |].
    + rewrite A2. cbn [Js.isFinite Js.positive]. rewrite andb_true_r.
      destruct (negb (JsString.isEmpty n) && (0 <? d)%Z) eqn:Eg;
        [| split; [reflexivity | exact Hex]].
      apply andb_true_iff in Eg. destruct Eg as [_ Hd]. apply Z.ltb_lt in Hd.
      rewrite findEnemyByName_agrees.
      destruct (EffectResolver.findEnemyByName es n) as [i |];
        [| split; [reflexivity | exact Hex]].
      apply mutate_agrees; assumption.
    + rewrite A2. cbn [Js.isFinite]. rewrite andb_false_r. cbn [andb].
      split; [reflexivity | exact Hex].
Qed.

Lemma filter_alive_agrees (es : list Enemy.t) :
  filter Resolver.alive (map enemyValue es) = map enemyValue (filter EffectResolver.alive es).
Proof.
  induction es as [| e es IH]; simpl; [reflexivity |].
  change (Resolver.alive (enemyValue e)) with (EffectResolver.alive e).
  destruct (EffectResolver.alive e); simpl; rewrite IH; reflexivity.
Qed.

Lemma checkCombatEnd_agrees (cb : CombatState) :
  Resolver.checkCombatEnd (combatValue cb) = combatValue (EffectResolver.checkCombatEnd cb).
Proof.
  unfold Resolver.checkCombatEnd, EffectResolver.checkCombatEnd.
  cbn [Resolver.active Resolver.enemies combatValue].
  destruct (active cb); cbn [negb]; [| reflexivity].
  rewrite filter_alive_agrees, length_map.
  destruct (Nat.eqb _ 0); reflexivity.
Qed.

End AgreementFacts.

(** The two resolvers agree on a tame narration: from a combat state
    whose healths a double holds, the resolver on run-time values leaves
    the combat state that the resolver on integers leaves, and again
    healths that a double holds. *)
Lemma resolvers_agree (text : string) (ps : PlayerMap.t) (cb : CombatState) :
  tame text = true -> Forall exact (enemies cb) ->
  Resolver.apply text ps (combatValue cb)
  = combatValue (snd (EffectResolver.apply text ps cb)) /\
  Forall exact (enemies (snd (EffectResolver.apply text ps cb))).
Proof.
  intros Ht Hex. unfold tame in Ht. apply andb_true_iff in Ht. destruct Ht as [Hm Hd].
  unfold Resolver.apply, EffectResolver.apply. cbv zeta. cbn [snd].
  (* detection *)
  assert (H1 : Resolver.detectCombatScenarios text ps (combatValue cb)
               = combatValue (EffectResolver.detectCombatScenarios text ps cb) /\
               Forall exact (enemies (EffectResolver.detectCombatScenarios text ps cb))).
  { unfold Resolver.detectCombatScenarios, EffectResolver.detectCombatScenarios.
    cbn [Resolver.active combatValue].
    destruct (active cb); [split; [reflexivity | exact Hex] |].
    destruct (negb (EffectResolver.hasCombatTrigger text));
      [split; [reflexivity | exact Hex] |].
    destruct (AgreementFacts.scanEnemies_agrees text Hm) as [-> Hb].
    rewrite length_map.
    destruct (Nat.ltb 0 (List.length (EffectResolver.scanEnemies text)));
      [| split; [reflexivity | exact Hex]].
    split; [| exact Hb].
    unfold combatValue. cbn [active turnOrder currentTurnIndex enemies].
    rewrite map_map. reflexivity. }
  destruct H1 as [-> Hex1].
  set (cb1 := EffectResolver.detectCombatScenarios text ps cb) in *.
  (* enemy damage *)
  assert (H2 : Resolver.applyEnemyDamage text (combatValue cb1)
               = combatValue (EffectResolver.applyEnemyDamage text cb1) /\
               Forall exact (enemies (EffectResolver.applyEnemyDamage text cb1))).
  { unfold Resolver.applyEnemyDamage, EffectResolver.applyEnemyDamage.
    cbn [Resolver.active Resolver.enemies Resolver.turnOrder Resolver.currentTurnIndex
         combatValue].
    rewrite length_map.
    destruct (negb (active cb1) || Nat.eqb (List.length (enemies cb1)) 0);
      [split; [reflexivity | exact Hex1] |].
    pose proof (@AgreementFacts.nested_fold_rel _ _ _ _ sameEnemies
                  EffectResolver.enemyDamageStep Resolver.enemyDamageStep
                  (fun pattern => RegExp.matchAll text pattern) tameDamage
                  EffectResolver.enemyDamagePatterns
                  (fun p b x x' Hx Hb => @AgreementFacts.enemyDamageStep_agrees p b x x' Hx Hb)
                  Hd (enemies cb1) (map enemyValue (enemies cb1))) as H.
    destruct H as [H Hb]; [split; [reflexivity | exact Hex1] |].
    rewrite H. split; [reflexivity | exact Hb]. }
  destruct H2 as [-> Hex2].
  rewrite AgreementFacts.checkCombatEnd_agrees. split; [reflexivity |].
  unfold EffectResolver.checkCombatEnd.
  destruct (negb _); [exact Hex2 |].
  destruct (Nat.eqb _ 0); [constructor | exact Hex2].
Qed.

(** A short fight is tame; a narration that names a constructor, or states
    a health of 10^309, is not. *)
Example tame_narrations :
  tame Scenario.shortFight = true /\
  tame Scenario.ambush = true /\
  tame Encounters.constructorText = false /\
  tame Encounters.boundless = false.
Proof. repeat split; vm_compute; reflexivity. Qed.

Unset Implicit Arguments.

(* ================================================================== *)
(** ** The stated properties *)
(* ================================================================== *)

(** The phrase "deals 7 damage to Goblin" under the enemy-damage patterns:
    the first pattern matches the whole phrase, the third its tail. *)
Lemma goblin_phrase_matches_twice :
  map (fun mt => (RegExp.whole mt, RegExp.group mt 1, RegExp.group mt 2))
      (RegExp.matchAll Scenario.thiaText
         (RegExp.literal "deals\s+(\d+)\s+(?:points?\s+of\s+)?damage\s+to\s+(?:the\s+)?([A-Za-z][A-Za-z ']*)" "gi"))
    = [("deals 7 damage to Goblin", Some "7", Some "Goblin")] /\
  map (fun mt => (RegExp.whole mt, RegExp.group mt 1, RegExp.group mt 2))
      (RegExp.matchAll Scenario.thiaText
         (RegExp.literal "(\d+)\s+(?:points?\s+of\s+)?damage\s+to\s+(?:the\s+)?([A-Za-z][A-Za-z ']*)" "gi"))
    = [("7 damage to Goblin", Some "7", Some "Goblin")] /\
  nth_error EffectResolver.enemyDamagePatterns 0
    = Some (RegExp.literal "deals\s+(\d+)\s+(?:points?\s+of\s+)?damage\s+to\s+(?:the\s+)?([A-Za-z][A-Za-z ']*)" "gi") /\
  nth_error EffectResolver.enemyDamagePatterns 2
    = Some (RegExp.literal "(\d+)\s+(?:points?\s+of\s+)?damage\s+to\s+(?:the\s+)?([A-Za-z][A-Za-z ']*)" "gi").
Proof. repeat split; vm_compute; reflexivity. Qed.

(** Claim C1, evaluated on the code.  The scenario of the claim: a player
    named "Thia" at 20 health, an active combat whose only enemy is
    "Goblin" at 12 health, and the narration "Thia takes 5 damage. The
    hero deals 7 damage to Goblin.".  Thia ends at 15 as claimed.  The
    goblin does not end at 5: the phrase "deals 7 damage to Goblin" is
    matched by the first enemy pattern and its tail "7 damage to Goblin"
    by the third, so the enemy-damage step leaves the goblin at 0 and the
    combat-end check then empties the enemy list and closes the combat.
    This holds whatever the player's id and inventory and the combat's
    turn order and index are. *)
Theorem C1_goblin_damage_counted_twice (id : string) (inventory order : list string)
        (index : number) :
  let players := [(id, Scenario.thia id inventory)] in
  let combat := Scenario.goblinFight order index in
  enemies (EffectResolver.applyEnemyDamage Scenario.thiaText combat)
    = [Enemy.mk "Goblin" 0] /\
  EffectResolver.apply Scenario.thiaText players combat
    = ([(id, Player.mk id "Thia" 15 inventory)], defaultCombatState).
Proof.
  cbv zeta. split.
  - vm_compute. reflexivity.
  - vm_compute. reflexivity.
Qed.

(** Claim C2 fails on the code.  With no fight on and Thia at 20, the
    narration "A goblin appears and a constructor attacks!" starts a
    fight with a goblin at 7 and a Constructor whose health is no number
    at all: the table of defaults has no entry "constructor", so the
    read finds the function every object inherits under that name, and
    [hpMap[name] || 15] keeps it.  The fight stays on (the goblin is
    alive); when a later narration deals the Constructor 3 damage, its
    health becomes NaN.  And a stated health of 10^309 is read as
    Infinity, which the detection's test for NaN lets through. *)
Theorem C2_enemy_health_is_no_number :
  let fight :=
    Resolver.apply Encounters.constructorText Scenario.party Resolver.defaultCombatState in
  playersHealthy Scenario.party /\
  fight = Resolver.mkCombat true ["Thia"; "Goblin"; "Constructor"] (Num 0)
            [Resolver.mkEnemy "Goblin" (Js.Number (Js.Finite 7));
             Resolver.mkEnemy "Constructor" (Js.Inherited "constructor")] /\
  Resolver.enemies (Resolver.apply Encounters.constructorHit Scenario.party fight)
    = [Resolver.mkEnemy "Goblin" (Js.Number (Js.Finite 7));
       Resolver.mkEnemy "Constructor" (Js.Number Js.NotANumber)] /\
  Resolver.enemies
    (Resolver.apply Encounters.boundless Scenario.party Resolver.defaultCombatState)
    = [Resolver.mkEnemy "Goblin" (Js.Number Js.Infinity)].
Proof.
  cbv zeta. split; [| split; [| split]].
  - repeat constructor; simpl; lia.
  - vm_compute. reflexivity.
  - vm_compute. reflexivity.
  - vm_compute. reflexivity.
Qed.

(** Claim C3.  Degraded narration never touches the game state.  First
    conjunct: whatever narration result with [degraded = true] reaches the
    part of the act operation that follows the narration call, with any
    text at all, damaging phrases included, the player map (health and
    inventory of every player) and the combat state (enemy list, turn
    order, index, active flag) are left exactly as they were.  Second
    conjunct: whenever an act operation answers with [degraded = true],
    the player map and the combat state after it are those before it.
    Third conjunct: the same for an act request served through [fetch],
    idle clean-up included. *)
Theorem C3_degraded_narration_changes_nothing (env : Env) (s : System) :
  (forall (player : Player.t) (action : string) (narration : NarrationResult),
      degraded narration = true ->
      players (this (snd (settleAction env player action narration s)))
        = players (this s) /\
      combat (this (snd (settleAction env player action narration s)))
        = combat (this s)) /\
  (forall body : option ActionPayload,
      isDegraded (fst (handleAction env body s)) = true ->
      players (this (snd (handleAction env body s))) = players (this s) /\
      combat (this (snd (handleAction env body s))) = combat (this s)) /\
  (forall body : option ActionPayload,
      isDegraded (fst (fetch env (PostAction body) s)) = true ->
      players (this (snd (fetch env (PostAction body) s))) = players (this s) /\
      combat (this (snd (fetch env (PostAction body) s))) = combat (this s)).
Proof.
  assert (Hsettle : forall p a n s0,
             degraded n = true ->
             players (this (snd (settleAction env p a n s0))) = players (this s0) /\
             combat (this (snd (settleAction env p a n s0))) = combat (this s0)).
  { intros p a n s0 Hn. unfold settleAction. rewrite Hn. cbn [negb]. run_monad. auto. }
  split; [intros player action narration; apply Hsettle |].
  assert (Hact : forall s0 body,
             isDegraded (fst (handleAction env body s0)) = true ->
             players (this (snd (handleAction env body s0))) = players (this s0) /\
             combat (this (snd (handleAction env body s0))) = combat (this s0)).
  2: { split; [apply Hact |].
       intros body. unfold fetch. unfold bind at 1 2 3.
       pose proof (cleanupIfIdle_cases env s) as Hclean.
       destruct (cleanupIfIdle env s) as [[] s1]. cbn [snd] in Hclean.
       intros Hresp. destruct Hclean as [Hsame | Hgone].
       - rewrite <- Hsame. apply Hact, Hresp.
       - exfalso. revert Hresp. unfold handleAction.
         destruct body as [payload |]; [| discriminate].
         run_monad. rewrite Hgone. discriminate. }
  clear s. intros s body Hresp.
  unfold handleAction in *.
  destruct body as [payload |]; [| discriminate].
  revert Hresp. run_monad.
  destruct (PlayerMap.get (players (this s)) (actPlayerId payload)) as [p |];
    [| discriminate].
  destruct (isEndCommand (playerAction payload)); [discriminate |].
  match goal with
  | |- context [narrate env ?d ?c ?q ?a ?s0] =>
      destruct (narrate env d c q a s0) as [n s1] eqn:En
  end.
  apply narrate_frame in En. destruct En as (Ht & _).
  intros Hresp.
  assert (Hn : degraded n = true).
  { revert Hresp. unfold settleAction. destruct (degraded n); auto.
    cbn [negb]. run_monad.
    destruct (EffectResolver.apply _ _ _) as [ps' cb']. run_monad.
    match goal with
    | |- context [if ?b then _ else _] => destruct b
    end; run_monad; discriminate. }
  destruct (Hsettle p (playerAction payload) n s1 Hn) as [H1 H2].
  rewrite H1, H2, Ht. auto.
Qed.

(** A degraded act in the middle of a fight, and canned text that talks
    of damage. *)
Lemma C3_witness :
  degraded Scenario.cannedDamage = true /\
  isDegraded (fst (handleAction Scenario.envTimeout (Some Scenario.attack)
                                Scenario.midFight)) = true /\
  (players (this (snd (settleAction Scenario.envTimeout
                         (Scenario.thia "p1" ["health potion"]) "I attack the orc"
                         Scenario.cannedDamage Scenario.midFight)))
     = Scenario.party /\
   combat (this (snd (settleAction Scenario.envTimeout
                        (Scenario.thia "p1" ["health potion"]) "I attack the orc"
                        Scenario.cannedDamage Scenario.midFight)))
     = Scenario.orcFight) /\
  (players (this (snd (handleAction Scenario.envTimeout (Some Scenario.attack)
                                    Scenario.midFight))) = Scenario.party /\
   combat (this (snd (handleAction Scenario.envTimeout (Some Scenario.attack)
                                   Scenario.midFight))) = Scenario.orcFight).
Proof.
  assert (Hd : degraded Scenario.cannedDamage = true) by reflexivity.
  assert (Hr : isDegraded (fst (handleAction Scenario.envTimeout (Some Scenario.attack)
                                             Scenario.midFight)) = true)
    by (vm_compute; reflexivity).
  split; [exact Hd |]. split; [exact Hr |].
  destruct (C3_degraded_narration_changes_nothing Scenario.envTimeout Scenario.midFight)
    as (Hany & Hact & _).
  split.
  - exact (Hany (Scenario.thia "p1" ["health potion"]) "I attack the orc"
                Scenario.cannedDamage Hd).
  - exact (Hact (Some Scenario.attack) Hr).
Defined.

(** Claim C4.  In every session state where the acting player has joined,
    an act operation whose action text matches the end-of-session pattern
    answers with [reset = true], an empty player list and the inactive,
    empty combat state; it leaves the coordinator with no player, no
    message and the default combat state, stores that empty snapshot,
    tells the registry to remove the session and never calls the
    narration backend. *)
Theorem C4_end_command_resets_session (env : Env) (s : System)
        (payload : ActionPayload) (player : Player.t) :
  PlayerMap.get (players (this s)) (actPlayerId payload) = Some player ->
  isEndCommand (playerAction payload) = true ->
  fst (handleAction env (Some payload) s)
    = ActionResponse "The game has ended. Thank you for playing!" None None true []
                     defaultCombatState /\
  players (this (snd (handleAction env (Some payload) s))) = PlayerMap.empty /\
  messages (this (snd (handleAction env (Some payload) s))) = [] /\
  combat (this (snd (handleAction env (Some payload) s))) = defaultCombatState /\
  (exists snap,
      stored (world (snd (handleAction env (Some payload) s))) = Some snap /\
      snapPlayers snap = [] /\ snapMessages snap = [] /\
      snapCombat snap = defaultCombatState) /\
  registryCalls (world (snd (handleAction env (Some payload) s)))
    = (registryCalls (world s) ++ [RegistryRemove (actSessionId payload)])%list /\
  aiCalls (world (snd (handleAction env (Some payload) s))) = aiCalls (world s).
Proof.
  intros Hget Hend. unfold handleAction. run_monad. rewrite Hget, Hend. run_monad.
  repeat split; auto.
  eexists. split; [reflexivity |]. cbn. auto.
Qed.

(** The action text ["  End Game "] in the middle of a fight. *)
Lemma C4_witness :
  PlayerMap.get (players (this Scenario.midFight)) (actPlayerId Scenario.endGame)
    = Some (Scenario.thia "p1" ["health potion"]) /\
  isEndCommand (playerAction Scenario.endGame) = true /\
  fst (handleAction Scenario.envGoblin (Some Scenario.endGame) Scenario.midFight)
    = ActionResponse "The game has ended. Thank you for playing!" None None true []
                     defaultCombatState /\
  players (this (snd (handleAction Scenario.envGoblin (Some Scenario.endGame)
                                   Scenario.midFight))) = PlayerMap.empty.
Proof.
  assert (Hget : PlayerMap.get (players (this Scenario.midFight))
                               (actPlayerId Scenario.endGame)
                 = Some (Scenario.thia "p1" ["health potion"])) by reflexivity.
  assert (Hend : isEndCommand (playerAction Scenario.endGame) = true)
    by (vm_compute; reflexivity).
  split; [exact Hget |]. split; [exact Hend |].
  pose proof (C4_end_command_resets_session Scenario.envGoblin Scenario.midFight
                Scenario.endGame (Scenario.thia "p1" ["health potion"]) Hget Hend)
    as (H1 & H2 & _).
  split; [exact H1 | exact H2].
Defined.

(** Claim C5, as amended.  Under a 2-attempt policy, when the backend
    rejects every call, [narrate] returns the fixed fallback text with
    [degraded = true]; the backend is invoked exactly twice when the first
    rejection is retryable (its message matches
    timeout|timed out|network|503|504) and exactly once otherwise, since
    an error that is not retryable ends the retry loop at once. *)
Theorem C5_two_attempt_policy (env : Env) (svc : DungeonMasterService)
        (context : SessionContext) (player : Player.t) (action : string)
        (s : System) (first : JsError) :
  maxAttempts svc = 2%Z ->
  (forall n request, exists error, backend env n request = Rejected error) ->
  backend env (aiCalls (world s)) (mkRequest context player action) = Rejected first ->
  fst (narrate env svc context player action s) = mkNarration FALLBACK_DM_TEXT "" true /\
  aiCalls (world (snd (narrate env svc context player action s)))
    = aiCalls (world s) + (if isRetryableError first then 2 else 1).
Proof.
  intros Hmax Hrej Hfirst.
  destruct (narrate env svc context player action s) as [r s'] eqn:Hrun.
  cbn [fst snd].
  unfold narrate in Hrun. rewrite Hmax in Hrun.
  change (Z.to_nat 2) with 2%nat in Hrun. cbn [narrateFrom] in Hrun.
  rewrite Hmax in Hrun.
  change (0 <? 2)%Z with true in Hrun. cbv iota in Hrun.
  unfold bind at 1 in Hrun. unfold ai_run at 1 in Hrun. rewrite Hfirst in Hrun.
  change (0 =? 2 - 1)%Z with false in Hrun. rewrite orb_false_r in Hrun.
  destruct (isRetryableError first); cbn [negb] in Hrun.
  - unfold bind at 1 in Hrun.
    destruct (backoff svc 0 _) as [[] s1] eqn:Eb.
    assert (Hs1 : aiCalls (world s1) = S (aiCalls (world s))).
    { unfold backoff, setTimeout, ret in Eb.
      destruct (backoffMs svc * (0 + 1) <=? 0)%Z; inversion Eb; subst; reflexivity. }
    change (0 + 1 <? 2)%Z with true in Hrun. cbv iota in Hrun.
    unfold bind, ai_run in Hrun.
    destruct (Hrej (aiCalls (world s1)) (mkRequest context player action)) as [e2 He2].
    rewrite He2 in Hrun. change (0 + 1 =? 2 - 1)%Z with true in Hrun.
    rewrite orb_true_r in Hrun.
    unfold ret, fallback in Hrun. inversion Hrun; subst.
    cbn [world aiCalls]. rewrite Hs1. split; [reflexivity | lia].
  - unfold ret, fallback in Hrun. inversion Hrun; subst.
    cbn [world aiCalls]. split; [reflexivity | lia].
Qed.

(** A backend that times out on every call. *)
Lemma C5_witness :
  maxAttempts dm = 2%Z /\
  (forall n request, exists error, backend Scenario.envTimeout n request = Rejected error) /\
  fst (narrate Scenario.envTimeout dm (mkContext [] [] defaultCombatState)
               (Scenario.thia "p1" []) "waits patiently" Scenario.midFight)
    = mkNarration FALLBACK_DM_TEXT "" true /\
  aiCalls (world (snd (narrate Scenario.envTimeout dm (mkContext [] [] defaultCombatState)
                               (Scenario.thia "p1" []) "waits patiently"
                               Scenario.midFight))) = 2.
Proof.
  assert (Hmax : maxAttempts dm = 2%Z) by reflexivity.
  assert (Hrej : forall n request,
             exists error, backend Scenario.envTimeout n request = Rejected error).
  { intros n request. eexists. reflexivity. }
  split; [exact Hmax |]. split; [exact Hrej |].
  exact (C5_two_attempt_policy Scenario.envTimeout dm (mkContext [] [] defaultCombatState)
           (Scenario.thia "p1" []) "waits patiently" Scenario.midFight
           (ErrorObject "InferenceUpstreamError" "504 Gateway Time-out")
           Hmax Hrej eq_refl).
Defined.

(** Claim C5 as stated fails: a backend that rejects every call with an
    error that is not transient ("Error: offline") is invoked once, not
    twice, under the 2-attempt policy. *)
Lemma C5_counterexample :
  maxAttempts dm = 2%Z /\
  (forall n request, exists error, backend Scenario.envOffline n request = Rejected error) /\
  fst (narrate Scenario.envOffline dm (mkContext [] [] defaultCombatState)
               (Scenario.thia "p1" []) "waits patiently" Scenario.midFight)
    = mkNarration FALLBACK_DM_TEXT "" true /\
  aiCalls (world Scenario.midFight) = 0 /\
  aiCalls (world (snd (narrate Scenario.envOffline dm (mkContext [] [] defaultCombatState)
                               (Scenario.thia "p1" []) "waits patiently"
                               Scenario.midFight))) = 1.
Proof.
  split; [reflexivity |]. split; [intros; eexists; reflexivity |].
  split; [vm_compute; reflexivity |]. split; vm_compute; reflexivity.
Qed.

(** Claim C6.  Joining twice with the same player id and name is the same
    as joining once: after the second join the roster and the message log
    are exactly those after the first, the answer is the same, and the
    registry is not called again.  The roster holds exactly one entry
    under that id, and when the id was new the two joins together added
    one player (full health, starter inventory) and one arrival message.
    The hypothesis is the uniqueness of the keys of a map. *)
Theorem C6_join_is_idempotent (env : Env) (s : System) (payload : JoinPayload) :
  NoDup (PlayerMap.keys (players (this s))) ->
  let once := snd (handleJoin env (Some payload) s) in
  let twice := snd (handleJoin env (Some payload) once) in
  players (this twice) = players (this once) /\
  messages (this twice) = messages (this once) /\
  fst (handleJoin env (Some payload) once) = fst (handleJoin env (Some payload) s) /\
  registryCalls (world twice) = registryCalls (world once) /\
  count_occ string_dec (PlayerMap.keys (players (this twice))) (joinPlayerId payload) = 1 /\
  (PlayerMap.get (players (this s)) (joinPlayerId payload) = None ->
   players (this twice)
     = (players (this s)
          ++ [(joinPlayerId payload,
               Player.mk (joinPlayerId payload) (joinName payload) 20 starterInventory)])%list /\
   messages (this twice)
     = (messages (this s)
          ++ [mkMessage "DM"
                (joinName payload ++ " enters the campaign with basic equipment.")
                (clock env (clockReads (world s)))])%list).
Proof.
  intros Hnodup once twice.
  destruct (handleJoin_registers env payload s) as (p & Hget & Hname).
  fold once in Hget.
  destruct (handleJoin_again env payload once p Hget Hname) as (Hp & Hm & Hr).
  fold twice in Hp, Hm, Hr.
  assert (Hresp : fst (handleJoin env (Some payload) once)
                  = fst (handleJoin env (Some payload) s)).
  { rewrite !handleJoin_response. fold once. fold twice.
    unfold getPlayers, getRecentMessages. rewrite Hp, Hm. reflexivity. }
  assert (Honce :
            count_occ string_dec (PlayerMap.keys (players (this once)))
                      (joinPlayerId payload) = 1 /\
            (PlayerMap.get (players (this s)) (joinPlayerId payload) = None ->
             players (this once)
               = (players (this s)
                    ++ [(joinPlayerId payload,
                         Player.mk (joinPlayerId payload) (joinName payload) 20
                                   starterInventory)])%list /\
             messages (this once)
               = (messages (this s)
                    ++ [mkMessage "DM"
                          (joinName payload ++ " enters the campaign with basic equipment.")
                          (clock env (clockReads (world s)))])%list)).
  { clear Hget Hname Hp Hm Hr Hresp twice. subst once.
    unfold handleJoin. run_monad.
    destruct (PlayerMap.get (players (this s)) (joinPlayerId payload))
      as [existing |] eqn:E.
    - assert (Hc : count_occ string_dec (PlayerMap.keys (players (this s)))
                             (joinPlayerId payload) = 1).
      { apply NoDup_count_occ'; auto. eapply PlayerMapFacts.get_in_keys; eauto. }
      destruct (negb (String.eqb (Player.name existing) (joinName payload)));
        run_monad;
        destruct (Nat.eqb (PlayerMap.size (players (this s))) 0); run_monad;
        rewrite ?PlayerMapFacts.keys_rename; (split; [exact Hc | discriminate]).
    - run_monad.
      destruct (Nat.eqb (PlayerMap.size (players (this s))) 0); run_monad;
        rewrite (PlayerMapFacts.set_new _ _ _ E);
        (split; [| intros _; split; reflexivity]);
        unfold PlayerMap.keys; rewrite map_app, count_occ_app;
        fold (PlayerMap.keys (players (this s)));
        rewrite (PlayerMapFacts.get_none_count _ _ E); simpl;
        destruct (string_dec (joinPlayerId payload) (joinPlayerId payload));
        congruence. }
  rewrite Hp, Hm. destruct Honce as [Hc Hnew]. repeat split; auto; apply Hnew; auto.
Qed.

(** A second player joining twice. *)
Lemma C6_witness :
  NoDup (PlayerMap.keys (players (this Scenario.midFight))) /\
  players (this (snd (handleJoin Scenario.envGoblin (Some (mkJoin "s1" "p2" "Bram"))
                        (snd (handleJoin Scenario.envGoblin
                                (Some (mkJoin "s1" "p2" "Bram")) Scenario.midFight)))))
    = players (this (snd (handleJoin Scenario.envGoblin
                            (Some (mkJoin "s1" "p2" "Bram")) Scenario.midFight))) /\
  messages (this (snd (handleJoin Scenario.envGoblin (Some (mkJoin "s1" "p2" "Bram"))
                         (snd (handleJoin Scenario.envGoblin
                                 (Some (mkJoin "s1" "p2" "Bram")) Scenario.midFight)))))
    = messages (this (snd (handleJoin Scenario.envGoblin
                             (Some (mkJoin "s1" "p2" "Bram")) Scenario.midFight))).
Proof.
  assert (Hnodup : NoDup (PlayerMap.keys (players (this Scenario.midFight)))).
  { repeat constructor; simpl; tauto. }
  split; [exact Hnodup |].
  pose proof (C6_join_is_idempotent Scenario.envGoblin Scenario.midFight
                (mkJoin "s1" "p2" "Bram") Hnodup) as H.
  cbv zeta in H. destruct H as (H1 & H2 & _).
  split; [exact H1 | exact H2].
Defined.



(** What the amended statement leaves out.  Mentions the patterns miss:
    an enemy introduced by "An", or by a number word as in the system
    prompt's own example; there is a trigger, and no enemy is found.  And
    a default looked up under the name as matched, article included: an
    ogre at 15, where the table has 59 for ogres. *)
Example detection_misses :
  EffectResolver.hasCombatTrigger "An orc attacks!" = true /\
  Resolver.scanEnemies "An orc attacks!" = [] /\
  EffectResolver.hasCombatTrigger "Two Orcs emerge to attack" = true /\
  Resolver.scanEnemies "Two Orcs emerge to attack" = [] /\
  Resolver.scanEnemies "Aha an ogre attacks!"
    = [Resolver.mkEnemy "Ogre" (Js.Number (Js.Finite 15))] /\
  Resolver.scanEnemies "The ogre attacks!"
    = [Resolver.mkEnemy "Ogre" (Js.Number (Js.Finite 59))].
Proof. repeat split; vm_compute; reflexivity. Qed.


(** Claim C8.  An act operation with a well-formed payload whose player id
    is not in the player map is answered with the client error "Player
    not joined." (status 400); the player map, the message log, the combat
    state and the activity time stamp are untouched, and so is everything
    outside the coordinator: the stored snapshot, the registry, the clock
    and the narration backend, which is not called. *)
Theorem C8_unjoined_player_is_rejected (env : Env) (s : System)
        (payload : ActionPayload) :
  PlayerMap.get (players (this s)) (actPlayerId payload) = None ->
  fst (handleAction env (Some payload) s) = Status400 "Player not joined." /\
  players (this (snd (handleAction env (Some payload) s))) = players (this s) /\
  messages (this (snd (handleAction env (Some payload) s))) = messages (this s) /\
  combat (this (snd (handleAction env (Some payload) s))) = combat (this s) /\
  lastActivity (this (snd (handleAction env (Some payload) s))) = lastActivity (this s) /\
  world (snd (handleAction env (Some payload) s)) = world s.
Proof.
  intros Hget. unfold handleAction. run_monad. rewrite Hget.
  unfold ret. cbn [fst snd this world players messages combat lastActivity].
  repeat split; reflexivity.
Qed.

(** An id that never joined. *)
Lemma C8_witness :
  PlayerMap.get (players (this Scenario.midFight)) (actPlayerId Scenario.stranger) = None /\
  fst (handleAction Scenario.envGoblin (Some Scenario.stranger) Scenario.midFight)
    = Status400 "Player not joined." /\
  world (snd (handleAction Scenario.envGoblin (Some Scenario.stranger) Scenario.midFight))
    = world Scenario.midFight.
Proof.
  assert (Hget : PlayerMap.get (players (this Scenario.midFight))
                               (actPlayerId Scenario.stranger) = None) by reflexivity.
  split; [exact Hget |].
  pose proof (C8_unjoined_player_is_rejected Scenario.envGoblin Scenario.midFight
                Scenario.stranger Hget) as (H1 & _ & _ & _ & _ & H2).
  split; [exact H1 | exact H2].
Defined.

(** Claim C9.  The combat-state invariant (when the active flag is false
    the turn order is empty, the enemy list is empty and the turn index is
    0) holds of the default combat state and of a freshly started
    coordinator, and is preserved by every operation: a served request,
    join, act, query, effect resolution, the combat-end check, the start
    of a combat, the turn advance, the session reset and the idle
    clean-up. *)
Theorem C9_combat_invariant (env : Env) (op : Operation) (s : System) (startedAt : Z) :
  combatInvariant defaultCombatState /\
  combatInvariant (combat (this (hydrate startedAt freshWorld))) /\
  (combatInvariant (combat (this s)) -> combatInvariant (combat (this (run env op s)))).
Proof.
  split; [apply CombatFacts.default_invariant |].
  split; [apply CombatFacts.default_invariant |].
  intros H.
  exact (proj1 (@run_holds env combatInvariant (fun _ => True) (fun _ _ => Logic.I)
                  CombatFacts.default_invariant CombatFacts.apply_invariant
                  CombatFacts.end_invariant CombatFacts.start_invariant
                  CombatFacts.nextTurnOf_invariant
                  op s (conj H (fun _ _ => Logic.I)))).
Qed.

(** An act that starts a fight from the lobby. *)
Lemma C9_witness :
  combatInvariant (combat (this Scenario.lobby)) /\
  combatInvariant
    (combat (this (run Scenario.envGoblin (OpAct (Some Scenario.look)) Scenario.lobby))).
Proof.
  assert (H : combatInvariant (combat (this Scenario.lobby))).
  { intros _. repeat split. }
  split; [exact H |].
  exact (proj2 (proj2 (C9_combat_invariant Scenario.envGoblin
                         (OpAct (Some Scenario.look)) Scenario.lobby 0)) H).
Defined.

(** Claim C10, as amended.  In every state reachable through join, act
    and query requests (restarts from the stored snapshot included), while
    combat is active the turn order is not empty and the turn index is an
    integer within its bounds; so the modulo of [nextTurn] has a divisor
    that is not zero and yields an index within bounds again, and the
    entry at the current index exists and belongs to the turn order.
    [getCurrentTurn] returns that entry, unless the entry is the empty
    string (a player who joined under an empty name), in which case it
    returns null. *)
Theorem C10_turn_index_in_range (env : Env) (s : System) :
  reachable env s ->
  active (combat (this s)) = true ->
  let cb := combat (this s) in
  let size := Z.of_nat (List.length (turnOrder cb)) in
  turnOrder cb <> [] /\
  exists z who,
    currentTurnIndex cb = Num z /\ (0 <= z < size)%Z /\
    (exists z', currentTurnIndex (nextTurnOf cb) = Num z' /\ (0 <= z' < size)%Z) /\
    at_ (turnOrder cb) (currentTurnIndex cb) = Some who /\
    In who (turnOrder cb) /\
    getCurrentTurn (this s) = (if JsString.isEmpty who then None else Some who).
Proof.
  intros Hreach Hactive cb size.
  change (active cb = true) in Hactive.
  assert (Hrange : turnInRange cb).
  { exact (proj1 (@reachable_holds env turnInRange turnInRange (fun _ H => H)
                    CombatFacts.default_inRange CombatFacts.apply_inRange
                    CombatFacts.nextTurnOf_inRange s (fun _ H => H) Hreach)). }
  destruct (Hrange Hactive) as (Hne & z & Hz & Hz').
  split; [exact Hne |].
  destruct (nth_error (turnOrder cb) (Z.to_nat z)) as [who |] eqn:Hwho.
  2: { apply nth_error_None in Hwho. lia. }
  exists z, who. split; [exact Hz |]. split; [exact Hz' |].
  assert (Hat : at_ (turnOrder cb) (currentTurnIndex cb) = Some who).
  { rewrite Hz. unfold at_. destruct (z <? 0)%Z eqn:E; [| exact Hwho].
    apply Z.ltb_lt in E. lia. }
  split.
  - destruct (@CombatFacts.nextTurnOf_inRange cb Hrange) as (_ & z' & Hn & Hb).
    + unfold nextTurnOf. rewrite Hactive. reflexivity.
    + exists z'. split; [exact Hn |].
      unfold nextTurnOf in Hb. rewrite Hactive in Hb. exact Hb.
  - split; [exact Hat |]. split; [eapply nth_error_In; eauto |].
    unfold getCurrentTurn. fold cb. rewrite Hactive, Hat. cbn [negb orb].
    destruct (turnOrder cb); [congruence | reflexivity].
Qed.

(** The session of the player without a name. *)
Lemma C10_witness :
  reachable Scenario.envGoblin Scenario.nameless /\
  active (combat (this Scenario.nameless)) = true /\
  turnOrder (combat (this Scenario.nameless)) <> [].
Proof.
  assert (Hreach : reachable Scenario.envGoblin Scenario.nameless).
  { unfold Scenario.nameless. apply reach_fetch, reach_fetch, reach_start. }
  assert (Hactive : active (combat (this Scenario.nameless)) = true)
    by (vm_compute; reflexivity).
  split; [exact Hreach |]. split; [exact Hactive |].
  exact (proj1 (C10_turn_index_in_range Scenario.envGoblin Scenario.nameless
                  Hreach Hactive)).
Defined.

(** Claim C10 as stated fails: a player may join under the empty name;
    once a fight starts that player is first in the turn order, and
    [getCurrentTurn] yields null although combat is active. *)
Lemma C10_counterexample :
  reachable Scenario.envGoblin Scenario.nameless /\
  combat (this Scenario.nameless)
    = mkCombat true [""; "Goblin"] (Num 0) [Enemy.mk "Goblin" 7] /\
  getCurrentTurn (this Scenario.nameless) = None.
Proof.
  split.
  - unfold Scenario.nameless. apply reach_fetch, reach_fetch, reach_start.
  - split; vm_compute; reflexivity.
Qed.

(* ================================================================== *)
(** ** Further properties of the code *)
(* ================================================================== *)

(** *** Narration: the retry loop *)

Section NarrationFacts.
Variable env : Env.

(** The state after [count] failed and retried attempts. *)
Lemma narrateFrom_retries (svc : DungeonMasterService) (request : AiRequest) :
  forall (count fuel from : nat) (s : System),
    (Z.of_nat from + Z.of_nat count < maxAttempts svc)%Z ->
    (maxAttempts svc - Z.of_nat from <= Z.of_nat fuel)%Z ->
    transientFailures env request (aiCalls (world s)) count ->
    exists fuel',
      (maxAttempts svc - Z.of_nat (from + count) <= Z.of_nat fuel')%Z /\
      narrateFrom env svc request fuel (Z.of_nat from) s
        = narrateFrom env svc request fuel' (Z.of_nat (from + count))
            (mkSystem (this s)
               (mkWorld (stored (world s)) (registryCalls (world s))
                        (aiCalls (world s) + count) (clockReads (world s))
                        (sleeps (world s) ++ delaysFrom svc from count))).
Proof.
  induction count as [|count IH]; intros fuel from s Hlt Hfuel Hfail.
  - exists fuel. rewrite !Nat.add_0_r. split; [exact Hfuel|].
    unfold delaysFrom. cbn [seq flat_map]. rewrite app_nil_r.
    destruct s as [c w]; destruct w; reflexivity.
  - destruct fuel as [|fuel]; [lia|].
    destruct (Hfail 0) as [error [Hcall Hretry]]; [lia|].
    rewrite Nat.add_0_r in Hcall.
    cbn [narrateFrom].
    destruct (Z.ltb_spec (Z.of_nat from) (maxAttempts svc)) as [_|Hge]; [|lia].
    unfold bind at 1. unfold ai_run at 1. cbn [world this fst snd].
    rewrite Hcall. rewrite Hretry. cbn [negb orb].
    destruct (Z.eqb_spec (Z.of_nat from) (maxAttempts svc - 1)) as [Heq|_]; [lia|].
    unfold bind at 1.
    set (s1 := mkSystem (this s)
                 (mkWorld (stored (world s)) (registryCalls (world s))
                    (S (aiCalls (world s))) (clockReads (world s)) (sleeps (world s)))).
    assert (Hback : backoff svc (Z.of_nat from) s1
                    = (tt, mkSystem (this s)
                             (mkWorld (stored (world s)) (registryCalls (world s))
                                (S (aiCalls (world s))) (clockReads (world s))
                                (sleeps (world s) ++ delayAfter svc from)))).
    { unfold backoff, delayAfter.
      destruct (Z.leb_spec (backoffMs svc * (Z.of_nat from + 1)) 0).
      - unfold ret. rewrite app_nil_r. reflexivity.
      - unfold setTimeout. reflexivity. }
    rewrite Hback.
    replace (Z.of_nat from + 1)%Z with (Z.of_nat (S from)) by lia.
    destruct (IH fuel (S from)
                (mkSystem (this s)
                   (mkWorld (stored (world s)) (registryCalls (world s))
                      (S (aiCalls (world s))) (clockReads (world s))
                      (sleeps (world s) ++ delayAfter svc from))))
      as [fuel' [Hfuel' Heq]].
    + lia.
    + lia.
    + intros i Hi. cbn [world aiCalls].
      destruct (Hfail (S i)) as [e [He1 He2]]; [lia|].
      exists e. split; [|exact He2].
      rewrite <- He1. f_equal. lia.
    + exists fuel'. split.
      * replace (from + S count) with (S from + count) by lia. exact Hfuel'.
      * rewrite Heq. cbn [this world stored registryCalls aiCalls clockReads sleeps].
        replace (from + S count) with (S from + count) by lia.
        replace (S (aiCalls (world s)) + count) with (aiCalls (world s) + S count) by lia.
        unfold delaysFrom. cbn [seq flat_map]. rewrite <- app_assoc. reflexivity.
Qed.


Lemma narrateFrom_resolved (svc : DungeonMasterService) (request : AiRequest)
      (fuel : nat) (attempt : Z) (s : System) (response : option string) :
  (attempt < maxAttempts svc)%Z ->
  backend env (aiCalls (world s)) request = Resolved response ->
  narrateFrom env svc request (S fuel) attempt s
    = (narrationOf response,
       mkSystem (this s)
         (mkWorld (stored (world s)) (registryCalls (world s)) (S (aiCalls (world s)))
                  (clockReads (world s)) (sleeps (world s)))).
Proof.
  intros Hlt Hok. cbn [narrateFrom].
  destruct (Z.ltb_spec attempt (maxAttempts svc)) as [_|Hge]; [|lia].
  unfold bind, ai_run. cbn [world this fst snd]. rewrite Hok.
  unfold narrationOf.
  destruct (extractThinking (orDefault response "The DM is silent.")) as [t th].
  reflexivity.
Qed.

Lemma narrateFrom_rejected (svc : DungeonMasterService) (request : AiRequest)
      (fuel : nat) (attempt : Z) (s : System) (error : JsError) :
  (attempt < maxAttempts svc)%Z ->
  backend env (aiCalls (world s)) request = Rejected error ->
  isRetryableError error = false \/ attempt = (maxAttempts svc - 1)%Z ->
  narrateFrom env svc request (S fuel) attempt s
    = (fallback,
       mkSystem (this s)
         (mkWorld (stored (world s)) (registryCalls (world s)) (S (aiCalls (world s)))
                  (clockReads (world s)) (sleeps (world s)))).
Proof.
  intros Hlt Hbad Hstop. cbn [narrateFrom].
  destruct (Z.ltb_spec attempt (maxAttempts svc)) as [_|Hge]; [|lia].
  unfold bind at 1. unfold ai_run. cbn [world this fst snd]. rewrite Hbad.
  assert (Hcond : negb (isRetryableError error) || (attempt =? maxAttempts svc - 1)%Z = true).
  { destruct Hstop as [H|H].
    - rewrite H. reflexivity.
    - apply orb_true_iff. right. apply Z.eqb_eq. exact H. }
  rewrite Hcond. reflexivity.
Qed.

(** Property X1.  When the first [retries] backend calls of a narration
    are rejected with retryable errors, [retries] is below the attempt
    limit and the next call resolves, [narrate] returns what that call
    resolved to (reasoning split off, [degraded = false]); the backend
    has been invoked [retries + 1] times and the waits between attempts
    are [backoffMs], [2 * backoffMs], ... (none when [backoffMs] is 0). *)
Theorem narrate_recovers_after_transient_failures (svc : DungeonMasterService)
        (context : SessionContext) (player : Player.t) (action : string) (s : System)
        (retries : nat) (response : option string) :
  let request := mkRequest context player action in
  (Z.of_nat retries < maxAttempts svc)%Z ->
  transientFailures env request (aiCalls (world s)) retries ->
  backend env (aiCalls (world s) + retries) request = Resolved response ->
  fst (narrate env svc context player action s) = narrationOf response /\
  aiCalls (world (snd (narrate env svc context player action s)))
    = aiCalls (world s) + retries + 1 /\
  sleeps (world (snd (narrate env svc context player action s)))
    = (sleeps (world s) ++ delaysFrom svc 0 retries)%list.
Proof.
  intros request Hlt Hfail Hok.
  unfold narrate. fold request.
  destruct (@narrateFrom_retries svc request retries (Z.to_nat (maxAttempts svc)) 0 s)
    as [fuel' [Hfuel' Heq]]; [lia | lia | exact Hfail |].
  change (Z.of_nat 0) with 0%Z in Heq. rewrite Heq. clear Heq.
  cbn [Nat.add] in *.
  destruct fuel' as [|fuel']; [lia|].
  rewrite (@narrateFrom_resolved svc request fuel' _ _ response); [|lia|exact Hok].
  cbn [fst snd world aiCalls sleeps]. repeat split. lia.
Qed.

(** Property X2.  After [retries] rejections with retryable errors, a
    rejection that is not retryable, or that is the one of the last
    attempt allowed, ends the loop: [narrate] returns the fixed fallback
    with [degraded = true] after [retries + 1] backend calls, and no wait
    follows the last failure. *)
Theorem narrate_gives_up (svc : DungeonMasterService)
        (context : SessionContext) (player : Player.t) (action : string) (s : System)
        (retries : nat) (error : JsError) :
  let request := mkRequest context player action in
  (Z.of_nat retries < maxAttempts svc)%Z ->
  transientFailures env request (aiCalls (world s)) retries ->
  backend env (aiCalls (world s) + retries) request = Rejected error ->
  isRetryableError error = false \/ Z.of_nat retries = (maxAttempts svc - 1)%Z ->
  fst (narrate env svc context player action s) = fallback /\
  aiCalls (world (snd (narrate env svc context player action s)))
    = aiCalls (world s) + retries + 1 /\
  sleeps (world (snd (narrate env svc context player action s)))
    = (sleeps (world s) ++ delaysFrom svc 0 retries)%list.
Proof.
  intros request Hlt Hfail Hbad Hstop.
  unfold narrate. fold request.
  destruct (@narrateFrom_retries svc request retries (Z.to_nat (maxAttempts svc)) 0 s)
    as [fuel' [Hfuel' Heq]]; [lia | lia | exact Hfail |].
  change (Z.of_nat 0) with 0%Z in Heq. rewrite Heq. clear Heq.
  cbn [Nat.add] in *.
  destruct fuel' as [|fuel']; [lia|].
  rewrite (@narrateFrom_rejected svc request fuel' _ _ error); [|lia|exact Hbad|exact Hstop].
  cbn [fst snd world aiCalls sleeps]. repeat split. lia.
Qed.

(** The loop calls the backend at least once (if it runs at all) and at
    most once per attempt left, and its result is either the fallback or
    what the last call resolved to. *)
Lemma narrateFrom_budget (svc : DungeonMasterService) (request : AiRequest)
      (fuel : nat) :
  forall (attempt : Z) (s s' : System) (r : NarrationResult),
    narrateFrom env svc request fuel attempt s = (r, s') ->
    aiCalls (world s) <= aiCalls (world s') /\
    (Z.of_nat (aiCalls (world s')) <= Z.of_nat (aiCalls (world s))
                                      + Z.max 0 (maxAttempts svc - attempt))%Z /\
    ((attempt < maxAttempts svc)%Z -> 0 < fuel -> aiCalls (world s) < aiCalls (world s')) /\
    (r = fallback \/
     exists response,
       aiCalls (world s) < aiCalls (world s') /\
       backend env (aiCalls (world s') - 1) request = Resolved response /\
       r = narrationOf response).
Proof.
  induction fuel as [|fuel IH]; intros attempt s s' r Hrun.
  - cbn in Hrun. inversion Hrun; subst. repeat split; try lia. left; reflexivity.
  - cbn [narrateFrom] in Hrun.
    destruct (Z.ltb_spec attempt (maxAttempts svc)) as [Hlt|Hge].
    + unfold bind at 1 in Hrun. unfold ai_run at 1 in Hrun. cbn [fst snd world this] in Hrun.
      destruct (backend env (aiCalls (world s)) request) as [response|error] eqn:Hcall.
      * pose proof (eq_refl (narrationOf response)) as Hn. unfold narrationOf at 1 in Hn.
        destruct (extractThinking (orDefault response "The DM is silent.")) as [t th].
        cbn [fst snd] in Hn.
        unfold ret in Hrun. inversion Hrun; subst. cbn [world aiCalls].
        repeat split; try lia.
        right. exists response. repeat split; try lia.
        -- replace (S (aiCalls (world s)) - 1) with (aiCalls (world s)) by lia. exact Hcall.
        -- exact Hn.
      * destruct (negb (isRetryableError error) || (attempt =? maxAttempts svc - 1)%Z).
        -- unfold ret in Hrun. inversion Hrun; subst. cbn [world aiCalls].
           repeat split; try lia. left; reflexivity.
        -- unfold bind at 1 in Hrun.
           destruct (backoff svc attempt
                       (mkSystem (this s)
                          (mkWorld (stored (world s)) (registryCalls (world s))
                             (S (aiCalls (world s))) (clockReads (world s))
                             (sleeps (world s))))) as [u s1] eqn:Hback.
           assert (Hs1 : aiCalls (world s1) = S (aiCalls (world s))).
           { unfold backoff in Hback.
             destruct (backoffMs svc * (attempt + 1) <=? 0)%Z;
               [unfold ret in Hback | unfold setTimeout in Hback];
               inversion Hback; subst; reflexivity. }
           destruct (IH _ _ _ _ Hrun) as [H1 [H2 [H3 H4]]].
           rewrite Hs1 in *.
           repeat split; try lia.
           destruct H4 as [H4|[response [Ha [Hb Hc]]]]; [left; exact H4|].
           right. exists response. repeat split; try lia; assumption.
    + unfold ret in Hrun. inversion Hrun; subst.
      repeat split; try lia. left; reflexivity.
Qed.

(** Property X3.  For a narration service whose limit of attempts is a
    whole number of at least 1, each narration invokes the backend at
    least once and at most [maxAttempts] times, and leaves the
    coordinator, the stored snapshot and the registry untouched. *)
Theorem narrate_call_budget (svc : DungeonMasterService) (context : SessionContext)
        (player : Player.t) (action : string) (s : System) :
  (1 <= maxAttempts svc)%Z ->
  let s' := snd (narrate env svc context player action s) in
  aiCalls (world s) + 1 <= aiCalls (world s') /\
  (Z.of_nat (aiCalls (world s')) <= Z.of_nat (aiCalls (world s)) + maxAttempts svc)%Z /\
  this s' = this s /\
  stored (world s') = stored (world s) /\
  registryCalls (world s') = registryCalls (world s).
Proof.
  intros Hmax s'.
  destruct (narrate env svc context player action s) as [r s1] eqn:Hrun.
  subst s'. cbn [snd].
  pose proof (@narrate_frame env svc context player action s s1 r Hrun) as [F1 [F2 F3]].
  unfold narrate in Hrun.
  destruct (@narrateFrom_budget svc _ _ _ _ _ _ Hrun) as [B1 [B2 [B3 _]]].
  repeat split; try assumption; try lia.
Qed.

(** Property X4.  A narration result flagged degraded is exactly the
    fixed fallback (fallback text, empty reasoning); a result that is not
    flagged is what the last backend call made resolved to. *)
Theorem narrate_result_shape (svc : DungeonMasterService) (context : SessionContext)
        (player : Player.t) (action : string) (s : System) :
  let r := fst (narrate env svc context player action s) in
  let s' := snd (narrate env svc context player action s) in
  (degraded r = true -> r = fallback) /\
  (degraded r = false ->
   exists response,
     aiCalls (world s) < aiCalls (world s') /\
     backend env (aiCalls (world s') - 1) (mkRequest context player action)
       = Resolved response /\
     r = narrationOf response).
Proof.
  intros r s'. subst r s'.
  destruct (narrate env svc context player action s) as [r s1] eqn:Hrun.
  cbn [fst snd]. unfold narrate in Hrun.
  destruct (@narrateFrom_budget svc _ _ _ _ _ _ Hrun) as [_ [_ [_ H]]].
  split.
  - intros Hd. destruct H as [H|[response [_ [_ H]]]]; [exact H|].
    subst r. discriminate Hd.
  - intros Hd. destruct H as [H|H]; [subst r; discriminate Hd | exact H].
Qed.

End NarrationFacts.

(** A backend that times out twice under a limit of three attempts: three calls. *)
Lemma narrate_call_budget_witness :
  (1 <= maxAttempts Cases.patient)%Z /\
  aiCalls (world Scenario.midFight) + 1
  <= aiCalls (world (snd (narrate Cases.envFlaky Cases.patient Cases.idleContext
                                  (Scenario.thia "p1" []) "opens the door"
                                  Scenario.midFight))) /\
  (Z.of_nat (aiCalls (world (snd (narrate Cases.envFlaky Cases.patient Cases.idleContext
                                          (Scenario.thia "p1" []) "opens the door"
                                          Scenario.midFight))))
   <= Z.of_nat (aiCalls (world Scenario.midFight)) + 3)%Z.
Proof.
  assert (Hmax : (1 <= maxAttempts Cases.patient)%Z) by (vm_compute; discriminate).
  split; [exact Hmax |].
  pose proof (narrate_call_budget Cases.envFlaky Cases.patient Cases.idleContext
                (Scenario.thia "p1" []) "opens the door" Scenario.midFight Hmax) as H.
  cbv zeta in H. destruct H as (H1 & H2 & _).
  split; [exact H1 | exact H2].
Defined.

(** A backend that is offline. *)
Lemma narrate_result_shape_witness :
  degraded (fst (narrate Scenario.envOffline dm Cases.idleContext (Scenario.thia "p1" [])
                         "opens the door" Scenario.midFight)) = true /\
  fst (narrate Scenario.envOffline dm Cases.idleContext (Scenario.thia "p1" [])
               "opens the door" Scenario.midFight) = fallback.
Proof.
  assert (Hd : degraded (fst (narrate Scenario.envOffline dm Cases.idleContext
                                      (Scenario.thia "p1" []) "opens the door"
                                      Scenario.midFight)) = true)
    by (vm_compute; reflexivity).
  split; [exact Hd|].
  exact (proj1 (narrate_result_shape Scenario.envOffline dm Cases.idleContext
                  (Scenario.thia "p1" []) "opens the door" Scenario.midFight) Hd).
Defined.

(** A backend that always times out, under the default limit of two attempts. *)
Lemma narrate_gives_up_witness :
  (1 < maxAttempts dm)%Z /\
  fst (narrate Scenario.envTimeout dm Cases.idleContext (Scenario.thia "p1" [])
               "opens the door" Scenario.midFight) = fallback /\
  aiCalls (world (snd (narrate Scenario.envTimeout dm Cases.idleContext
                               (Scenario.thia "p1" []) "opens the door"
                               Scenario.midFight))) = 2 /\
  sleeps (world (snd (narrate Scenario.envTimeout dm Cases.idleContext
                              (Scenario.thia "p1" []) "opens the door"
                              Scenario.midFight))) = [250]%Z.
Proof.
  assert (Hlt : (Z.of_nat 1 < maxAttempts dm)%Z) by (vm_compute; reflexivity).
  assert (Hfail : transientFailures Scenario.envTimeout
                    (mkRequest Cases.idleContext (Scenario.thia "p1" []) "opens the door")
                    (aiCalls (world Scenario.midFight)) 1).
  { intros i Hi. eexists. split; [reflexivity | vm_compute; reflexivity]. }
  split; [exact Hlt|].
  exact (narrate_gives_up Scenario.envTimeout dm Cases.idleContext (Scenario.thia "p1" [])
           "opens the door" Scenario.midFight 1
           (ErrorObject "InferenceUpstreamError" "504 Gateway Time-out")
           Hlt Hfail eq_refl (or_intror eq_refl)).
Defined.

(** Two gateway time-outs, then an answer, under a limit of three attempts. *)
Lemma narrate_recovers_after_transient_failures_witness :
  (2 < maxAttempts Cases.patient)%Z /\
  fst (narrate Cases.envFlaky Cases.patient Cases.idleContext (Scenario.thia "p1" [])
               "opens the door" Scenario.midFight)
    = mkNarration "The door gives way." "d20: 17" false /\
  aiCalls (world (snd (narrate Cases.envFlaky Cases.patient Cases.idleContext
                               (Scenario.thia "p1" []) "opens the door"
                               Scenario.midFight))) = 3 /\
  sleeps (world (snd (narrate Cases.envFlaky Cases.patient Cases.idleContext
                              (Scenario.thia "p1" []) "opens the door"
                              Scenario.midFight))) = [100; 200]%Z.
Proof.
  assert (Hlt : (Z.of_nat 2 < maxAttempts Cases.patient)%Z) by (vm_compute; reflexivity).
  assert (Hfail : transientFailures Cases.envFlaky
                    (mkRequest Cases.idleContext (Scenario.thia "p1" []) "opens the door")
                    (aiCalls (world Scenario.midFight)) 2).
  { intros i Hi. destruct i as [|[|i]]; [| |lia];
      (eexists; split; [reflexivity | vm_compute; reflexivity]). }
  split; [exact Hlt|].
  exact (narrate_recovers_after_transient_failures Cases.envFlaky Cases.patient
           Cases.idleContext (Scenario.thia "p1" []) "opens the door" Scenario.midFight 2
           (Some "<thinking>d20: 17</thinking>The door gives way.") Hlt Hfail eq_refl).
Defined.

(** *** Texts a pattern cannot match *)

Module ConsumesFacts.
Import RegExp Captures Consumes.

Lemma leafOnly_sound (P accepts : ascii -> bool) (a : ascii) :
  leafOnly P accepts = true -> accepts a = true -> P a = true.
Proof.
  unfold leafOnly. intros H Ha.
  rewrite forallb_forall in H. specialize (H a (CapturesFacts.in_allChars a)).
  rewrite Ha in H. exact H.
Qed.

Lemma advances_reset (gs : list nat) (x y : MatchState) (l : list ascii) :
  advances (resetGroups gs x) y l -> advances x y l.
Proof. intros H. exact H. Qed.

Section Repeat.
Variables (P : ascii -> bool) (b : bool) (mb : Matcher).
Variables (gs : list nat) (greedy : bool) (c : Continuation).
Hypothesis mb_needs : matcherNeeds P b mb.

Lemma repeatMatcher_needs (fuel : nat) :
  forall (min : nat) (max : option nat) (x z : MatchState),
    repeatMatcher mb gs greedy c fuel min max x = Some z ->
    exists y consumed,
      c y = Some z /\ advances x y consumed /\
      (b = true -> min <> 0 ->
       match max with
       | Some k => min <= k
       | None => True
       end ->
       existsb P consumed = true).
Proof.
  induction fuel as [|fuel IH]; intros min max x z Hrun; [discriminate|].
  cbn [repeatMatcher] in Hrun.
  assert (Hstop : c x = Some z ->
                  (min <> 0 -> match max with Some k => min <= k | None => True end -> False) ->
                  exists y consumed,
                    c y = Some z /\ advances x y consumed /\
                    (b = true -> min <> 0 ->
                     match max with Some k => min <= k | None => True end ->
                     existsb P consumed = true)).
  { intros Hc Hno. exists x, []. split; [exact Hc|]. split; [apply CapturesFacts.advances_refl|].
    intros _ H1 H2. destruct (Hno H1 H2). }
  assert (Hround :
            mb (resetGroups gs x)
               (fun y =>
                  if Nat.eqb min 0 && Nat.eqb (endIndex y) (endIndex x) then None
                  else repeatMatcher mb gs greedy c fuel (Nat.pred min)
                                     (option_map Nat.pred max) y) = Some z ->
            exists y consumed,
              c y = Some z /\ advances x y consumed /\
              (b = true -> min <> 0 ->
               match max with Some k => min <= k | None => True end ->
               existsb P consumed = true)).
  { intros Hmb. destruct (mb_needs _ _ _ Hmb) as [y1 [l1 [Hd [Hadv1 HP1]]]].
    destruct (Nat.eqb min 0 && Nat.eqb (endIndex y1) (endIndex x)); [discriminate|].
    destruct (IH _ _ _ _ Hd) as [y2 [l2 [Hc [Hadv2 _]]]].
    exists y2, (l1 ++ l2)%list. split; [exact Hc|].
    split; [eapply CapturesFacts.advances_trans; [exact (advances_reset gs _ _ _ Hadv1) | exact Hadv2]|].
    intros Hb _ _. rewrite existsb_app, (HP1 Hb). reflexivity. }
  destruct max as [[|k]|].
  - apply Hstop; [exact Hrun|]. intros H1 H2. lia.
  - destruct min as [|min']; cbn [Nat.eqb negb] in Hrun.
    + destruct greedy; unfold orElse in Hrun.
      * match type of Hrun with
        | match ?e with _ => _ end = _ => destruct e eqn:Hmb
        end.
        -- first [apply Hround; exact Hrun | inversion Hrun; subst; apply Hround; exact Hmb].
        -- apply Hstop; [exact Hrun|]. intros H1; contradiction.
      * destruct (c x) eqn:Hcx.
        -- first [apply Hstop; [exact Hrun|] | inversion Hrun; subst; apply Hstop; [exact Hcx|]]; intros H1; contradiction.
        -- apply Hround. exact Hrun.
    + apply Hround. exact Hrun.
  - destruct min as [|min']; cbn [Nat.eqb negb] in Hrun.
    + destruct greedy; unfold orElse in Hrun.
      * match type of Hrun with
        | match ?e with _ => _ end = _ => destruct e eqn:Hmb
        end.
        -- first [apply Hround; exact Hrun | inversion Hrun; subst; apply Hround; exact Hmb].
        -- apply Hstop; [exact Hrun|]. intros H1; contradiction.
      * destruct (c x) eqn:Hcx.
        -- first [apply Hstop; [exact Hrun|] | inversion Hrun; subst; apply Hstop; [exact Hcx|]]; intros H1; contradiction.
        -- apply Hround. exact Hrun.
    + apply Hround. exact Hrun.
Qed.
End Repeat.

Lemma m_needs (ic : bool) (P : ascii -> bool) (r : Node) :
  matcherNeeds P (needs ic P r) (m ic r).
Proof.
  induction r as [|ch| |inv atoms|a IHa b0 IHb|a IHa b0 IHb|i body IH|body IH min max greedy| | |neg];
    intros x c z Hrun; cbn [m] in Hrun; cbn [needs].
  - exists x, []. split; [exact Hrun|]. split; [apply CapturesFacts.advances_refl|discriminate].
  - destruct (rest x) as [|a t] eqn:Hrest; [discriminate|].
    destruct (Ascii.eqb (canonicalize ic ch) (canonicalize ic a)) eqn:Hacc; [|discriminate].
    exists (step x a t), [a]. split; [exact Hrun|].
    split; [apply CapturesFacts.advances_step; exact Hrest|].
    intros Hleaf. cbn [existsb].
    rewrite (leafOnly_sound _ _ a Hleaf Hacc). reflexivity.
  - destruct (rest x) as [|a t] eqn:Hrest; [discriminate|].
    destruct (isLineTerminator a) eqn:Hacc; [discriminate|].
    exists (step x a t), [a]. split; [exact Hrun|].
    split; [apply CapturesFacts.advances_step; exact Hrest|].
    intros Hleaf. cbn [existsb].
    rewrite (leafOnly_sound _ _ a Hleaf); [reflexivity|]. rewrite Hacc. reflexivity.
  - destruct (rest x) as [|a t] eqn:Hrest; [discriminate|].
    destruct (xorb inv (existsb (fun at_ => atomMatches ic at_ a) atoms)) eqn:Hacc;
      [|discriminate].
    exists (step x a t), [a]. split; [exact Hrun|].
    split; [apply CapturesFacts.advances_step; exact Hrest|].
    intros Hleaf. cbn [existsb].
    rewrite (leafOnly_sound _ _ a Hleaf Hacc). reflexivity.
  - destruct (IHa _ _ _ Hrun) as [y1 [l1 [H1 [A1 P1]]]].
    destruct (IHb _ _ _ H1) as [y2 [l2 [H2 [A2 P2]]]].
    exists y2, (l1 ++ l2)%list. split; [exact H2|].
    split; [eapply CapturesFacts.advances_trans; eassumption|].
    intros Hn. rewrite existsb_app. apply orb_true_iff in Hn.
    destruct Hn as [Hn|Hn]; [rewrite (P1 Hn); reflexivity | rewrite (P2 Hn); apply orb_true_r].
  - unfold orElse in Hrun.
    destruct (m ic a x c) eqn:Ha.
    + inversion Hrun; subst. destruct (IHa _ _ _ Ha) as [y [l [H1 [A1 P1]]]].
      exists y, l. split; [exact H1|]. split; [exact A1|].
      intros Hn. apply andb_true_iff in Hn. apply P1, Hn.
    + destruct (IHb _ _ _ Hrun) as [y [l [H1 [A1 P1]]]].
      exists y, l. split; [exact H1|]. split; [exact A1|].
      intros Hn. apply andb_true_iff in Hn. apply P1, Hn.
  - destruct (IH _ _ _ Hrun) as [y [l [H1 [A1 P1]]]].
    eexists _, l. split; [exact H1|]. split; [exact A1 | exact P1].
  - destruct (@repeatMatcher_needs P _ _ _ _ _ IH _ _ _ _ _ Hrun) as [y [l [H1 [A1 P1]]]].
    exists y, l. split; [exact H1|]. split; [exact A1|].
    intros Hn. apply andb_true_iff in Hn. destruct Hn as [Hn Hbody].
    apply andb_true_iff in Hn. destruct Hn as [Hmin Hmax].
    apply P1; [exact Hbody| |].
    + intros E. rewrite E in Hmin. discriminate.
    + destruct max; [apply Nat.leb_le; exact Hmax | exact I].
  - destruct (Nat.eqb (endIndex x) 0); [|discriminate].
    exists x, []. split; [exact Hrun|]. split; [apply CapturesFacts.advances_refl|discriminate].
  - destruct (rest x); [|discriminate].
    exists x, []. split; [exact Hrun|]. split; [apply CapturesFacts.advances_refl|discriminate].
  - destruct (xorb neg (xorb (wordAt (prev x)) (wordAt (hd_error (rest x))))); [|discriminate].
    exists x, []. split; [exact Hrun|]. split; [apply CapturesFacts.advances_refl|discriminate].
Qed.

Lemma absent_prefix (P : ascii -> bool) (l1 l2 : list ascii) :
  forallb (fun a => negb (P a)) (l1 ++ l2) = true -> existsb P l1 = false.
Proof.
  induction l1 as [|a l1 IH]; cbn; [reflexivity|].
  intros H. apply andb_true_iff in H. destruct H as [Ha H].
  apply negb_true_iff in Ha. rewrite Ha. exact (IH H).
Qed.

Lemma search_needs (ic : bool) (P : ascii -> bool) (n : Node) :
  needs ic P n = true ->
  forall (s : list ascii) (i : nat) (before : option ascii),
    forallb (fun a => negb (P a)) s = true -> search ic n i before s = None.
Proof.
  intros Hn. induction s as [|a t IH]; intros i before Hs.
  - cbn [search].
    destruct (m ic n (mkState i [] before []) (fun y => Some y)) eqn:Hm; [|reflexivity].
    destruct (@m_needs ic P n _ _ _ Hm) as [y [l [_ [[Hrest _] HP]]]].
    cbn [rest] in Hrest. destruct l; [|discriminate].
    specialize (HP Hn). discriminate.
  - cbn [search].
    destruct (m ic n (mkState i (a :: t) before []) (fun y => Some y)) eqn:Hm.
    + destruct (@m_needs ic P n _ _ _ Hm) as [y [l [_ [[Hrest _] HP]]]].
      cbn [rest] in Hrest. rewrite Hrest in Hs.
      rewrite (absent_prefix _ _ _ Hs) in HP. specialize (HP Hn). discriminate.
    + apply IH. cbn in Hs. apply andb_true_iff in Hs. apply Hs.
Qed.

Lemma forallb_skipn (A : Type) (p : A -> bool) (n : nat) (l : list A) :
  forallb p l = true -> forallb p (skipn n l) = true.
Proof.
  revert l. induction n as [|n IH]; intros l H; [exact H|].
  destruct l as [|a l]; [exact H|]. cbn in *.
  apply andb_true_iff in H. apply IH, H.
Qed.

Section Absent.
Variables (P : ascii -> bool) (re : RegExp.t) (text : string).
Hypothesis re_requires : requires P re = true.
Hypothesis text_without : without P text = true.

Lemma execFrom_absent (from : nat) : execFrom re (JsString.chars text) from = None.
Proof.
  unfold execFrom. destruct (Nat.ltb _ from); [reflexivity|].
  apply (search_needs _ P); [exact re_requires|].
  apply forallb_skipn. exact text_without.
Qed.

Lemma matchAll_absent : matchAll text re = [].
Proof. unfold matchAll. cbn [matchesFrom]. rewrite execFrom_absent. reflexivity. Qed.

Lemma exec_absent : exec re text = None.
Proof. apply execFrom_absent. Qed.

Lemma test_absent : test re text = false.
Proof. unfold test. rewrite exec_absent. reflexivity. Qed.

Lemma remove_absent : remove text re = text.
Proof.
  unfold remove. cbn [matchesFrom]. rewrite execFrom_absent.
  destruct (global re); cbn [cut skipn]; apply string_of_list_ascii_of_string.
Qed.
End Absent.

End ConsumesFacts.

(** Property X5.  A backend response without the character [<] holds no
    reasoning block: the reasoning is the empty string and the text is
    the response, trimmed. *)
Theorem extractThinking_without_markup (rawText : string) :
  without isMarkup rawText = true ->
  extractThinking rawText = (JsString.trim rawText, "").
Proof.
  intros H. unfold extractThinking.
  rewrite (ConsumesFacts.exec_absent isMarkup); [|vm_compute; reflexivity|exact H].
  rewrite (ConsumesFacts.remove_absent isMarkup); [|vm_compute; reflexivity|exact H].
  reflexivity.
Qed.

(** A response of plain text with blanks around it. *)
Lemma extractThinking_without_markup_witness :
  without isMarkup Cases.plain = true /\
  extractThinking Cases.plain = ("The door creaks open.", "").
Proof.
  assert (H : without isMarkup Cases.plain = true) by (vm_compute; reflexivity).
  split; [exact H|].
  exact (extractThinking_without_markup Cases.plain H).
Defined.

(** *** Effect resolution: what each pass may change *)

Module PassFacts.
Import EffectResolver.

Lemma Forall2_refl (A : Type) (R : A -> A -> Prop) (l : list A) :
  (forall x, R x x) -> Forall2 R l l.
Proof. intros H. induction l; constructor; auto. Qed.

Lemma Forall2_trans (A : Type) (R1 R2 R3 : A -> A -> Prop) (l1 l2 l3 : list A) :
  (forall x y z, R1 x y -> R2 y z -> R3 x z) ->
  Forall2 R1 l1 l2 -> Forall2 R2 l2 l3 -> Forall2 R3 l1 l3.
Proof.
  intros H H12. revert l3. induction H12; intros l3 H23; inversion H23; subst; constructor; eauto.
Qed.

Lemma assign_Forall2 (R : string * Player.t -> string * Player.t -> Prop)
      (f : Player.t -> Player.t) (i : nat) (m0 m : PlayerMap.t) :
  (forall kv kv', R kv kv' -> R kv (fst kv', f (snd kv'))) ->
  Forall2 R m0 m -> Forall2 R m0 (PlayerMap.assign i f m).
Proof.
  intros H. unfold PlayerMap.assign. apply mutate_Forall2. intros x y. apply H.
Qed.

Lemma hurt_refl (kv : string * Player.t) : hurt kv kv.
Proof. unfold hurt, samePlayer. repeat split. lia. Qed.

Lemma healed_refl (kv : string * Player.t) : healed kv kv.
Proof. unfold healed, samePlayer. repeat split. lia. Qed.

Lemma reequipped_refl (kv : string * Player.t) : reequipped kv kv.
Proof. unfold reequipped, samePlayer. repeat split. Qed.

Lemma playerDamageStep_hurt (m0 : PlayerMap.t) (pattern : RegExp.t) (m : PlayerMap.t)
      (mt : RegExp.Match) :
  Forall2 hurt m0 m -> Forall2 hurt m0 (playerDamageStep pattern m mt).
Proof.
  intros H. unfold playerDamageStep.
  destruct (nameAndAmount pattern mt) as [name dmg].
  destruct (PlayerMap.find (sameName name) m) as [i|]; [|exact H].
  destruct dmg as [d|]; [|exact H].
  destruct (Z.ltb_spec 0 d) as [Hd|_]; [|exact H].
  apply assign_Forall2; [|exact H].
  intros kv kv' [Hs [Hi Hh]]. unfold hurt, samePlayer, hurtPlayer in *.
  cbn [fst snd Player.setHp Player.id Player.name Player.inventory Player.hp].
  repeat split; try tauto. lia.
Qed.

Lemma healingStep_healed (m0 : PlayerMap.t) (pattern : RegExp.t) (m : PlayerMap.t)
      (mt : RegExp.Match) :
  Forall2 healed m0 m -> Forall2 healed m0 (healingStep pattern m mt).
Proof.
  intros H. unfold healingStep.
  destruct (nameAndAmount pattern mt) as [name heal].
  destruct (PlayerMap.find (sameName name) m) as [i|]; [|exact H].
  destruct heal as [h|]; [|exact H].
  destruct (Z.ltb_spec 0 h) as [Hd|_]; [|exact H].
  apply assign_Forall2; [|exact H].
  intros kv kv' [Hs [Hi Hh]]. unfold healed, samePlayer, healPlayer, maxHp in *.
  cbn [fst snd Player.setHp Player.id Player.name Player.inventory Player.hp].
  repeat split; try tauto. lia.
Qed.

Lemma gainStep_reequipped (m0 m : PlayerMap.t) (mt : RegExp.Match) :
  Forall2 reequipped m0 m -> Forall2 reequipped m0 (gainStep m mt).
Proof.
  intros H. unfold gainStep.
  repeat (case_step; try exact H).
  apply assign_Forall2; [|exact H].
  intros kv kv' [Hs Hh]. unfold reequipped, samePlayer, pushItem in *.
  cbn [fst snd Player.setInventory Player.id Player.name Player.inventory Player.hp].
  tauto.
Qed.

Lemma loseStep_reequipped (m0 m : PlayerMap.t) (mt : RegExp.Match) :
  Forall2 reequipped m0 m -> Forall2 reequipped m0 (loseStep m mt).
Proof.
  intros H. unfold loseStep.
  repeat (case_step; try exact H).
  apply assign_Forall2; [|exact H].
  intros kv kv' [Hs Hh]. unfold reequipped, samePlayer, spliceItem in *.
  cbn [fst snd Player.setInventory Player.id Player.name Player.inventory Player.hp].
  tauto.
Qed.

End PassFacts.

Module PassTotals.
Import EffectResolver.

Lemma applyPlayerDamage_hurt (text : string) (ps : PlayerMap.t) :
  Forall2 hurt ps (applyPlayerDamage text ps).
Proof.
  unfold applyPlayerDamage.
  apply (nested_fold_invariant (fun m => Forall2 hurt ps m)
           (fun p m mt => playerDamageStep p m mt)
           (fun p => RegExp.matchAll text p)).
  - intros p m mt. apply PassFacts.playerDamageStep_hurt.
  - apply PassFacts.Forall2_refl, PassFacts.hurt_refl.
Qed.

Lemma applyPlayerHealing_healed (text : string) (ps : PlayerMap.t) :
  Forall2 healed ps (applyPlayerHealing text ps).
Proof.
  unfold applyPlayerHealing.
  apply (nested_fold_invariant (fun m => Forall2 healed ps m)
           (fun p m mt => healingStep p m mt)
           (fun p => RegExp.matchAll text p)).
  - intros p m mt. apply PassFacts.healingStep_healed.
  - apply PassFacts.Forall2_refl, PassFacts.healed_refl.
Qed.

Lemma applyInventoryChanges_reequipped (text : string) (ps : PlayerMap.t) :
  Forall2 reequipped ps (applyInventoryChanges text ps).
Proof.
  unfold applyInventoryChanges.
  apply (nested_fold_invariant (fun m => Forall2 reequipped ps m)
           (fun (_ : RegExp.t) m mt => loseStep m mt)
           (fun p => RegExp.matchAll text p)).
  - intros p m mt. apply PassFacts.loseStep_reequipped.
  - apply (nested_fold_invariant (fun m => Forall2 reequipped ps m)
             (fun (_ : RegExp.t) m mt => gainStep m mt)
             (fun p => RegExp.matchAll text p)).
    + intros p m mt. apply PassFacts.gainStep_reequipped.
    + apply PassFacts.Forall2_refl, PassFacts.reequipped_refl.
Qed.

End PassTotals.

(** Property X7.  The three passes over the players are one-directional
    and keep to their own field: the damage pass never raises a health
    value (nor lifts it above 0) and the healing pass never lowers one
    (nor pushes it below the cap of 20), neither touching an inventory;
    the inventory pass never changes health.  All three keep keys, ids
    and names. *)
Theorem each_pass_touches_its_own_field (text : string) (ps : PlayerMap.t) :
  Forall2 hurt ps (EffectResolver.applyPlayerDamage text ps) /\
  Forall2 healed ps (EffectResolver.applyPlayerHealing text ps) /\
  Forall2 reequipped ps (EffectResolver.applyInventoryChanges text ps).
Proof.
  split; [|split].
  - apply PassTotals.applyPlayerDamage_hurt.
  - apply PassTotals.applyPlayerHealing_healed.
  - apply PassTotals.applyInventoryChanges_reequipped.
Qed.

(** Property X6.  Effect resolution never adds, removes, reorders or
    renames players: the map has the same keys in the same order and
    every player keeps id and name, whatever the narration says. *)
Theorem apply_keeps_the_roster (text : string) (ps : PlayerMap.t) (cb : CombatState) :
  Forall2 samePlayer ps (fst (EffectResolver.apply text ps cb)) /\
  PlayerMap.keys (fst (EffectResolver.apply text ps cb)) = PlayerMap.keys ps /\
  map Player.name (PlayerMap.values (fst (EffectResolver.apply text ps cb)))
    = map Player.name (PlayerMap.values ps).
Proof.
  assert (H : Forall2 samePlayer ps (fst (EffectResolver.apply text ps cb))).
  { unfold EffectResolver.apply. cbn [fst].
    pose proof (PassTotals.applyPlayerDamage_hurt text ps) as H1.
    pose proof (PassTotals.applyPlayerHealing_healed text
                  (EffectResolver.applyPlayerDamage text ps)) as H2.
    pose proof (PassTotals.applyInventoryChanges_reequipped text
                  (EffectResolver.applyPlayerHealing text
                     (EffectResolver.applyPlayerDamage text ps))) as H3.
    assert (T : forall x y z, samePlayer x y -> samePlayer y z -> samePlayer x z).
    { unfold samePlayer. intros x y z [A1 [A2 A3]] [B1 [B2 B3]]. repeat split; congruence. }
    apply (@PassFacts.Forall2_trans _ samePlayer samePlayer samePlayer _
             (EffectResolver.applyPlayerHealing text
                (EffectResolver.applyPlayerDamage text ps)) _ T).
    - apply (@PassFacts.Forall2_trans _ samePlayer samePlayer samePlayer _
               (EffectResolver.applyPlayerDamage text ps) _ T).
      + revert H1. apply Forall2_impl. intros x y [A _]. exact A.
      + revert H2. apply Forall2_impl. intros x y [A _]. exact A.
    - revert H3. apply Forall2_impl. intros x y [A _]. exact A. }
  split; [exact H|].
  unfold PlayerMap.keys, PlayerMap.values.
  rewrite !map_map.
  induction H as [|x y l l' [Hk [Hi Hn]] _ IH]; [split; reflexivity|].
  destruct IH as [IH1 IH2]. cbn [map]. rewrite IH1, IH2, Hk, Hn. split; reflexivity.
Qed.

Module InventoryFacts.
Import EffectResolver.

Lemma mutate_Forall_at (A : Type) (P : A -> Prop) (f : A -> A) (i : nat) (l : list A) :
  (forall x, nth_error l i = Some x -> P x -> P (f x)) ->
  Forall P l -> Forall P (mutate i f l).
Proof.
  revert i. induction l as [|a l IH]; intros i Hf H; [constructor|].
  inversion H; subst. destruct i as [|i]; cbn [mutate].
  - constructor; [apply Hf; [reflexivity|assumption]|assumption].
  - constructor; [assumption|]. apply IH; [|assumption].
    intros x Hx. apply Hf. exact Hx.
Qed.

Lemma deref_entry (m : PlayerMap.t) (i : nat) (p : Player.t) (kv : string * Player.t) :
  PlayerMap.deref m i = Some p -> nth_error m i = Some kv -> snd kv = p.
Proof.
  unfold PlayerMap.deref, PlayerMap.values. intros Hd Hn.
  rewrite (map_nth_error snd i m Hn) in Hd. congruence.
Qed.

Lemma existsb_eqb_absent (item : string) (l : list string) :
  existsb (String.eqb item) l = false -> ~ In item l.
Proof.
  intros H Hin.
  assert (E : existsb (String.eqb item) l = true).
  { apply existsb_exists. exists item. split; [exact Hin | apply String.eqb_refl]. }
  congruence.
Qed.

Lemma NoDup_push (item : string) (l : list string) :
  NoDup l -> ~ In item l -> NoDup (l ++ [item]).
Proof.
  intros Hl Hin. apply NoDup_app; [exact Hl | repeat constructor; intros [] | ].
  intros x Hx [E|[]]. subst. contradiction.
Qed.

Lemma splice_In (A : Type) (x : A) (i : nat) (l : list A) :
  In x (firstn i l ++ skipn (S i) l) -> In x l.
Proof.
  revert i. induction l as [|a l IH]; intros i H.
  - destruct i; exact H.
  - destruct i as [|i].
    + right. exact H.
    + cbn [firstn skipn app] in H. destruct H as [H|H]; [left; exact H|].
      right. exact (IH i H).
Qed.

Lemma NoDup_splice (A : Type) (i : nat) (l : list A) :
  NoDup l -> NoDup (firstn i l ++ skipn (S i) l).
Proof.
  revert i. induction l as [|a l IH]; intros i H.
  - destruct i; constructor.
  - inversion H; subst. destruct i as [|i].
    + assumption.
    + cbn [firstn skipn app]. constructor; [|apply IH; assumption].
      intros Hin. apply splice_In in Hin. contradiction.
Qed.

Lemma assign_tidy (i : nat) (f : Player.t -> Player.t) (m : PlayerMap.t) :
  (forall p, Player.inventory (f p) = Player.inventory p) ->
  tidy m -> tidy (PlayerMap.assign i f m).
Proof.
  intros Hf. unfold tidy, PlayerMap.assign. apply mutate_Forall.
  intros kv. cbn [snd]. rewrite Hf. exact (fun H => H).
Qed.

Lemma playerDamageStep_tidy (pattern : RegExp.t) (m : PlayerMap.t) (mt : RegExp.Match) :
  tidy m -> tidy (playerDamageStep pattern m mt).
Proof.
  intros H. unfold playerDamageStep. repeat (case_step; try exact H).
  apply assign_tidy; [reflexivity | exact H].
Qed.

Lemma healingStep_tidy (pattern : RegExp.t) (m : PlayerMap.t) (mt : RegExp.Match) :
  tidy m -> tidy (healingStep pattern m mt).
Proof.
  intros H. unfold healingStep. repeat (case_step; try exact H).
  apply assign_tidy; [reflexivity | exact H].
Qed.

Lemma gainStep_tidy (m : PlayerMap.t) (mt : RegExp.Match) : tidy m -> tidy (gainStep m mt).
Proof.
  intros H. unfold gainStep.
  destruct (option_map JsString.trim (RegExp.group mt 2)) as [itemName|]; [|exact H].
  destruct (JsString.isEmpty itemName || Nat.ltb (String.length itemName) 2
            || RegExp.test notAnItem itemName); [exact H|].
  destruct (PlayerMap.find _ m) as [player|]; [|exact H].
  destruct (PlayerMap.deref m player) as [p|] eqn:Hp; [|exact H].
  destruct (existsb _ (Player.inventory p)) eqn:Hnew; [exact H|].
  unfold tidy, PlayerMap.assign. apply mutate_Forall_at; [|exact H].
  intros kv Hkv Hnodup. cbn [snd pushItem Player.setInventory Player.inventory].
  rewrite (@deref_entry m player p kv Hp Hkv) in *.
  apply NoDup_push; [exact Hnodup|]. apply existsb_eqb_absent. exact Hnew.
Qed.

Lemma loseStep_tidy (m : PlayerMap.t) (mt : RegExp.Match) : tidy m -> tidy (loseStep m mt).
Proof.
  intros H. unfold loseStep. repeat (case_step; try exact H).
  unfold tidy, PlayerMap.assign. apply mutate_Forall.
  intros kv Hkv. cbn [snd spliceItem Player.setInventory Player.inventory].
  apply NoDup_splice. exact Hkv.
  exact H.
Qed.

End InventoryFacts.

(** Property X8.  If no inventory lists an item twice before effect
    resolution, none does afterwards: an item a player already carries is
    not added again, and removal takes out one entry. *)
Theorem apply_keeps_inventories_tidy (text : string) (ps : PlayerMap.t) (cb : CombatState) :
  tidy ps -> tidy (fst (EffectResolver.apply text ps cb)).
Proof.
  intros H. unfold EffectResolver.apply. cbn [fst].
  unfold EffectResolver.applyInventoryChanges.
  apply (nested_fold_invariant tidy
           (fun (_ : RegExp.t) m mt => EffectResolver.loseStep m mt)
           (fun p => RegExp.matchAll text p)).
  { intros p m mt. apply InventoryFacts.loseStep_tidy. }
  apply (nested_fold_invariant tidy
           (fun (_ : RegExp.t) m mt => EffectResolver.gainStep m mt)
           (fun p => RegExp.matchAll text p)).
  { intros p m mt. apply InventoryFacts.gainStep_tidy. }
  unfold EffectResolver.applyPlayerHealing.
  apply (nested_fold_invariant tidy
           (fun p m mt => EffectResolver.healingStep p m mt)
           (fun p => RegExp.matchAll text p)).
  { intros p m mt. apply InventoryFacts.healingStep_tidy. }
  unfold EffectResolver.applyPlayerDamage.
  apply (nested_fold_invariant tidy
           (fun p m mt => EffectResolver.playerDamageStep p m mt)
           (fun p => RegExp.matchAll text p)).
  { intros p m mt. apply InventoryFacts.playerDamageStep_tidy. }
  exact H.
Qed.

(** A key found and a potion drunk. *)
Lemma apply_keeps_inventories_tidy_witness :
  tidy Scenario.party /\
  fst (EffectResolver.apply Cases.found Scenario.party Scenario.orcFight)
    = [("p1", Player.mk "p1" "Thia" 20 ["rusty key"])] /\
  tidy (fst (EffectResolver.apply Cases.found Scenario.party Scenario.orcFight)).
Proof.
  assert (H : tidy Scenario.party).
  { repeat constructor; intros []. }
  split; [exact H|]. split; [vm_compute; reflexivity|].
  exact (apply_keeps_inventories_tidy Cases.found Scenario.party Scenario.orcFight H).
Defined.

Module SilenceFacts.
Import EffectResolver.

Lemma fold_absent (A : Type) (P : ascii -> bool) (text : string)
      (f : RegExp.t -> A -> RegExp.Match -> A) (patterns : list RegExp.t) (a : A) :
  forallb (Consumes.requires P) patterns = true ->
  without P text = true ->
  fold_left (fun acc p => fold_left (f p) (RegExp.matchAll text p) acc) patterns a = a.
Proof.
  intros Hp Ht. revert a. induction patterns as [|p patterns IH]; intros a; [reflexivity|].
  cbn [forallb] in Hp. apply andb_true_iff in Hp. destruct Hp as [Hp1 Hp2].
  cbn [fold_left]. rewrite (ConsumesFacts.matchAll_absent P p text Hp1 Ht).
  cbn [fold_left]. apply IH. exact Hp2.
Qed.

Lemma trigger_absent (P : ascii -> bool) (text : string) (patterns : list RegExp.t) :
  forallb (Consumes.requires P) patterns = true ->
  without P text = true ->
  existsb (fun pattern => RegExp.test pattern text) patterns = false.
Proof.
  intros Hp Ht. induction patterns as [|p patterns IH]; [reflexivity|].
  cbn [forallb] in Hp. apply andb_true_iff in Hp. destruct Hp as [Hp1 Hp2].
  cbn [existsb]. rewrite (ConsumesFacts.test_absent P p text Hp1 Ht). apply IH. exact Hp2.
Qed.

Lemma applyPlayerDamage_silent (text : string) (ps : PlayerMap.t) :
  without JsString.isDigit text = true -> applyPlayerDamage text ps = ps.
Proof.
  intros H. unfold applyPlayerDamage.
  apply (@fold_absent _ JsString.isDigit text playerDamageStep); [vm_compute; reflexivity|exact H].
Qed.

Lemma applyPlayerHealing_silent (text : string) (ps : PlayerMap.t) :
  without JsString.isDigit text = true -> applyPlayerHealing text ps = ps.
Proof.
  intros H. unfold applyPlayerHealing.
  apply (@fold_absent _ JsString.isDigit text healingStep); [vm_compute; reflexivity|exact H].
Qed.

Lemma applyEnemyDamage_silent (text : string) (cb : CombatState) :
  without JsString.isDigit text = true -> applyEnemyDamage text cb = cb.
Proof.
  intros H. unfold applyEnemyDamage.
  destruct (negb (active cb) || Nat.eqb (List.length (enemies cb)) 0); [reflexivity|].
  rewrite (@fold_absent _ JsString.isDigit text enemyDamageStep);
    [destruct cb; reflexivity | vm_compute; reflexivity | exact H].
Qed.

Lemma applyInventoryChanges_silent (text : string) (ps : PlayerMap.t) :
  without isLetter text = true -> applyInventoryChanges text ps = ps.
Proof.
  intros H. unfold applyInventoryChanges.
  rewrite (@fold_absent _ isLetter text (fun _ => gainStep));
    [|vm_compute; reflexivity|exact H].
  apply (@fold_absent _ isLetter text (fun _ => loseStep)); [vm_compute; reflexivity|exact H].
Qed.

End SilenceFacts.

(** Property X9.  A narration without a decimal digit changes nobody's
    health: every player keeps the health they had, the enemy-damage pass
    leaves any combat state as it is, and the combat state after
    resolution is the one after detection and the end check alone. *)
Theorem narration_without_digits_keeps_health (text : string) (ps : PlayerMap.t)
        (cb : CombatState) :
  without JsString.isDigit text = true ->
  healthOf (fst (EffectResolver.apply text ps cb)) = healthOf ps /\
  EffectResolver.applyEnemyDamage text cb = cb /\
  snd (EffectResolver.apply text ps cb)
    = EffectResolver.checkCombatEnd (EffectResolver.detectCombatScenarios text ps cb).
Proof.
  intros H. unfold EffectResolver.apply. cbn [fst snd].
  rewrite !SilenceFacts.applyEnemyDamage_silent by exact H.
  rewrite SilenceFacts.applyPlayerDamage_silent, SilenceFacts.applyPlayerHealing_silent
    by exact H.
  split; [|split; reflexivity].
  pose proof (PassTotals.applyInventoryChanges_reequipped text ps) as H3.
  unfold healthOf. induction H3 as [|x y l l' [_ Hh] _ IH]; [reflexivity|].
  cbn [map]. rewrite IH, Hh. reflexivity.
Qed.

(** Damage and healing without amounts. *)
Lemma narration_without_digits_keeps_health_witness :
  without JsString.isDigit Cases.vague = true /\
  healthOf (fst (EffectResolver.apply Cases.vague Scenario.party Scenario.orcFight))
    = [20%Z] /\
  EffectResolver.applyEnemyDamage Cases.vague Scenario.orcFight = Scenario.orcFight.
Proof.
  assert (H : without JsString.isDigit Cases.vague = true) by (vm_compute; reflexivity).
  split; [exact H|].
  pose proof (narration_without_digits_keeps_health Cases.vague Scenario.party
                Scenario.orcFight H) as [H1 [H2 _]].
  split; [exact H1 | exact H2].
Defined.

(** Property X10.  A narration without a letter (the empty text,
    punctuation, bare numbers) has no effect on the players at all and
    none on the combat state but the end check. *)
Theorem narration_without_letters_changes_nothing (text : string) (ps : PlayerMap.t)
        (cb : CombatState) :
  without isLetter text = true ->
  EffectResolver.apply text ps cb = (ps, EffectResolver.checkCombatEnd cb).
Proof.
  intros H. unfold EffectResolver.apply.
  assert (Hdetect : EffectResolver.detectCombatScenarios text ps cb = cb).
  { unfold EffectResolver.detectCombatScenarios.
    destruct (active cb); [reflexivity|].
    unfold EffectResolver.hasCombatTrigger.
    rewrite (SilenceFacts.trigger_absent isLetter); [reflexivity|vm_compute; reflexivity|exact H]. }
  rewrite Hdetect.
  assert (Hdamage : EffectResolver.applyEnemyDamage text cb = cb).
  { unfold EffectResolver.applyEnemyDamage.
    destruct (negb (active cb) || Nat.eqb (List.length (enemies cb)) 0); [reflexivity|].
    rewrite (@SilenceFacts.fold_absent _ isLetter text EffectResolver.enemyDamageStep);
      [destruct cb; reflexivity | vm_compute; reflexivity | exact H]. }
  rewrite Hdamage.
  assert (Hplayers : EffectResolver.applyPlayerDamage text ps = ps).
  { unfold EffectResolver.applyPlayerDamage.
    apply (@SilenceFacts.fold_absent _ isLetter text EffectResolver.playerDamageStep);
      [vm_compute; reflexivity|exact H]. }
  rewrite Hplayers.
  assert (Hheal : EffectResolver.applyPlayerHealing text ps = ps).
  { unfold EffectResolver.applyPlayerHealing.
    apply (@SilenceFacts.fold_absent _ isLetter text EffectResolver.healingStep);
      [vm_compute; reflexivity|exact H]. }
  rewrite Hheal.
  rewrite SilenceFacts.applyInventoryChanges_silent by exact H.
  reflexivity.
Qed.

(** Numbers and punctuation only. *)
Lemma narration_without_letters_changes_nothing_witness :
  without isLetter Cases.ciphers = true /\
  EffectResolver.apply Cases.ciphers Scenario.party Scenario.orcFight
    = (Scenario.party, Scenario.orcFight).
Proof.
  assert (H : without isLetter Cases.ciphers = true) by (vm_compute; reflexivity).
  split; [exact H|].
  exact (narration_without_letters_changes_nothing Cases.ciphers Scenario.party
           Scenario.orcFight H).
Defined.

Module ScanFacts.
Import EffectResolver.

Lemma addEnemy_scanned (acc : list Enemy.t * list string) (mt : RegExp.Match) :
  scanned acc -> scanned (addEnemy acc mt).
Proof.
  destruct acc as [es found]. intros [Hkeys [Hnodup Hlen]]. cbn [fst snd] in *.
  unfold addEnemy.
  destruct (existsb _ found) eqn:Hseen; cbn [negb andb]; [repeat split; assumption|].
  destruct (Nat.ltb_spec 1 (String.length (Enemy.name (enemyOfMatch mt)))) as [Hl|_];
    [|repeat split; assumption].
  unfold scanned. cbn [fst snd]. split; [|split].
  - rewrite map_app, Hkeys. reflexivity.
  - apply InventoryFacts.NoDup_push; [exact Hnodup|].
    apply InventoryFacts.existsb_eqb_absent. exact Hseen.
  - apply Forall_app. split; [exact Hlen|]. constructor; [exact Hl|constructor].
Qed.

End ScanFacts.

(** Property X11.  The enemies detected in a narration have pairwise
    different names, compared without regard to case, and every name has
    at least two characters. *)
Theorem detected_enemies_are_distinct (text : string) :
  NoDup (map enemyKey (EffectResolver.scanEnemies text)) /\
  Forall (fun e => 1 < String.length (Enemy.name e)) (EffectResolver.scanEnemies text).
Proof.
  assert (H : scanned
                (fold_left
                   (fun acc pattern =>
                      fold_left EffectResolver.addEnemy (RegExp.matchAll text pattern) acc)
                   EffectResolver.enemyPatterns ([], []))).
  { apply (nested_fold_invariant scanned
             (fun (_ : RegExp.t) acc mt => EffectResolver.addEnemy acc mt)
             (fun p => RegExp.matchAll text p)).
    - intros p acc mt. apply ScanFacts.addEnemy_scanned.
    - unfold scanned. cbn. repeat split; constructor. }
  destruct H as [Hkeys [Hnodup Hlen]]. unfold EffectResolver.scanEnemies.
  rewrite <- Hkeys. split; assumption.
Qed.

Module EngagedFacts.
Import EffectResolver.

Lemma default_engaged : engaged defaultCombatState.
Proof. intros H. discriminate H. Qed.

Lemma apply_engaged (text : string) (ps : PlayerMap.t) (cb : CombatState) :
  engaged cb -> engaged (snd (apply text ps cb)).
Proof.
  intros Hcb. unfold apply. cbn [snd].
  set (cb1 := detectCombatScenarios text ps cb).
  assert (H1 : active cb1 = true ->
               exists names, turnOrder cb1 = (names ++ map Enemy.name (enemies cb1))%list).
  { destruct (CombatFacts.detectCombatScenarios_cases text ps cb) as [E|[_ [_ [_ E]]]];
      fold cb1 in E; rewrite E.
    - intros Ha. apply Hcb. exact Ha.
    - intros _. cbn [turnOrder enemies]. eexists. reflexivity. }
  destruct (CombatFacts.applyEnemyDamage_frame text cb1) as [Fa [Fo [_ Fw]]].
  destruct (CombatFacts.checkCombatEnd_cases (applyEnemyDamage text cb1))
    as [[E Halive]|[_ [_ E]]]; rewrite E.
  - intros Ha. split; [apply Halive; exact Ha|].
    rewrite Fo, (CombatFacts.worn_names Fw). apply H1. rewrite <- Fa. exact Ha.
  - apply default_engaged.
Qed.

Lemma nextTurnOf_engaged (cb : CombatState) : engaged cb -> engaged (nextTurnOf cb).
Proof.
  unfold engaged, nextTurnOf. destruct (active cb) eqn:Ha; cbn [negb]; [|rewrite Ha; auto].
  cbn [active turnOrder enemies]. auto.
Qed.

End EngagedFacts.

(** Property X12.  In every state a coordinator reaches through
    requests and restarts, in memory and in the stored snapshot: while
    combat is active at least one enemy has health above 0, and the turn
    order ends with the names of the enemies, in the order of the enemy
    list. *)
Theorem active_combat_has_a_living_enemy (env : Env) (s : System) :
  reachable env s ->
  engaged (combat (this s)) /\
  forall snap, stored (world s) = Some snap -> engaged (snapCombat snap).
Proof.
  intros H.
  apply (@reachable_holds env engaged engaged); auto.
  - apply EngagedFacts.default_engaged.
  - apply EngagedFacts.apply_engaged.
  - apply EngagedFacts.nextTurnOf_engaged.
Qed.

(** The session of the player without a name, in the middle of its fight. *)
Lemma active_combat_has_a_living_enemy_witness :
  reachable Scenario.envGoblin Scenario.nameless /\
  active (combat (this Scenario.nameless)) = true /\
  filter EffectResolver.alive (enemies (combat (this Scenario.nameless))) <> [].
Proof.
  assert (Hreach : reachable Scenario.envGoblin Scenario.nameless).
  { unfold Scenario.nameless. apply reach_fetch, reach_fetch, reach_start. }
  assert (Hactive : active (combat (this Scenario.nameless)) = true)
    by (vm_compute; reflexivity).
  split; [exact Hreach|]. split; [exact Hactive|].
  exact (proj1 (proj1 (active_combat_has_a_living_enemy Scenario.envGoblin Scenario.nameless
                         Hreach) Hactive)).
Defined.

(** *** The coordinator: joins, queries, expiry and turns *)

Section SessionFacts.
Variable env : Env.

Lemma handleJoin_rename_effects (payload : JoinPayload) (s : System) (existing : Player.t) :
  PlayerMap.get (players (this s)) (joinPlayerId payload) = Some existing ->
  Player.name existing <> joinName payload ->
  let s' := snd (handleJoin env (Some payload) s) in
  PlayerMap.get (players (this s')) (joinPlayerId payload)
    = Some (Player.mk (Player.id existing) (joinName payload) (Player.hp existing)
                      (Player.inventory existing)) /\
  PlayerMap.keys (players (this s')) = PlayerMap.keys (players (this s)) /\
  messages (this s')
    = (messages (this s)
         ++ [mkMessage "DM"
               (Player.name existing ++ " is now known as " ++ joinName payload ++ ".")
               (clock env (clockReads (world s)))])%list /\
  combat (this s') = combat (this s) /\
  registryCalls (world s') = registryCalls (world s).
Proof.
  intros Hget Hname s'. subst s'. unfold handleJoin. run_monad.
  rewrite Hget.
  destruct (String.eqb_spec (Player.name existing) (joinName payload)) as [E|_];
    [contradiction|]. cbn [negb]. run_monad.
  rewrite (PlayerMapFacts.get_nonempty _ _ _ Hget). run_monad.
  rewrite PlayerMapFacts.get_rename, Hget, PlayerMapFacts.keys_rename.
  repeat split.
Qed.

(** Property X13.  Joining under an id that is already present with a
    different name renames that player in place: same id, health and
    inventory, same keys in the map, exactly one message "<old> is now
    known as <new>." appended, the combat state (its turn order included)
    untouched and no registry call. *)
Theorem handleJoin_renames (payload : JoinPayload) (s : System) (existing : Player.t) :
  PlayerMap.get (players (this s)) (joinPlayerId payload) = Some existing ->
  Player.name existing <> joinName payload ->
  let s' := snd (handleJoin env (Some payload) s) in
  PlayerMap.get (players (this s')) (joinPlayerId payload)
    = Some (Player.mk (Player.id existing) (joinName payload) (Player.hp existing)
                      (Player.inventory existing)) /\
  PlayerMap.keys (players (this s')) = PlayerMap.keys (players (this s)) /\
  messages (this s')
    = (messages (this s)
         ++ [mkMessage "DM"
               (Player.name existing ++ " is now known as " ++ joinName payload ++ ".")
               (clock env (clockReads (world s)))])%list /\
  combat (this s') = combat (this s) /\
  registryCalls (world s') = registryCalls (world s).
Proof. exact (handleJoin_rename_effects payload s existing). Qed.

(** Property X28.  The turn order holds names, and a rename does not
    touch it: when a player is renamed to a name the turn order does not
    hold, the turn order still lists the old name and [isPlayerTurn] is
    false for that player, whatever the turn index. *)
Theorem renamed_player_loses_the_turn (payload : JoinPayload) (s : System)
        (existing : Player.t) :
  PlayerMap.get (players (this s)) (joinPlayerId payload) = Some existing ->
  Player.name existing <> joinName payload ->
  ~ In (joinName payload) (turnOrder (combat (this s))) ->
  let s' := snd (handleJoin env (Some payload) s) in
  turnOrder (combat (this s')) = turnOrder (combat (this s)) /\
  isPlayerTurn (this s') (joinPlayerId payload) = false.
Proof.
  intros Hget Hname Hstale s'. subst s'.
  destruct (handleJoin_rename_effects payload s existing Hget Hname)
    as [Hnew [_ [_ [Hcombat _]]]].
  split; [rewrite Hcombat; reflexivity|].
  unfold isPlayerTurn. rewrite Hnew. cbn [Player.name].
  unfold getCurrentTurn. rewrite Hcombat.
  destruct (negb (active (combat (this s)))
            || Nat.eqb (List.length (turnOrder (combat (this s)))) 0); [reflexivity|].
  destruct (at_ (turnOrder (combat (this s))) (currentTurnIndex (combat (this s))))
    as [who|] eqn:Hat; [|reflexivity].
  destruct (JsString.isEmpty who); [reflexivity|].
  destruct (String.eqb_spec who (joinName payload)) as [E|_]; [|reflexivity].
  exfalso. apply Hstale. subst who.
  unfold at_ in Hat. destruct (currentTurnIndex (combat (this s))) as [z|]; [|discriminate].
  destruct (z <? 0)%Z; [discriminate|].
  eapply nth_error_In. exact Hat.
Qed.

Lemma handleJoin_effects (payload : JoinPayload) (s : System) :
  let s' := snd (handleJoin env (Some payload) s) in
  registryCalls (world s')
    = (registryCalls (world s)
         ++ (if Nat.eqb (PlayerMap.size (players (this s))) 0
             then [RegistryAdd (joinSessionId payload)] else []))%list /\
  sessionId (this s') = Some (orDefault (sessionId (this s)) (joinSessionId payload)) /\
  stored (world s') = Some (snapshotOf (this s')) /\
  aiCalls (world s') = aiCalls (world s).
Proof.
  intros s'. subst s'. unfold handleJoin. run_monad.
  destruct (PlayerMap.get (players (this s)) (joinPlayerId payload)) as [existing |].
  - destruct (negb (String.eqb (Player.name existing) (joinName payload)));
      run_monad;
      destruct (Nat.eqb (PlayerMap.size (players (this s))) 0); run_monad;
      rewrite ?app_nil_r; repeat split.
  - run_monad.
    destruct (Nat.eqb (PlayerMap.size (players (this s))) 0); run_monad;
      rewrite ?app_nil_r; repeat split.
Qed.

(** Property X14.  A well-formed join tells the registry to add the
    session exactly when the roster was empty before it, keeps a session
    id that is already set (else takes the payload's), stores the
    resulting state and never calls the narration backend. *)
Theorem handleJoin_registers_the_first_player (payload : JoinPayload) (s : System) :
  let s' := snd (handleJoin env (Some payload) s) in
  registryCalls (world s')
    = (registryCalls (world s)
         ++ (if Nat.eqb (PlayerMap.size (players (this s))) 0
             then [RegistryAdd (joinSessionId payload)] else []))%list /\
  sessionId (this s') = Some (orDefault (sessionId (this s)) (joinSessionId payload)) /\
  stored (world s') = Some (snapshotOf (this s')) /\
  aiCalls (world s') = aiCalls (world s).
Proof. exact (handleJoin_effects payload s). Qed.

Lemma handleState_effects (s : System) :
  let s' := snd (handleState env s) in
  players (this s') = players (this s) /\
  messages (this s') = messages (this s) /\
  combat (this s') = combat (this s) /\
  sessionId (this s') = sessionId (this s) /\
  lastActivity (this s') = clock env (clockReads (world s)) /\
  stored (world s') = Some (snapshotOf (this s')) /\
  registryCalls (world s') = registryCalls (world s) /\
  aiCalls (world s') = aiCalls (world s) /\
  fst (handleState env s)
    = StateResponse (PlayerMap.values (players (this s)))
                    (getRecentMessages (this s)) (combat (this s)).
Proof.
  intros s'. subst s'. unfold handleState. run_monad. repeat split.
Qed.

(** Property X15.  A state query changes nothing of the game: players,
    messages, combat and session id stay as they are; only the activity
    time stamp is renewed and the snapshot stored.  The answer lists the
    players, the recent messages and the combat state. *)
Theorem handleState_only_reads (s : System) :
  let s' := snd (handleState env s) in
  players (this s') = players (this s) /\
  messages (this s') = messages (this s) /\
  combat (this s') = combat (this s) /\
  sessionId (this s') = sessionId (this s) /\
  lastActivity (this s') = clock env (clockReads (world s)) /\
  stored (world s') = Some (snapshotOf (this s')) /\
  registryCalls (world s') = registryCalls (world s) /\
  aiCalls (world s') = aiCalls (world s) /\
  fst (handleState env s)
    = StateResponse (PlayerMap.values (players (this s)))
                    (getRecentMessages (this s)) (combat (this s)).
Proof. exact (handleState_effects s). Qed.

(** Property X16.  The recent messages are the last 50 of the log, or
    the whole log when it is shorter: a suffix of the log of length
    min(50, length). *)
Theorem getRecentMessages_window (c : Coordinator) :
  List.length (getRecentMessages c) = Nat.min 50 (List.length (messages c)) /\
  exists older, messages c = (older ++ getRecentMessages c)%list.
Proof.
  unfold getRecentMessages. split.
  - rewrite length_skipn. lia.
  - exists (firstn (List.length (messages c) - 50) (messages c)).
    symmetry. apply firstn_skipn.
Qed.

Lemma cleanupIfIdle_effects (s : System) (sid : string) :
  (players (this s) = [] -> cleanupIfIdle env s = (tt, s)) /\
  (sessionId (this s) = Some sid ->
   JsString.isEmpty sid = false ->
   players (this s) <> [] ->
   let s' := snd (cleanupIfIdle env s) in
   let now := clock env (clockReads (world s)) in
   if (now - lastActivity (this s) <? SESSION_IDLE_TIMEOUT_MS)%Z
   then this s' = this s /\
        stored (world s') = stored (world s) /\
        registryCalls (world s') = registryCalls (world s)
   else this s' = mkCoordinator PlayerMap.empty [] defaultCombatState
                    (clock env (S (clockReads (world s)))) (Some sid) /\
        stored (world s') = Some (snapshotOf (this s')) /\
        registryCalls (world s') = (registryCalls (world s) ++ [RegistryRemove sid])%list).
Proof.
  split.
  - intros Hempty. unfold cleanupIfIdle. run_monad.
    destruct (sessionId (this s)) as [sid'|]; [|reflexivity].
    destruct (JsString.isEmpty sid'); [reflexivity|].
    rewrite Hempty. reflexivity.
  - intros Hsid Hne Hplayers s' now. subst s' now.
    unfold cleanupIfIdle. run_monad. rewrite Hsid, Hne.
    destruct (players (this s)) as [|kv rest] eqn:Hps; [contradiction|].
    cbn [PlayerMap.size List.length Nat.eqb]. run_monad.
    destruct (_ <? SESSION_IDLE_TIMEOUT_MS)%Z; run_monad.
    + repeat split.
    + unfold snapshotOf, setLastActivity, setCombat, setMessages, setPlayers.
      cbn [players messages combat lastActivity sessionId]. rewrite Hsid. repeat split.
Qed.


(** Property X17.  The idle clean-up does nothing, not even read the
    clock, for a session without players.  For a session with an id and
    players it reads the clock once: below 30 minutes of inactivity the
    coordinator, the snapshot and the registry are untouched; from 30
    minutes on the registry is told to remove the session, players,
    messages and combat are reset (the id is kept) and the empty state is
    stored. *)
Theorem cleanupIfIdle_expires (s : System) (sid : string) :
  (players (this s) = [] -> cleanupIfIdle env s = (tt, s)) /\
  (sessionId (this s) = Some sid ->
   JsString.isEmpty sid = false ->
   players (this s) <> [] ->
   let s' := snd (cleanupIfIdle env s) in
   let now := clock env (clockReads (world s)) in
   if (now - lastActivity (this s) <? SESSION_IDLE_TIMEOUT_MS)%Z
   then this s' = this s /\
        stored (world s') = stored (world s) /\
        registryCalls (world s') = registryCalls (world s)
   else this s' = mkCoordinator PlayerMap.empty [] defaultCombatState
                    (clock env (S (clockReads (world s)))) (Some sid) /\
        stored (world s') = Some (snapshotOf (this s')) /\
        registryCalls (world s') = (registryCalls (world s) ++ [RegistryRemove sid])%list).
Proof. exact (cleanupIfIdle_effects s sid). Qed.

(** Property X18.  A join that arrives after the session has expired
    is served on the emptied session: the roster holds the joining player
    alone, the log the arrival message alone, combat is reset, the session
    id is the old one, and the registry has been told to remove the
    session and then to add the one named by the request. *)
Theorem join_after_expiry_starts_afresh (payload : JoinPayload) (s : System) (sid : string) :
  sessionId (this s) = Some sid ->
  JsString.isEmpty sid = false ->
  players (this s) <> [] ->
  (SESSION_IDLE_TIMEOUT_MS <= clock env (clockReads (world s)) - lastActivity (this s))%Z ->
  let s' := snd (fetch env (PostJoin (Some payload)) s) in
  players (this s')
    = [(joinPlayerId payload,
        Player.mk (joinPlayerId payload) (joinName payload) 20 starterInventory)] /\
  (exists arrival,
      messages (this s')
        = [mkMessage "DM" (joinName payload ++ " enters the campaign with basic equipment.")
                     arrival]) /\
  combat (this s') = defaultCombatState /\
  sessionId (this s') = Some sid /\
  registryCalls (world s')
    = (registryCalls (world s)
         ++ [RegistryRemove sid; RegistryAdd (joinSessionId payload)])%list.
Proof.
  intros Hsid Hne Hplayers Hidle s'. subst s'.
  unfold fetch. unfold bind.
  destruct (cleanupIfIdle_effects s sid) as [_ Hclean].
  specialize (Hclean Hsid Hne Hplayers). cbv zeta in Hclean.
  destruct (Z.ltb_spec (clock env (clockReads (world s)) - lastActivity (this s))
                       SESSION_IDLE_TIMEOUT_MS) as [Hlt|_]; [lia|].
  destruct (cleanupIfIdle env s) as [[] s1]. cbn [snd] in Hclean.
  destruct Hclean as [Hthis [_ Hreg]].
  unfold handleJoin. run_monad. rewrite Hthis.
  unfold PlayerMap.empty. cbn [players PlayerMap.get]. run_monad.
  cbn [players sessionId messages combat orDefault
       PlayerMap.size List.length Nat.eqb PlayerMap.set]. run_monad.
  rewrite ?Hreg, <- ?app_assoc. cbn [app].
  repeat split. eexists. reflexivity.
Qed.

Lemma settleAction_shape (player : Player.t) (action : string)
      (narration : NarrationResult) (s : System) :
  let s' := snd (settleAction env player action narration s) in
  let after := EffectResolver.apply (text narration) (players (this s)) (combat (this s)) in
  sessionId (this s') = sessionId (this s) /\
  stored (world s') = Some (snapshotOf (this s')) /\
  registryCalls (world s') = registryCalls (world s) /\
  messages (this s')
    = (messages (this s)
         ++ [mkMessage (Player.name player) action (clock env (clockReads (world s)));
             mkMessage "DM" (text narration) (clock env (S (clockReads (world s))))])%list /\
  fst (settleAction env player action narration s)
    = ActionResponse (text narration) (Some (thinking narration))
                     (Some (degraded narration)) false
                     (getPlayers (this s')) (combat (this s')) /\
  (degraded narration = false ->
   players (this s') = fst after /\
   (combat (this s') = snd after \/ combat (this s') = nextTurnOf (snd after))).
Proof.
  intros s' after. subst s' after. unfold settleAction.
  destruct (degraded narration); cbn [negb]; run_monad.
  - do 3 run_monad. rewrite <- app_assoc. repeat split; discriminate.
  - destruct (EffectResolver.apply (text narration) (players (this s))
                                   (combat (this s))) as [ps' cb'].
    run_monad.
    match goal with
    | |- context [if ?b then _ else _] => destruct b
    end; do 3 run_monad; rewrite <- app_assoc; repeat split; auto.
Qed.



Lemma handleAction_stored (body : option ActionPayload) (s : System) :
  answered (fst (handleAction env body s)) = true ->
  stored (world (snd (handleAction env body s)))
    = Some (snapshotOf (this (snd (handleAction env body s)))).
Proof.
  unfold handleAction.
  destruct body as [payload|]; [|discriminate].
  run_monad.
  destruct (PlayerMap.get (players (this s)) (actPlayerId payload)) as [player|];
    [|discriminate].
  destruct (isEndCommand (playerAction payload)).
  - intros _. do 3 run_monad. reflexivity.
  - intros _.
    match goal with
    | |- context [narrate env ?d ?c ?p ?a ?s0] =>
        destruct (narrate env d c p a s0) as [narration s1] eqn:En
    end.
    apply (settleAction_shape player (playerAction payload) narration s1).
Qed.

Lemma hydrate_stored (startedAt : Z) (s : System) :
  stored (world s) = Some (snapshotOf (this s)) -> hydrate startedAt (world s) = s.
Proof.
  intros H. unfold hydrate. rewrite H. destruct s as [[ps ms cb la sid] w]. reflexivity.
Qed.

(** Property X20.  Whenever a request is answered by a handler that ran
    to its end (a join, state or action response), the snapshot in
    storage is the coordinator's state: a coordinator restarted from
    storage right after is in exactly the same state. *)
Theorem answered_requests_survive_a_restart (request : Request) (s : System)
        (startedAt : Z) :
  answered (fst (fetch env request s)) = true ->
  hydrate startedAt (world (snd (fetch env request s))) = snd (fetch env request s).
Proof.
  intros H. apply hydrate_stored. revert H.
  unfold fetch. unfold bind.
  destruct (cleanupIfIdle env s) as [[] s1].
  destruct request as [body| |body|].
  - destruct body as [payload|]; [|discriminate].
    intros _. apply (handleJoin_effects payload s1).
  - intros _. apply (handleState_effects s1).
  - apply handleAction_stored.
  - discriminate.
Qed.

Lemma cleanupIfIdle_sessionId (s : System) :
  sessionId (this (snd (cleanupIfIdle env s))) = sessionId (this s).
Proof.
  unfold cleanupIfIdle. run_monad.
  destruct (sessionId (this s)) as [sid |] eqn:Hsid; [|exact Hsid].
  destruct (JsString.isEmpty sid); [exact Hsid|].
  destruct (Nat.eqb (PlayerMap.size (players (this s))) 0); [exact Hsid|].
  run_monad.
  destruct (_ <? SESSION_IDLE_TIMEOUT_MS)%Z; do 2 run_monad; exact Hsid.
Qed.

Lemma handleAction_sessionId (body : option ActionPayload) (s : System) (sid : string) :
  sessionId (this s) = Some sid ->
  sessionId (this (snd (handleAction env body s))) = Some sid.
Proof.
  intros Hsid. unfold handleAction.
  destruct body as [payload|]; [|exact Hsid].
  run_monad. rewrite Hsid. cbn [orDefault].
  destruct (PlayerMap.get (players (this s)) (actPlayerId payload)) as [player|];
    [|reflexivity].
  destruct (isEndCommand (playerAction payload)).
  - do 3 run_monad. reflexivity.
  - match goal with
    | |- context [narrate env ?d ?c ?p ?a ?s0] =>
        destruct (narrate env d c p a s0) as [narration s1] eqn:En
    end.
    apply narrate_frame in En. destruct En as (Ht & _ & _).
    destruct (settleAction_shape player (playerAction payload) narration s1) as [H _].
    rewrite H, Ht. reflexivity.
Qed.

(** Property X21.  Once a coordinator has a session id no request
    changes it, whatever session id the request carries. *)
Theorem sessionId_is_never_replaced (request : Request) (s : System) (sid : string) :
  sessionId (this s) = Some sid ->
  sessionId (this (snd (fetch env request s))) = Some sid.
Proof.
  intros Hsid. unfold fetch. unfold bind.
  pose proof (cleanupIfIdle_sessionId s) as Hclean. rewrite Hsid in Hclean.
  destruct (cleanupIfIdle env s) as [[] s1]. cbn [snd] in Hclean.
  destruct request as [body| |body|].
  - destruct body as [payload|]; [|exact Hclean].
    destruct (handleJoin_effects payload s1) as [_ [H _]].
    rewrite H, Hclean. reflexivity.
  - destruct (handleState_effects s1) as [_ [_ [_ [H _]]]]. rewrite H. exact Hclean.
  - apply handleAction_sessionId. exact Hclean.
  - exact Hclean.
Qed.

End SessionFacts.

(** Thia held the turn before the rename. *)
Lemma renamed_player_loses_the_turn_witness :
  isPlayerTurn (this Scenario.midFight) "p1" = true /\
  ~ In (joinName Cases.renamed) (turnOrder (combat (this Scenario.midFight))) /\
  isPlayerTurn (this (snd (handleJoin Scenario.envGoblin (Some Cases.renamed)
                                      Scenario.midFight))) "p1" = false.
Proof.
  assert (Hget : PlayerMap.get (players (this Scenario.midFight)) (joinPlayerId Cases.renamed)
                 = Some (Scenario.thia "p1" ["health potion"])) by reflexivity.
  assert (Hname : Player.name (Scenario.thia "p1" ["health potion"]) <> joinName Cases.renamed)
    by discriminate.
  assert (Hstale : ~ In (joinName Cases.renamed) (turnOrder (combat (this Scenario.midFight)))).
  { cbn. intros [H|[H|[]]]; discriminate H. }
  split; [reflexivity|]. split; [exact Hstale|].
  exact (proj2 (renamed_player_loses_the_turn Scenario.envGoblin Cases.renamed
                  Scenario.midFight (Scenario.thia "p1" ["health potion"])
                  Hget Hname Hstale)).
Defined.

(** A join that names another session. *)
Lemma sessionId_is_never_replaced_witness :
  sessionId (this Scenario.midFight) = Some "s1" /\
  sessionId (this (snd (fetch Scenario.envGoblin (PostJoin (Some Cases.newcomer))
                              Scenario.midFight))) = Some "s1".
Proof.
  split; [reflexivity|].
  exact (sessionId_is_never_replaced Scenario.envGoblin (PostJoin (Some Cases.newcomer))
           Scenario.midFight "s1" eq_refl).
Defined.

(** A restart right after an action. *)
Lemma answered_requests_survive_a_restart_witness :
  answered (fst (fetch Scenario.envGoblin (PostAction (Some Scenario.attack))
                       Scenario.midFight)) = true /\
  hydrate 0 (world (snd (fetch Scenario.envGoblin (PostAction (Some Scenario.attack))
                               Scenario.midFight)))
    = snd (fetch Scenario.envGoblin (PostAction (Some Scenario.attack)) Scenario.midFight).
Proof.
  assert (H : answered (fst (fetch Scenario.envGoblin (PostAction (Some Scenario.attack))
                                   Scenario.midFight)) = true) by (vm_compute; reflexivity).
  split; [exact H|].
  exact (answered_requests_survive_a_restart Scenario.envGoblin
           (PostAction (Some Scenario.attack)) Scenario.midFight 0 H).
Defined.


(** A newcomer joining half an hour after the last activity. *)
Lemma join_after_expiry_starts_afresh_witness :
  (SESSION_IDLE_TIMEOUT_MS
     <= clock Cases.envLater (clockReads (world Scenario.midFight))
        - lastActivity (this Scenario.midFight))%Z /\
  players (this (snd (fetch Cases.envLater (PostJoin (Some Cases.newcomer))
                            Scenario.midFight)))
    = [("p2", Player.mk "p2" "Bram" 20 starterInventory)] /\
  registryCalls (world (snd (fetch Cases.envLater (PostJoin (Some Cases.newcomer))
                                   Scenario.midFight)))
    = [RegistryRemove "s1"; RegistryAdd "s2"].
Proof.
  assert (Hidle : (SESSION_IDLE_TIMEOUT_MS
                     <= clock Cases.envLater (clockReads (world Scenario.midFight))
                        - lastActivity (this Scenario.midFight))%Z)
    by (vm_compute; discriminate).
  assert (Hplayers : players (this Scenario.midFight) <> []) by discriminate.
  split; [exact Hidle|].
  pose proof (join_after_expiry_starts_afresh Cases.envLater Cases.newcomer Scenario.midFight
                "s1" eq_refl eq_refl Hplayers Hidle) as [H1 [_ [_ [_ H5]]]].
  split; [exact H1 | exact H5].
Defined.

(** The same session seen half an hour later, and seen at once. *)
Lemma cleanupIfIdle_expires_witness :
  sessionId (this Scenario.midFight) = Some "s1" /\
  players (this Scenario.midFight) <> [] /\
  this (snd (cleanupIfIdle Cases.envLater Scenario.midFight))
    = mkCoordinator PlayerMap.empty [] defaultCombatState 1800001 (Some "s1") /\
  registryCalls (world (snd (cleanupIfIdle Cases.envLater Scenario.midFight)))
    = [RegistryRemove "s1"] /\
  this (snd (cleanupIfIdle Scenario.envGoblin Scenario.midFight)) = this Scenario.midFight.
Proof.
  assert (Hsid : sessionId (this Scenario.midFight) = Some "s1") by reflexivity.
  assert (Hplayers : players (this Scenario.midFight) <> []) by discriminate.
  split; [exact Hsid|]. split; [exact Hplayers|].
  pose proof (proj2 (cleanupIfIdle_expires Cases.envLater Scenario.midFight "s1")
                Hsid eq_refl Hplayers) as [H1 [_ H3]].
  pose proof (proj2 (cleanupIfIdle_expires Scenario.envGoblin Scenario.midFight "s1")
                Hsid eq_refl Hplayers) as [H4 _].
  split; [exact H1|]. split; [exact H3 | exact H4].
Defined.

(** Thia renamed during a fight: the turn order keeps the old name. *)
Lemma handleJoin_renames_witness :
  PlayerMap.get (players (this Scenario.midFight)) (joinPlayerId Cases.renamed)
    = Some (Scenario.thia "p1" ["health potion"]) /\
  Player.name (Scenario.thia "p1" ["health potion"]) <> joinName Cases.renamed /\
  players (this (snd (handleJoin Scenario.envGoblin (Some Cases.renamed) Scenario.midFight)))
    = [("p1", Player.mk "p1" "Thia the Bold" 20 ["health potion"])] /\
  turnOrder (combat (this (snd (handleJoin Scenario.envGoblin (Some Cases.renamed)
                                           Scenario.midFight)))) = ["Thia"; "Orc"].
Proof.
  assert (Hget : PlayerMap.get (players (this Scenario.midFight)) (joinPlayerId Cases.renamed)
                 = Some (Scenario.thia "p1" ["health potion"])) by reflexivity.
  assert (Hname : Player.name (Scenario.thia "p1" ["health potion"]) <> joinName Cases.renamed)
    by discriminate.
  split; [exact Hget|]. split; [exact Hname|].
  pose proof (handleJoin_renames Scenario.envGoblin Cases.renamed Scenario.midFight
                (Scenario.thia "p1" ["health potion"]) Hget Hname) as [_ [_ [_ [Hcombat _]]]].
  split; [vm_compute; reflexivity|].
  rewrite Hcombat. reflexivity.
Defined.

(** Property X22.  With combat active and the turn index within the turn
    order, [nextTurn] moves the index to the next position, wrapping to 0
    after the last, and changes nothing else: as many advances as the
    turn order is long bring the combat state back to where it was. *)
Theorem nextTurn_goes_round (cb : CombatState) (z : Z) :
  active cb = true ->
  currentTurnIndex cb = Num z ->
  (0 <= z < Z.of_nat (List.length (turnOrder cb)))%Z ->
  currentTurnIndex (nextTurnOf cb)
    = Num ((z + 1) mod Z.of_nat (List.length (turnOrder cb))) /\
  Nat.iter (List.length (turnOrder cb)) nextTurnOf cb = cb.
Proof.
  intros Ha Hi Hz.
  assert (Hiter : forall k,
             Nat.iter k nextTurnOf cb
             = mkCombat true (turnOrder cb)
                        (Num ((z + Z.of_nat k) mod Z.of_nat (List.length (turnOrder cb))))
                        (enemies cb)).
  { induction k as [|k IH].
    - change (Nat.iter 0 nextTurnOf cb) with cb.
      rewrite Z.add_0_r, Z.mod_small by exact Hz.
      destruct cb; cbn in *; subst; reflexivity.
    - change (Nat.iter (S k) nextTurnOf cb) with (nextTurnOf (Nat.iter k nextTurnOf cb)).
      rewrite IH. unfold nextTurnOf.
      cbn [active negb turnOrder currentTurnIndex enemies advance].
      destruct (List.length (turnOrder cb)) as [|n] eqn:Hn; [cbn in Hz; lia|].
      cbn [advance]. f_equal. f_equal.
      rewrite Z.rem_mod_nonneg.
      + rewrite Zplus_mod_idemp_l. f_equal. lia.
      + pose proof (Z.mod_pos_bound (z + Z.of_nat k) (Z.of_nat (S n))). lia.
      + lia. }
  split.
  - pose proof (Hiter 1) as H1.
    change (Nat.iter 1 nextTurnOf cb) with (nextTurnOf cb) in H1. rewrite H1. reflexivity.
  - rewrite Hiter.
    replace (z + Z.of_nat (List.length (turnOrder cb)))%Z
      with (z + 1 * Z.of_nat (List.length (turnOrder cb)))%Z by lia.
    rewrite Z.mod_add by lia. rewrite Z.mod_small by exact Hz.
    destruct cb; cbn in *; subst; reflexivity.
Qed.

(** The last position of a turn order of two. *)
Lemma nextTurn_goes_round_witness :
  active Scenario.fallen = true /\
  currentTurnIndex Scenario.fallen = Num 1 /\
  currentTurnIndex (nextTurnOf Scenario.fallen) = Num 0 /\
  nextTurnOf (nextTurnOf Scenario.fallen) = Scenario.fallen.
Proof.
  split; [reflexivity|]. split; [reflexivity|].
  assert (Hz : (0 <= 1 < Z.of_nat (List.length (turnOrder Scenario.fallen)))%Z)
    by (cbn; lia).
  exact (nextTurn_goes_round Scenario.fallen 1 eq_refl eq_refl Hz).
Defined.

(** *** The session registry, the payload guards and the Worker *)

Module RegistryFacts.
Import SessionRegistry.

Lemma has_In (l : list string) (sid : string) : has l sid = true <-> In sid l.
Proof.
  unfold has. rewrite existsb_exists. split.
  - intros [x [Hin Heq]]. apply String.eqb_eq in Heq. subst. exact Hin.
  - intros Hin. exists sid. split; [exact Hin | apply String.eqb_refl].
Qed.

Lemma add_NoDup (l : list string) (sid : string) : NoDup l -> NoDup (add l sid).
Proof.
  intros H. unfold add. destruct (has l sid) eqn:Hh; [exact H|].
  apply InventoryFacts.NoDup_push; [exact H|].
  intros Hin. apply has_In in Hin. congruence.
Qed.

Lemma delete_NoDup (l : list string) (sid : string) : NoDup l -> NoDup (delete l sid).
Proof. intros H. unfold delete. apply NoDup_filter. exact H. Qed.

Lemma fromArray_NoDup (array : list string) : NoDup (fromArray array).
Proof.
  unfold fromArray. apply fold_left_invariant; [|constructor].
  intros l sid. apply add_NoDup.
Qed.

Lemma add_has (l : list string) (sid : string) : has (add l sid) sid = true.
Proof.
  unfold add. destruct (has l sid) eqn:Hh; [exact Hh|].
  apply has_In. apply in_or_app. right. left. reflexivity.
Qed.

Lemma add_again (l : list string) (sid : string) : add (add l sid) sid = add l sid.
Proof. unfold add at 1. rewrite add_has. reflexivity. Qed.

Lemma delete_has (l : list string) (sid : string) : has (delete l sid) sid = false.
Proof.
  destruct (has (delete l sid) sid) eqn:Hh; [|reflexivity].
  apply has_In in Hh. unfold delete in Hh. apply filter_In in Hh.
  destruct Hh as [_ Hh]. rewrite String.eqb_refl in Hh. discriminate.
Qed.

Lemma delete_absent (l : list string) (sid : string) :
  has l sid = false -> delete l sid = l.
Proof.
  intros Hh. unfold delete. induction l as [|x l IH]; [reflexivity|].
  cbn [filter]. unfold has in Hh. cbn [existsb] in Hh.
  apply orb_false_iff in Hh. destruct Hh as [Hx Hl].
  rewrite String.eqb_sym, Hx. cbn [negb]. f_equal. apply IH. exact Hl.
Qed.

Lemma delete_add (l : list string) (sid : string) :
  has l sid = false -> delete (add l sid) sid = l.
Proof.
  intros Hh. unfold add. rewrite Hh. unfold delete. rewrite filter_app.
  cbn [filter]. rewrite String.eqb_refl. cbn [negb]. rewrite app_nil_r.
  apply delete_absent. exact Hh.
Qed.

Lemma has_add_other (l : list string) (sid other : string) :
  other <> sid -> has (add l sid) other = has l other.
Proof.
  intros Hne. unfold add. destruct (has l sid); [reflexivity|].
  unfold has. rewrite existsb_app. cbn [existsb].
  destruct (String.eqb_spec other sid); [contradiction|].
  rewrite !orb_false_r. reflexivity.
Qed.

Lemma has_delete_other (l : list string) (sid other : string) :
  other <> sid -> has (delete l sid) other = has l other.
Proof.
  intros Hne. unfold delete.
  destruct (has l other) eqn:Hh.
  - apply has_In. apply filter_In. split; [apply has_In; exact Hh|].
    destruct (String.eqb_spec other sid); [contradiction|reflexivity].
  - destruct (has (filter _ l) other) eqn:Hf; [|reflexivity].
    apply has_In in Hf. apply filter_In in Hf. destruct Hf as [Hf _].
    apply has_In in Hf. congruence.
Qed.

Lemma fromArray_NoDup_id (l : list string) : NoDup l -> fromArray l = l.
Proof.
  intros H. unfold fromArray.
  assert (G : forall acc, NoDup (acc ++ l) -> fold_left add l acc = (acc ++ l)%list).
  { clear H. induction l as [|x l IH]; intros acc Hacc; cbn [fold_left].
    - rewrite app_nil_r. reflexivity.
    - assert (Hx : has acc x = false).
      { destruct (has acc x) eqn:Hh; [|reflexivity].
        apply has_In in Hh. apply NoDup_remove_2 in Hacc.
        exfalso. apply Hacc. apply in_or_app. left. exact Hh. }
      unfold add at 2. rewrite Hx.
      rewrite IH.
      + rewrite <- app_assoc. reflexivity.
      + rewrite <- app_assoc. exact Hacc. }
  apply (G []). exact H.
Qed.

End RegistryFacts.

(** Property X23.  The session registry behaves as a set under the calls
    a coordinator sends: after an add the session is listed, a second add
    changes nothing, after a remove it is not listed, removing a session
    that is not listed (or adding and removing a new one) leaves the
    list as it was, other sessions are unaffected, and the list never
    holds a session twice. *)
Theorem registry_add_and_remove (g : SessionRegistry.t) (sid : string) :
  SessionRegistry.has (SessionRegistry.sessions (deliver [RegistryAdd sid] g)) sid = true /\
  deliver [RegistryAdd sid; RegistryAdd sid] g = deliver [RegistryAdd sid] g /\
  SessionRegistry.has (SessionRegistry.sessions (deliver [RegistryRemove sid] g)) sid = false /\
  (SessionRegistry.has (SessionRegistry.sessions g) sid = false ->
   SessionRegistry.sessions (deliver [RegistryAdd sid; RegistryRemove sid] g)
     = SessionRegistry.sessions g /\
   SessionRegistry.sessions (deliver [RegistryRemove sid] g) = SessionRegistry.sessions g) /\
  (forall other, other <> sid ->
     SessionRegistry.has (SessionRegistry.sessions (deliver [RegistryAdd sid] g)) other
       = SessionRegistry.has (SessionRegistry.sessions g) other /\
     SessionRegistry.has (SessionRegistry.sessions (deliver [RegistryRemove sid] g)) other
       = SessionRegistry.has (SessionRegistry.sessions g) other) /\
  (forall calls, NoDup (SessionRegistry.sessions g) ->
     NoDup (SessionRegistry.sessions (deliver calls g))).
Proof.
  assert (Hadd : forall g0 sid0,
             deliver [RegistryAdd sid0] g0
             = SessionRegistry.persist (SessionRegistry.add (SessionRegistry.sessions g0) sid0))
    by reflexivity.
  assert (Hdel : forall g0 sid0,
             deliver [RegistryRemove sid0] g0
             = SessionRegistry.persist
                 (SessionRegistry.delete (SessionRegistry.sessions g0) sid0))
    by reflexivity.
  assert (Hcons : forall call calls g0,
             deliver (call :: calls) g0 = deliver calls (deliver [call] g0))
    by reflexivity.
  split; [|split; [|split; [|split; [|split]]]].
  - rewrite Hadd. apply RegistryFacts.add_has.
  - rewrite Hcons, !Hadd. cbn [SessionRegistry.persist SessionRegistry.sessions].
    rewrite RegistryFacts.add_again. reflexivity.
  - rewrite Hdel. apply RegistryFacts.delete_has.
  - intros Hh. rewrite Hcons, Hadd, !Hdel.
    cbn [SessionRegistry.persist SessionRegistry.sessions].
    split; [apply RegistryFacts.delete_add | apply RegistryFacts.delete_absent]; exact Hh.
  - intros other Hne. rewrite Hadd, Hdel.
    cbn [SessionRegistry.persist SessionRegistry.sessions].
    split; [apply RegistryFacts.has_add_other | apply RegistryFacts.has_delete_other];
      exact Hne.
  - intros calls. revert g. induction calls as [|call calls IH]; intros g Hg; [exact Hg|].
    rewrite Hcons. apply IH.
    destruct call; [rewrite Hadd | rewrite Hdel];
      cbn [SessionRegistry.persist SessionRegistry.sessions];
      [apply RegistryFacts.add_NoDup | apply RegistryFacts.delete_NoDup]; exact Hg.
Qed.

(** A registry loaded from an array with a repeated entry. *)
Lemma registry_add_and_remove_witness :
  SessionRegistry.sessions Cases.lobbyList = ["s0"; "s9"] /\
  SessionRegistry.has (SessionRegistry.sessions Cases.lobbyList) "s1" = false /\
  SessionRegistry.sessions (deliver [RegistryAdd "s1"; RegistryRemove "s1"] Cases.lobbyList)
    = ["s0"; "s9"] /\
  SessionRegistry.has
    (SessionRegistry.sessions (deliver [RegistryAdd "s1"] Cases.lobbyList)) "s9" = true.
Proof.
  assert (Hnew : SessionRegistry.has (SessionRegistry.sessions Cases.lobbyList) "s1" = false)
    by reflexivity.
  split; [reflexivity|]. split; [exact Hnew|].
  destruct (registry_add_and_remove Cases.lobbyList "s1")
    as [_ [_ [_ [Hround [Hother _]]]]].
  split.
  - exact (proj1 (Hround Hnew)).
  - assert (Hne : "s9" <> "s1") by discriminate.
    rewrite (proj1 (Hother "s9" Hne)). reflexivity.
Defined.

(** Property X24.  The registry stores its set at every change: after a
    request answered with ok (add, remove, clear), a registry restarted
    from storage is the same registry.  A request answered otherwise (the
    listing, not found) changes nothing.  A registry loaded from storage
    never holds a session twice, whatever array was stored. *)
Theorem registry_survives_a_restart (request : HttpRequest) (g g' : SessionRegistry.t) :
  NoDup (SessionRegistry.sessions (SessionRegistry.start (SessionRegistry.storage g))) /\
  (NoDup (SessionRegistry.sessions g) ->
   SessionRegistry.fetch request g = Some (SessionRegistry.Ok, g') ->
   SessionRegistry.start (SessionRegistry.storage g') = g' /\
   NoDup (SessionRegistry.sessions g')) /\
  (forall reply, reply <> SessionRegistry.Ok ->
     SessionRegistry.fetch request g = Some (reply, g') -> g' = g).
Proof.
  split; [|split].
  - unfold SessionRegistry.start, SessionRegistry.loadSessions.
    cbn [SessionRegistry.sessions].
    destruct (SessionRegistry.storage g); [apply RegistryFacts.fromArray_NoDup|constructor].
  - intros Hg Hrun.
    assert (Hp : forall l, NoDup l ->
               SessionRegistry.start (SessionRegistry.storage (SessionRegistry.persist l))
                 = SessionRegistry.persist l /\
               NoDup (SessionRegistry.sessions (SessionRegistry.persist l))).
    { intros l Hl. unfold SessionRegistry.start, SessionRegistry.persist.
      cbn [SessionRegistry.storage SessionRegistry.sessions SessionRegistry.loadSessions].
      rewrite (RegistryFacts.fromArray_NoDup_id l Hl). split; [reflexivity|exact Hl]. }
    unfold SessionRegistry.fetch in Hrun.
    destruct (endsWith (pathname request) "/list"); [discriminate|].
    destruct (endsWith (pathname request) "/add" && String.eqb (method request) "POST").
    { destruct (SessionRegistry.sessionIdOf request) as [sid|]; [|discriminate].
      inversion Hrun; subst. apply Hp, RegistryFacts.add_NoDup, Hg. }
    destruct (endsWith (pathname request) "/remove" && String.eqb (method request) "POST").
    { destruct (SessionRegistry.sessionIdOf request) as [sid|]; [|discriminate].
      inversion Hrun; subst. apply Hp, RegistryFacts.delete_NoDup, Hg. }
    destruct (endsWith (pathname request) "/clear" && String.eqb (method request) "POST").
    { inversion Hrun; subst. apply Hp. constructor. }
    discriminate.
  - intros reply Hreply Hrun. unfold SessionRegistry.fetch in Hrun.
    destruct (endsWith (pathname request) "/list"); [inversion Hrun; reflexivity|].
    destruct (endsWith (pathname request) "/add" && String.eqb (method request) "POST").
    { destruct (SessionRegistry.sessionIdOf request) as [sid|]; [|discriminate].
      inversion Hrun; subst. contradiction. }
    destruct (endsWith (pathname request) "/remove" && String.eqb (method request) "POST").
    { destruct (SessionRegistry.sessionIdOf request) as [sid|]; [|discriminate].
      inversion Hrun; subst. contradiction. }
    destruct (endsWith (pathname request) "/clear" && String.eqb (method request) "POST").
    { inversion Hrun; subst. contradiction. }
    inversion Hrun; reflexivity.
Qed.

(** An add, then a restart. *)
Lemma registry_survives_a_restart_witness :
  NoDup (SessionRegistry.sessions Cases.lobbyList) /\
  SessionRegistry.fetch (registryRequest (RegistryAdd "s1")) Cases.lobbyList
    = Some (SessionRegistry.Ok, SessionRegistry.persist ["s0"; "s9"; "s1"]) /\
  SessionRegistry.start (SessionRegistry.storage (SessionRegistry.persist ["s0"; "s9"; "s1"]))
    = SessionRegistry.persist ["s0"; "s9"; "s1"].
Proof.
  assert (Hg : NoDup (SessionRegistry.sessions Cases.lobbyList)).
  { exact (proj1 (registry_survives_a_restart (registryRequest (RegistryAdd "s1"))
                    (SessionRegistry.mk [] (Some ["s0"; "s0"; "s9"])) Cases.lobbyList)). }
  assert (Hrun : SessionRegistry.fetch (registryRequest (RegistryAdd "s1")) Cases.lobbyList
                 = Some (SessionRegistry.Ok, SessionRegistry.persist ["s0"; "s9"; "s1"]))
    by reflexivity.
  split; [exact Hg|]. split; [exact Hrun|].
  exact (proj1 (proj1 (proj2 (registry_survives_a_restart
                                (registryRequest (RegistryAdd "s1")) Cases.lobbyList
                                (SessionRegistry.persist ["s0"; "s9"; "s1"]))) Hg Hrun)).
Defined.

Lemma deliver_app (calls more : list RegistryCall) (g : SessionRegistry.t) :
  deliver (calls ++ more) g = deliver more (deliver calls g).
Proof. unfold deliver. apply fold_left_app. Qed.

(** Property X25.  Coordinator and registry together: once the calls of
    a first join (a join on an empty roster) have reached the registry
    the session is listed, and once those of an end command have reached
    it the session is not listed any more. *)
Theorem lobby_follows_the_session (env : Env) (s : System) (g : SessionRegistry.t) :
  (forall payload : JoinPayload,
      players (this s) = [] ->
      SessionRegistry.has
        (SessionRegistry.sessions
           (deliver (registryCalls (world (snd (handleJoin env (Some payload) s)))) g))
        (joinSessionId payload) = true) /\
  (forall (payload : ActionPayload) (player : Player.t),
      PlayerMap.get (players (this s)) (actPlayerId payload) = Some player ->
      isEndCommand (playerAction payload) = true ->
      SessionRegistry.has
        (SessionRegistry.sessions
           (deliver (registryCalls (world (snd (handleAction env (Some payload) s)))) g))
        (actSessionId payload) = false).
Proof.
  split.
  - intros payload Hempty.
    destruct (handleJoin_effects env payload s) as [Hcalls _].
    rewrite Hcalls, Hempty. cbn [PlayerMap.size List.length Nat.eqb].
    rewrite deliver_app. apply RegistryFacts.add_has.
  - intros payload player Hget Hend.
    assert (Hcalls : registryCalls (world (snd (handleAction env (Some payload) s)))
                     = (registryCalls (world s) ++ [RegistryRemove (actSessionId payload)])%list).
    { unfold handleAction. run_monad. rewrite Hget, Hend. do 3 run_monad. reflexivity. }
    rewrite Hcalls, deliver_app. apply RegistryFacts.delete_has.
Qed.

(** A first join, and an end command. *)
Lemma lobby_follows_the_session_witness :
  players (this (hydrate 0 freshWorld)) = [] /\
  SessionRegistry.has
    (SessionRegistry.sessions
       (deliver (registryCalls (world (snd (handleJoin Scenario.envGoblin
                                              (Some Cases.newcomer)
                                              (hydrate 0 freshWorld)))))
                Cases.lobbyList)) "s2" = true /\
  SessionRegistry.has
    (SessionRegistry.sessions
       (deliver (registryCalls (world (snd (handleAction Scenario.envGoblin
                                              (Some Scenario.endGame) Scenario.midFight))))
                (deliver [RegistryAdd "s1"] Cases.lobbyList))) "s1" = false.
Proof.
  split; [reflexivity|].
  destruct (lobby_follows_the_session Scenario.envGoblin (hydrate 0 freshWorld)
              Cases.lobbyList) as [Hjoin _].
  destruct (lobby_follows_the_session Scenario.envGoblin Scenario.midFight
              (deliver [RegistryAdd "s1"] Cases.lobbyList)) as [_ Hend].
  split.
  - exact (Hjoin Cases.newcomer eq_refl).
  - assert (Hcmd : isEndCommand (playerAction Scenario.endGame) = true)
      by (vm_compute; reflexivity).
    exact (Hend Scenario.endGame (Scenario.thia "p1" ["health potion"]) eq_refl Hcmd).
Defined.

Module GuardFacts.
Import ApiValidation.

Lemma isString_stringOf (v : option Json) :
  isString v = true -> v = Some (JString (stringOf v)).
Proof. destruct v as [[]|]; try discriminate. reflexivity. Qed.

Lemma requestOf_join (p : JoinPayload) :
  requestOf (Worker.internal "join" "POST" (Some (encodeJoin p))) = PostJoin (Some p).
Proof. destruct p. reflexivity. Qed.

Lemma requestOf_action (p : ActionPayload) :
  requestOf (Worker.internal "action" "POST" (Some (encodeAction p))) = PostAction (Some p).
Proof. destruct p. reflexivity. Qed.

End GuardFacts.

(** Property X26.  The two payload guards accept what the Worker forwards
    (the object built from the three fields, read back unchanged, empty
    strings included), and accept nothing but objects whose three fields
    are strings: an accepted body is an object, and each field read from
    it is the string stored under that key (the last one, should a key
    be repeated). *)
Theorem payload_guards (body : Json) :
  (forall p : JoinPayload,
      ApiValidation.isJoinPayload (encodeJoin p) = true /\ joinPayloadOf (encodeJoin p) = p) /\
  (forall p : ActionPayload,
      ApiValidation.isActionPayload (encodeAction p) = true /\
      actionPayloadOf (encodeAction p) = p) /\
  (ApiValidation.isJoinPayload body = true ->
   exists fields,
     body = JObject fields /\
     ApiValidation.property fields "sessionId"
       = Some (JString (joinSessionId (joinPayloadOf body))) /\
     ApiValidation.property fields "playerId"
       = Some (JString (joinPlayerId (joinPayloadOf body))) /\
     ApiValidation.property fields "name"
       = Some (JString (joinName (joinPayloadOf body)))) /\
  (ApiValidation.isActionPayload body = true ->
   exists fields,
     body = JObject fields /\
     ApiValidation.property fields "sessionId"
       = Some (JString (actSessionId (actionPayloadOf body))) /\
     ApiValidation.property fields "playerId"
       = Some (JString (actPlayerId (actionPayloadOf body))) /\
     ApiValidation.property fields "playerAction"
       = Some (JString (playerAction (actionPayloadOf body)))).
Proof.
  split; [|split; [|split]].
  - intros [sid pid name]. split; reflexivity.
  - intros [sid pid action]. split; reflexivity.
  - unfold ApiValidation.isJoinPayload. intros H.
    apply andb_true_iff in H. destruct H as [H H3].
    apply andb_true_iff in H. destruct H as [H H2].
    apply andb_true_iff in H. destruct H as [H0 H1].
    destruct body as [| | | |items|fields]; try discriminate.
    exists fields. split; [reflexivity|].
    unfold joinPayloadOf. cbn [joinSessionId joinPlayerId joinName].
    cbn [ApiValidation.get] in *.
    repeat split; apply GuardFacts.isString_stringOf; assumption.
  - unfold ApiValidation.isActionPayload. intros H.
    apply andb_true_iff in H. destruct H as [H H3].
    apply andb_true_iff in H. destruct H as [H H2].
    apply andb_true_iff in H. destruct H as [H0 H1].
    destruct body as [| | | |items|fields]; try discriminate.
    exists fields. split; [reflexivity|].
    unfold actionPayloadOf. cbn [actSessionId actPlayerId playerAction].
    cbn [ApiValidation.get] in *.
    repeat split; apply GuardFacts.isString_stringOf; assumption.
Qed.

(** A body with a repeated key and a field too many; the name is the empty string. *)
Lemma payload_guards_witness :
  ApiValidation.isJoinPayload
    (JObject [("name", JNumber 7); ("sessionId", JString "s1"); ("playerId", JString "p1");
              ("name", JString ""); ("extra", JArray [JNull])]) = true /\
  ApiValidation.property
    [("name", JNumber 7); ("sessionId", JString "s1"); ("playerId", JString "p1");
     ("name", JString ""); ("extra", JArray [JNull])] "name" = Some (JString "").
Proof.
  assert (H : ApiValidation.isJoinPayload
                (JObject [("name", JNumber 7); ("sessionId", JString "s1");
                          ("playerId", JString "p1"); ("name", JString "");
                          ("extra", JArray [JNull])]) = true) by reflexivity.
  split; [exact H|].
  destruct (proj1 (proj2 (proj2 (payload_guards
                                   (JObject [("name", JNumber 7); ("sessionId", JString "s1");
                                             ("playerId", JString "p1"); ("name", JString "");
                                             ("extra", JArray [JNull])])))) H)
    as [fields [Hbody [_ [_ Hname]]]].
  inversion Hbody; subst fields. exact Hname.
Defined.

(** Property X27.  Whatever the bindings do and whatever request reaches
    the Worker, its response is one of five.  A 400 of its own, or a 405
    of its own naming the allowed method.  Or the outcome of one call to
    the coordinator named by the session id: the coordinator's response
    passed on, a 502 of the Worker's own if that call throws; the request
    of that call is a join or an action whose body passed the guard,
    re-encoded so that the coordinator's own guard accepts it and reads
    the same fields, or a state query with a session id that is not
    empty.  Or the outcome, in the same way, of one call to the registry
    named "global": the listing (GET /api/sessions) or the clearing
    (POST /api/sessions/clear), which the registry answers as such.  Or,
    for a path outside the five API paths, whatever the static assets
    answer, a failure of theirs included. *)
Theorem worker_forwards_only_well_formed_requests (R : Type) (env : Worker.Env R)
        (request : HttpRequest) :
  (exists message, Worker.fetch env request = Some (Worker.Own 400 message None)) \/
  (exists allow,
      Worker.fetch env request = Some (Worker.Own 405 "Method Not Allowed" (Some allow))) \/
  (exists name forwarded,
      Worker.fetch env request
      = Some match Worker.SESSION_COORDINATOR env name forwarded with
             | Some response => Worker.Relayed response
             | None => Worker.Own 502 "Session service unavailable" None
             end /\
      match requestOf forwarded with
      | PostJoin (Some p) =>
          joinSessionId p = name /\
          pathname request = "/api/session/join" /\ method request = "POST" /\
          exists body, json request = Some body /\
                       ApiValidation.isJoinPayload body = true /\ p = joinPayloadOf body
      | PostAction (Some p) =>
          actSessionId p = name /\
          pathname request = "/api/session/action" /\ method request = "POST" /\
          exists body, json request = Some body /\
                       ApiValidation.isActionPayload body = true /\ p = actionPayloadOf body
      | GetState =>
          JsString.isEmpty name = false /\
          pathname request = "/api/session/state" /\ method request = "GET" /\
          Worker.searchParam (query request) "sessionId" = Some name
      | _ => False
      end) \/
  (exists forwarded,
      Worker.fetch env request
      = Some match Worker.SESSION_REGISTRY env "global" forwarded with
             | Some response => Worker.Relayed response
             | None => Worker.Own 502 "Session service unavailable" None
             end /\
      forall g : SessionRegistry.t,
        (pathname request = "/api/sessions" /\ method request = "GET" /\
         SessionRegistry.fetch forwarded g
           = Some (SessionRegistry.Listing (SessionRegistry.sessions g), g)) \/
        (pathname request = "/api/sessions/clear" /\ method request = "POST" /\
         SessionRegistry.fetch forwarded g
           = Some (SessionRegistry.Ok, SessionRegistry.persist []))) \/
  (Worker.fetch env request = option_map Worker.Relayed (Worker.ASSETS env request) /\
   ~ In (pathname request)
        ["/api/session/state"; "/api/session/action"; "/api/session/join";
         "/api/sessions"; "/api/sessions/clear"]).
Proof.
  unfold Worker.fetch.
  destruct (String.eqb_spec (pathname request) "/api/session/state") as [P1|N1].
  { destruct (String.eqb_spec (method request) "GET") as [M|M]; cbn [negb].
    - destruct (Worker.searchParam (query request) "sessionId") as [sid|] eqn:Hq.
      + destruct (JsString.isEmpty sid) eqn:He.
        * left. eexists. reflexivity.
        * right. right. left. exists sid, (Worker.internal "state" "GET" None).
          split; [reflexivity |].
          change (requestOf (Worker.internal "state" "GET" None)) with GetState.
          repeat split; assumption.
      + left. eexists. reflexivity.
    - right. left. eexists. reflexivity. }
  destruct (String.eqb_spec (pathname request) "/api/session/action") as [P2|N2].
  { destruct (String.eqb_spec (method request) "POST") as [M|M]; cbn [negb].
    - unfold Worker.readJson.
      destruct (json request) as [body|] eqn:Hj; [|left; eexists; reflexivity].
      destruct (ApiValidation.isActionPayload body) eqn:Hg; [|left; eexists; reflexivity].
      right. right. left.
      exists (actSessionId (actionPayloadOf body)),
             (Worker.internal "action" "POST" (Some (encodeAction (actionPayloadOf body)))).
      split; [reflexivity |].
      rewrite GuardFacts.requestOf_action.
      repeat split; try assumption. exists body. repeat split; assumption.
    - right. left. eexists. reflexivity. }
  destruct (String.eqb_spec (pathname request) "/api/session/join") as [P3|N3].
  { destruct (String.eqb_spec (method request) "POST") as [M|M]; cbn [negb].
    - unfold Worker.readJson.
      destruct (json request) as [body|] eqn:Hj; [|left; eexists; reflexivity].
      destruct (ApiValidation.isJoinPayload body) eqn:Hg; [|left; eexists; reflexivity].
      right. right. left.
      exists (joinSessionId (joinPayloadOf body)),
             (Worker.internal "join" "POST" (Some (encodeJoin (joinPayloadOf body)))).
      split; [reflexivity |].
      rewrite GuardFacts.requestOf_join.
      repeat split; try assumption. exists body. repeat split; assumption.
    - right. left. eexists. reflexivity. }
  destruct (String.eqb_spec (pathname request) "/api/sessions") as [P4|N4].
  { destruct (String.eqb_spec (method request) "GET") as [M|M]; cbn [negb].
    - right. right. right. left. exists (Worker.internal "list" "GET" None).
      split; [reflexivity |]. intros g. left. repeat split; assumption.
    - right. left. eexists. reflexivity. }
  destruct (String.eqb_spec (pathname request) "/api/sessions/clear") as [P5|N5].
  { destruct (String.eqb_spec (method request) "POST") as [M|M]; cbn [negb].
    - right. right. right. left. exists (Worker.internal "clear" "POST" None).
      split; [reflexivity |]. intros g. right. repeat split; assumption.
    - right. left. eexists. reflexivity. }
  right. right. right. right. split; [reflexivity |].
  cbn [In]. intros [H|[H|[H|[H|[H|[]]]]]]; symmetry in H; contradiction.
Qed.

(** The repository's test of the 502: the coordinator of "demo" is
    offline when its state is asked for. *)
Example coordinator_failure_is_a_502 :
  Worker.fetch Cases.offline (mkHttp "/api/session/state" "GET" [("sessionId", "demo")] None)
  = Some (Worker.Own 502 "Session service unavailable" None) /\
  Worker.fetch Cases.offline (mkHttp "/api/sessions" "GET" [] None)
  = Some (Worker.Relayed "{}") /\
  Worker.fetch Cases.offline (mkHttp "/" "GET" [] None) = Some (Worker.Relayed "D&D AI").
Proof. repeat split. Qed.
